(** * Forethought Toolbox: the bookmark repository, duplicate merge and undo buffer

    A shallow embedding of
      - [src/types/bookmark.ts]                  (the data model),
      - [src/services/bookmarkService.ts]        (the repository over chrome.storage.local),
      - [src/components/BookmarkTable/index.tsx] (findDuplicates, handleMerge),
      - the popup component                      (the single-delete undo buffer),
    followed by the properties of the specification that concern them. *)

From stdpp Require Import gmap strings list.

Set Default Proof Using "Type".

(** ** JavaScript values *)

(** [new Date().toISOString()] and [Date.now()] read the same clock. A time
    stamp is represented by the instant it denotes, in milliseconds since
    the epoch; [toISOString] is monotone on the instants it can print, so
    comparing readings compares the printed strings. *)
Definition ISOString := Z.

(** Truthiness, as [&&], [||], [!] and [find(Boolean)] read a value that
    may be [undefined]: a string is truthy unless empty, a number unless 0. *)
Definition truthyString (v : option string) : bool :=
  match v with
  | Some s => negb (String.eqb s "")
  | None => false
  end.

Definition truthyNumber (v : option Z) : bool :=
  match v with
  | Some n => negb (n =? 0)%Z
  | None => false
  end.

Arguments truthyString : simpl never.
Arguments truthyNumber : simpl never.

(** [a || b] on possibly undefined strings. *)
Definition orElse (a b : option string) : option string :=
  if truthyString a then a else b.

(** [s.length], the number of UTF-16 code units of a string. A string
    stands here as the bytes of its UTF-8 form: a byte that starts a
    character of one, two or three bytes counts for one code unit, a byte
    that starts a character of four bytes for the two of a surrogate pair,
    and a continuation byte for none. *)
Definition utf16Units (c : Ascii.ascii) : nat :=
  let n := Ascii.nat_of_ascii c in
  if (n <? 128)%nat then 1
  else if (n <? 192)%nat then 0
  else if (n <? 240)%nat then 1
  else 2.

Fixpoint jsLength (s : string) : nat :=
  match s with
  | EmptyString => 0
  | String c rest => utf16Units c + jsLength rest
  end.

(** An own property of an object literal of type [Partial<T>]: the key is
    missing, or it is there and holds a value, which may be [undefined]
    ([null] for [parentId]). *)
Inductive slot (A : Type) : Type :=
  | absent
  | present (v : option A).
Arguments absent {A}.
Arguments present {A} v.

(** Reading [o.key]. *)
Definition get {A} (s : slot A) : option A :=
  match s with
  | absent => None
  | present v => v
  end.

(** The field [key] of [{...o, ...p}], from [o.key] and [p]'s slot. *)
Definition spread {A} (old : option A) (s : slot A) : option A :=
  match s with
  | absent => old
  | present v => v
  end.

(** ** src/types/bookmark.ts *)

Inductive NodeType : Type := bookmark | folder.

Global Instance NodeType_eq_dec : EqDecision NodeType.
Proof. solve_decision. Defined.

Module BookmarkCategory.
Record t : Type := mk {
  id : string;
  name : string;
  color : string;
  icon : string;
}.
End BookmarkCategory.

(** [BookmarkNode]. The declared type makes [type], [title], [parentId] and
    [createdAt] mandatory, but the recovery branch of [updateBookmarkNode]
    stores [{...updates, id, lastAccessed} as BookmarkNode] whatever keys
    [updates] has, so at run time only [id] is sure to be there: every other
    field is optional here. [None] stands for a missing key, [undefined],
    and for [parentId] also [null]. *)
Module BookmarkNode.
Record t : Type := mk {
  id : string;
  type : option NodeType;
  title : option string;
  url : option string;
  parentId : option string;
  categoryId : option string;
  tags : option (list string);
  createdAt : option ISOString;
  lastAccessed : option ISOString;
  accessCount : option Z;
  description : option string;
}.
End BookmarkNode.

(** [Partial<BookmarkNode>], the [updates] argument. *)
Module Partial.
Record t : Type := mk {
  id : option string;
  type : slot NodeType;
  title : slot string;
  url : slot string;
  parentId : slot string;
  categoryId : slot string;
  tags : slot (list string);
  createdAt : slot ISOString;
  lastAccessed : slot ISOString;
  accessCount : slot Z;
  description : slot string;
}.

(** [{}] *)
Definition empty : t :=
  mk None absent absent absent absent absent absent absent absent absent absent.

(** The own properties of a node, as [{...node}] and a node passed for
    [updates] have them: [id] and [parentId] always, the others when the
    node holds a value for them. *)
Definition ofValue {A} (v : option A) : slot A :=
  match v with
  | Some a => present (Some a)
  | None => absent
  end.

Definition ofNode (n : BookmarkNode.t) : t :=
  mk (Some (BookmarkNode.id n))
     (ofValue (BookmarkNode.type n))
     (ofValue (BookmarkNode.title n))
     (ofValue (BookmarkNode.url n))
     (present (BookmarkNode.parentId n))
     (ofValue (BookmarkNode.categoryId n))
     (ofValue (BookmarkNode.tags n))
     (ofValue (BookmarkNode.createdAt n))
     (ofValue (BookmarkNode.lastAccessed n))
     (ofValue (BookmarkNode.accessCount n))
     (ofValue (BookmarkNode.description n)).
End Partial.

(** The argument of [addBookmarkOrFolder]:
    [Omit<BookmarkNode, 'id' | 'createdAt' | 'lastAccessed' | 'accessCount'>
     & { type: 'bookmark' | 'folder' }]. *)
Module NodeDraft.
Record t : Type := mk {
  type : NodeType;
  title : string;
  url : option string;
  parentId : option string;
  categoryId : option string;
  tags : option (list string);
  description : option string;
}.
End NodeDraft.

(** [bookmarks.find(b => b.id === id)] *)
Definition findById (id : string) (bookmarks : list BookmarkNode.t)
    : option BookmarkNode.t :=
  snd <$> list_find (λ b, BookmarkNode.id b = id) bookmarks.

(** [Partial<BookmarkCategory>], the [updates] of [updateCategory]; every
    field of a category is a string, so a key is missing or holds one. *)
Module PartialCategory.
Record t : Type := mk {
  id : option string;
  name : option string;
  color : option string;
  icon : option string;
}.
End PartialCategory.

(** [{ name: string; color: string; icon: string }], the argument of
    [addCategory]. *)
Module CategoryDraft.
Record t : Type := mk {
  name : string;
  color : string;
  icon : string;
}.
End CategoryDraft.

(** ** chrome.storage.local *)

(** The keys the repository and the undo buffer use; [None] is a key with
    nothing stored under it and, for [bookmarks], also one with something
    other than an array, which [getBookmarks] reads as [[]] all the same.
    [sets] logs the keys of every [set] call, latest first. *)
Module Storage.
Record t : Type := mk {
  bookmarks : option (list BookmarkNode.t);
  bookmark_categories : option (list BookmarkCategory.t);
  lastDeletedBookmark : option BookmarkNode.t;
  undoExpire : option Z;
  sets : list string;
}.

Definition STORAGE_KEY : string := "bookmarks".
Definition CATEGORY_KEY : string := "bookmark_categories".

(** [StorageService.set(STORAGE_KEY, value)] *)
Definition setBookmarks (value : list BookmarkNode.t) (s : t) : t :=
  mk (Some value) (bookmark_categories s) (lastDeletedBookmark s)
     (undoExpire s) (STORAGE_KEY :: sets s).

(** [chrome.storage.local.set({ bookmark_categories: value })] *)
Definition setCategories (value : list BookmarkCategory.t) (s : t) : t :=
  mk (bookmarks s) (Some value) (lastDeletedBookmark s)
     (undoExpire s) (CATEGORY_KEY :: sets s).

(** [chrome.storage.local.set({ lastDeletedBookmark: bm, undoExpire: expire })] *)
Definition setUndo (bm : BookmarkNode.t) (expire : Z) (s : t) : t :=
  mk (bookmarks s) (bookmark_categories s) (Some bm) (Some expire)
     ("undoExpire" :: "lastDeletedBookmark" :: sets s).

(** [chrome.storage.local.set({ undoExpire: newExpire })] *)
Definition setUndoExpire (expire : Z) (s : t) : t :=
  mk (bookmarks s) (bookmark_categories s) (lastDeletedBookmark s)
     (Some expire) ("undoExpire" :: sets s).

(** [chrome.storage.local.remove(['lastDeletedBookmark', 'undoExpire'])] *)
Definition removeUndo (s : t) : t :=
  mk (bookmarks s) (bookmark_categories s) None None (sets s).
End Storage.

(** ** src/services/bookmarkService.ts *)

Module BookmarkService.

(** [getBookmarks]: the stored array, [[]] for anything else. *)
Definition getBookmarks (s : Storage.t) : list BookmarkNode.t :=
  default [] (Storage.bookmarks s).

(** [addBookmarkOrFolder(node)]. [uuid] is what [crypto.randomUUID()]
    returns, [now1] and [now2] what the two [new Date()] read. *)
Definition addBookmarkOrFolder (uuid : string) (now1 now2 : ISOString)
    (node : NodeDraft.t) (s : Storage.t) : BookmarkNode.t * Storage.t :=
  let bookmarks := getBookmarks s in
  let newNode :=
    BookmarkNode.mk
      uuid
      (Some (NodeDraft.type node))
      (Some (NodeDraft.title node))
      (NodeDraft.url node)
      (NodeDraft.parentId node)
      (NodeDraft.categoryId node)
      (NodeDraft.tags node)
      (Some now1)
      (if decide (NodeDraft.type node = bookmark) then Some now2 else None)
      (if decide (NodeDraft.type node = bookmark) then Some 0%Z else None)
      (NodeDraft.description node) in
  let updatedBookmarks := bookmarks ++ [newNode] in
  (newNode, Storage.setBookmarks updatedBookmarks s).

(** [bookmarks.findIndex(b => b.id === id)] *)
Definition findIndex (id : string) (bookmarks : list BookmarkNode.t)
    : option (nat * BookmarkNode.t) :=
  list_find (λ b, BookmarkNode.id b = id) bookmarks.

(** [{ ...updates, id, lastAccessed: updates.type === 'bookmark' ? now : undefined }] *)
Definition restoredNode (now : ISOString) (id : string) (updates : Partial.t)
    : BookmarkNode.t :=
  BookmarkNode.mk
    id
    (get (Partial.type updates))
    (get (Partial.title updates))
    (get (Partial.url updates))
    (get (Partial.parentId updates))
    (get (Partial.categoryId updates))
    (get (Partial.tags updates))
    (get (Partial.createdAt updates))
    (if decide (get (Partial.type updates) = Some bookmark) then Some now else None)
    (get (Partial.accessCount updates))
    (get (Partial.description updates)).

(** [{ ...bookmarks[index], ...updates,
       lastAccessed: bookmarks[index].type === 'bookmark' ? now : undefined }] *)
Definition updatedNode (now : ISOString) (old : BookmarkNode.t) (updates : Partial.t)
    : BookmarkNode.t :=
  BookmarkNode.mk
    (default (BookmarkNode.id old) (Partial.id updates))
    (spread (BookmarkNode.type old) (Partial.type updates))
    (spread (BookmarkNode.title old) (Partial.title updates))
    (spread (BookmarkNode.url old) (Partial.url updates))
    (spread (BookmarkNode.parentId old) (Partial.parentId updates))
    (spread (BookmarkNode.categoryId old) (Partial.categoryId updates))
    (spread (BookmarkNode.tags old) (Partial.tags updates))
    (spread (BookmarkNode.createdAt old) (Partial.createdAt updates))
    (if decide (BookmarkNode.type old = Some bookmark) then Some now else None)
    (spread (BookmarkNode.accessCount old) (Partial.accessCount updates))
    (spread (BookmarkNode.description old) (Partial.description updates)).

(** [updateBookmarkNode(id, updates)], [now] being what [new Date()] reads. *)
Definition updateBookmarkNode (now : ISOString) (id : string) (updates : Partial.t)
    (s : Storage.t) : BookmarkNode.t * Storage.t :=
  let bookmarks := getBookmarks s in
  match findIndex id bookmarks with
  | None =>
      let restored := restoredNode now id updates in
      let updatedBookmarks := bookmarks ++ [restored] in
      (restored, Storage.setBookmarks updatedBookmarks s)
  | Some (index, old) =>
      let updated := updatedNode now old updates in
      (updated, Storage.setBookmarks (<[index := updated]> bookmarks) s)
  end.

(** One run of the [for (const node of bookmarks)] loop inside the
    [do ... while (found)] of [deleteBookmarkNode]: [found] is set for
    every node whose parent is in [toDelete], whether or not
    [toDelete.add(node.id)] adds anything. *)
Fixpoint scan (bookmarks : list BookmarkNode.t) (toDelete : gset string)
    (found : bool) : gset string * bool :=
  match bookmarks with
  | [] => (toDelete, found)
  | node :: rest =>
      match BookmarkNode.parentId node with
      | Some p =>
          if truthyString (Some p) && bool_decide (p ∈ toDelete)
          then scan rest ({[BookmarkNode.id node]} ∪ toDelete) true
          else scan rest toDelete found
      | None => scan rest toDelete found
      end
  end.

(** [do { found = false; for ... } while (found)], at most [fuel] runs of
    the body; [None] when [found] is still set after them. *)
Fixpoint doWhile (fuel : nat) (bookmarks : list BookmarkNode.t)
    (toDelete : gset string) : option (gset string) :=
  match fuel with
  | O => None
  | S fuel' =>
      let '(toDelete', found) := scan bookmarks toDelete false in
      if found then doWhile fuel' bookmarks toDelete' else Some toDelete'
  end.

(** [deleteBookmarkNode(id)]; [None] when the loop has not ended within
    [fuel] runs. *)
Definition deleteBookmarkNode (fuel : nat) (id : string) (s : Storage.t)
    : option (bool * Storage.t) :=
  let bookmarks := getBookmarks s in
  match doWhile fuel bookmarks {[id]} with
  | None => None
  | Some toDelete =>
      let updatedBookmarks :=
        filter (λ b, BookmarkNode.id b ∉ toDelete) bookmarks in
      let changed := negb (length updatedBookmarks =? length bookmarks) in
      if negb changed then Some (false, s)
      else Some (true, Storage.setBookmarks updatedBookmarks s)
  end.

(** [chrome.storage.local.get('bookmark_categories')] with the default
    [[]] of the destructuring. *)
Definition getCategories (s : Storage.t) : list BookmarkCategory.t :=
  default [] (Storage.bookmark_categories s).

(** [deleteCategory(id)] *)
Definition deleteCategory (id : string) (s : Storage.t) : Storage.t :=
  let bookmark_categories := getCategories s in
  let updatedCategories :=
    filter (λ cat, BookmarkCategory.id cat ≠ id) bookmark_categories in
  Storage.setCategories updatedCategories s.

(** [addCategory(category)]: [{ id, ...category }] goes to the end of the
    stored categories; [uuid] is what [crypto.randomUUID()] returns. *)
Definition addCategory (uuid : string) (category : CategoryDraft.t) (s : Storage.t)
    : string * Storage.t :=
  let newCategory :=
    BookmarkCategory.mk uuid (CategoryDraft.name category)
      (CategoryDraft.color category) (CategoryDraft.icon category) in
  let updatedCategories := getCategories s ++ [newCategory] in
  (uuid, Storage.setCategories updatedCategories s).

(** [categories.findIndex(c => c.id === id)] *)
Definition findCategoryIndex (id : string) (categories : list BookmarkCategory.t)
    : option (nat * BookmarkCategory.t) :=
  list_find (λ c, BookmarkCategory.id c = id) categories.

(** [{ ...categories[index], ...updates }] *)
Definition updatedCategory (old : BookmarkCategory.t) (updates : PartialCategory.t)
    : BookmarkCategory.t :=
  BookmarkCategory.mk
    (default (BookmarkCategory.id old) (PartialCategory.id updates))
    (default (BookmarkCategory.name old) (PartialCategory.name updates))
    (default (BookmarkCategory.color old) (PartialCategory.color updates))
    (default (BookmarkCategory.icon old) (PartialCategory.icon updates)).

(** [updateCategory(id, updates)]: [None] is the [null] returned for an id
    that is not there. *)
Definition updateCategory (id : string) (updates : PartialCategory.t) (s : Storage.t)
    : option BookmarkCategory.t * Storage.t :=
  let categories := getCategories s in
  match findCategoryIndex id categories with
  | None => (None, s)
  | Some (index, old) =>
      let updated := updatedCategory old updates in
      (Some updated, Storage.setCategories (<[index := updated]> categories) s)
  end.

(** [{ ...bookmark, categoryId }] *)
Definition withCategory (categoryId : option string) (b : BookmarkNode.t)
    : BookmarkNode.t :=
  BookmarkNode.mk (BookmarkNode.id b) (BookmarkNode.type b) (BookmarkNode.title b)
    (BookmarkNode.url b) (BookmarkNode.parentId b) categoryId (BookmarkNode.tags b)
    (BookmarkNode.createdAt b) (BookmarkNode.lastAccessed b)
    (BookmarkNode.accessCount b) (BookmarkNode.description b).

(** [updateBookmarkCategory(bookmarkId, categoryId)], [None] being the
    [null] category. The list is read with the default [[]] of the
    destructuring, which covers a key with nothing under it. *)
Definition updateBookmarkCategory (bookmarkId : string) (categoryId : option string)
    (s : Storage.t) : Storage.t :=
  let bookmarks := getBookmarks s in
  let updatedBookmarks :=
    (λ bookmark,
       if decide (BookmarkNode.id bookmark = bookmarkId)
       then withCategory categoryId bookmark
       else bookmark) <$> bookmarks in
  Storage.setBookmarks updatedBookmarks s.

End BookmarkService.

(** ** The useBookmarks hook *)

Module UseBookmarks.

(** The [bookmarks] state of the hook with the storage behind the service;
    [loading] and [error] are left out. *)
Record t : Type := mk {
  bookmarks : list BookmarkNode.t;
  storage : Storage.t;
}.

(** [fetchBookmarks]: [Array.isArray(data.bookmarks) ? data.bookmarks : []] *)
Definition fetchBookmarks (st : t) : t :=
  mk (default [] (Storage.bookmarks (storage st))) (storage st).

(** [addBookmarkOrFolder(node)] *)
Definition addBookmarkOrFolder (uuid : string) (now1 now2 : ISOString)
    (node : NodeDraft.t) (st : t) : BookmarkNode.t * t :=
  let '(newNode, s') :=
    BookmarkService.addBookmarkOrFolder uuid now1 now2 node (storage st) in
  (newNode, mk (bookmarks st ++ [newNode]) s').

(** [updateBookmarkNode(id, updates)]: the service never returns [null], so
    the state is always set. *)
Definition updateBookmarkNode (now : ISOString) (id : string) (updates : Partial.t)
    (st : t) : BookmarkNode.t * t :=
  let '(updated, s') :=
    BookmarkService.updateBookmarkNode now id updates (storage st) in
  let prev := bookmarks st in
  let exists_ := bool_decide (Exists (λ b, BookmarkNode.id b = id) prev) in
  (updated,
   mk (if exists_
       then (λ b, if decide (BookmarkNode.id b = id) then updated else b) <$> prev
       else prev ++ [updated])
      s').

(** [deleteBookmarkNode(id)]; [None] when the service has not returned
    within [fuel] runs of its loop. *)
Definition deleteBookmarkNode (fuel : nat) (id : string) (st : t) : option (bool * t) :=
  match BookmarkService.deleteBookmarkNode fuel id (storage st) with
  | None => None
  | Some (success, s') =>
      Some (success,
            mk (if success
                then filter (λ b, BookmarkNode.id b ≠ id
                                  ∧ BookmarkNode.parentId b ≠ Some id) (bookmarks st)
                else bookmarks st)
               s')
  end.

End UseBookmarks.

(** ** src/hooks/useCategories.ts *)

Module UseCategories.

(** The [categories] state of the hook with the storage behind the
    service; [loading] and [error] are left out. *)
Record t : Type := mk {
  categories : list BookmarkCategory.t;
  storage : Storage.t;
}.

(** [refresh]: [setCategories(await BookmarkService.getCategories())] *)
Definition refresh (st : t) : t :=
  mk (BookmarkService.getCategories (storage st)) (storage st).

(** [addCategory(category)]:
    [setCategories(prev => [...prev, { ...category, id: newCategory }])] *)
Definition addCategory (uuid : string) (category : CategoryDraft.t) (st : t)
    : bool * t :=
  let '(newCategory, s') := BookmarkService.addCategory uuid category (storage st) in
  (true,
   mk (categories st
       ++ [BookmarkCategory.mk newCategory (CategoryDraft.name category)
             (CategoryDraft.color category) (CategoryDraft.icon category)])
      s').

(** [deleteCategory(id)] *)
Definition deleteCategory (id : string) (st : t) : bool * t :=
  let s' := BookmarkService.deleteCategory id (storage st) in
  (true, mk (filter (λ cat, BookmarkCategory.id cat ≠ id) (categories st)) s').

End UseCategories.

(** ** src/components/BookmarkTable/index.tsx *)

Module BookmarkTable.

(** [bm.url || '']: the key a node is filed under. An empty [url] is
    falsy and gives [''] as well. *)
Definition urlKey (bm : BookmarkNode.t) : string :=
  default "" (orElse (BookmarkNode.url bm) (Some "")).

(** [Map<string, string[]>]; a [Map] iterates in insertion order. *)
Definition UrlMap : Type := list (string * list string).

(** [if (!urlMap.has(key)) urlMap.set(key, []); urlMap.get(key)!.push(id)] *)
Fixpoint pushId (key id : string) (urlMap : UrlMap) : UrlMap :=
  match urlMap with
  | [] => [(key, [id])]
  | (k, ids) :: rest =>
      if decide (k = key) then (k, ids ++ [id]) :: rest
      else (k, ids) :: pushId key id rest
  end.

(** [urlMap.get(key)] *)
Fixpoint mapGet (key : string) (urlMap : UrlMap) : option (list string) :=
  match urlMap with
  | [] => None
  | (k, ids) :: rest => if decide (k = key) then Some ids else mapGet key rest
  end.

Definition buildUrlMap (safeBookmarks : list BookmarkNode.t) : UrlMap :=
  foldl (λ urlMap bm, pushId (urlKey bm) (BookmarkNode.id bm) urlMap) [] safeBookmarks.

Module DuplicateGroup.
Record t : Type := mk { url : string; ids : list string }.
End DuplicateGroup.

(** [ids.length > 1] *)
Definition isDuplicate (entry : string * list string) : bool :=
  (1 <? length entry.2)%nat.

(** [findDuplicates]: what it passes to [setDuplicates] and to
    [setDuplicateGroups]. *)
Definition findDuplicates (safeBookmarks : list BookmarkNode.t)
    : list string * list DuplicateGroup.t :=
  let urlMap := buildUrlMap safeBookmarks in
  let dups := concat (snd <$> filter (λ e, isDuplicate e = true) urlMap) in
  let groups :=
    (λ e, DuplicateGroup.mk e.1 e.2) <$> filter (λ e, isDuplicate e = true) urlMap in
  (dups, groups).

(** [Array.from(new Set(xs))]: the first occurrence of each element, in order. *)
Fixpoint arrayFromSet (xs : list string) : list string :=
  match xs with
  | [] => []
  | x :: rest => x :: filter (λ y, y ≠ x) (arrayFromSet rest)
  end.

(** [xs.sort((a, b) => b.length - a.length)]: by decreasing [length], and
    stable. *)
Fixpoint insertByLength (x : string) (sorted : list string) : list string :=
  match sorted with
  | [] => [x]
  | y :: rest =>
      if (jsLength x <? jsLength y)%nat
      then y :: insertByLength x rest
      else x :: y :: rest
  end.

Definition sortByLengthDesc (xs : list string) : list string :=
  foldr insertByLength [] xs.

(** [bookmarksInGroup.flatMap(b => b.tags || [])] *)
Definition allTags (bookmarksInGroup : list BookmarkNode.t) : list string :=
  bookmarksInGroup ≫= (λ b, default [] (BookmarkNode.tags b)).

Definition withTags (tags : list string) (p : Partial.t) : Partial.t :=
  Partial.mk (Partial.id p) (Partial.type p) (Partial.title p) (Partial.url p)
    (Partial.parentId p) (Partial.categoryId p) (present (Some tags))
    (Partial.createdAt p) (Partial.lastAccessed p) (Partial.accessCount p)
    (Partial.description p).

Definition withCategoryId (categoryId : option string) (p : Partial.t) : Partial.t :=
  Partial.mk (Partial.id p) (Partial.type p) (Partial.title p) (Partial.url p)
    (Partial.parentId p) (present categoryId) (Partial.tags p)
    (Partial.createdAt p) (Partial.lastAccessed p) (Partial.accessCount p)
    (Partial.description p).

Definition withDescription (description : option string) (p : Partial.t) : Partial.t :=
  Partial.mk (Partial.id p) (Partial.type p) (Partial.title p) (Partial.url p)
    (Partial.parentId p) (Partial.categoryId p) (Partial.tags p)
    (Partial.createdAt p) (Partial.lastAccessed p) (Partial.accessCount p)
    (present description).

(** The names a plain object inherits from [Object.prototype]. Reading
    one of them from an object that has no own property of that name gives
    a function (for [__proto__], the prototype itself): a truthy value that
    is no string. *)
Definition objectPrototypeKeys : list string :=
  ["constructor"; "hasOwnProperty"; "isPrototypeOf"; "propertyIsEnumerable";
   "toLocaleString"; "toString"; "valueOf"; "__proto__";
   "__defineGetter__"; "__defineSetter__"; "__lookupGetter__"; "__lookupSetter__"].

(** What [mergeSelections[group.url] || group.ids[0]] is when it is not
    [undefined]: an id, or the value inherited under the url, which is
    [===] to no id. *)
Inductive KeepId : Type :=
  | keepId (id : string)
  | inheritedValue (key : string).

Global Instance KeepId_eq_dec : EqDecision KeepId.
Proof. solve_decision. Defined.

(** [mergeSelections[url]]. [mergeSelections] is a plain object, [{}] at
    first, to which [handleSelectToKeep] adds ids as own properties, held
    here in a map: the own property when there is one, else what
    [Object.prototype] has under that name, else [undefined]. *)
Definition selectionFor (mergeSelections : gmap string string) (url : string)
    : option KeepId :=
  match mergeSelections !! url with
  | Some id => Some (keepId id)
  | None =>
      if bool_decide (url ∈ objectPrototypeKeys) then Some (inheritedValue url)
      else None
  end.

(** What one turn of the loop of [handleMerge] works out for a group. *)
Module Merge.
Record t : Type := mk {
  toKeepId : KeepId;
  toDelete : list string;
  merged : Partial.t;
}.
End Merge.

(** What one turn of the loop leaves: the ids to delete so far and the
    store. [strayNode] is the turn whose [toKeepId] is no string:
    [updateBookmarkNode] finds no node of that id and appends
    [{ ...merged, id: toKeepId, lastAccessed: undefined }] to the stored
    list, a node without a string for id, for which the stored list of this
    model has no room; [s] is then the store as the turn found it and
    [merged] the fields of the node appended to it. *)
Module MergeTurn.
Inductive t : Type :=
  | stored (allToDelete : list string) (s : Storage.t)
  | strayNode (allToDelete : list string) (merged : Partial.t) (s : Storage.t).
End MergeTurn.

(** [group.ids.map(id => safeBookmarks.find(b => b.id === id)).filter(b => !!b)] *)
Definition bookmarksInGroup (safeBookmarks : list BookmarkNode.t)
    (group : DuplicateGroup.t) : list BookmarkNode.t :=
  omap (λ id, findById id safeBookmarks) (DuplicateGroup.ids group).

(** [mergeSelections[group.url] || group.ids[0]]; [None] is [undefined],
    which it is for a group without ids only. *)
Definition toKeepIdOf (mergeSelections : gmap string string)
    (group : DuplicateGroup.t) : option KeepId :=
  match selectionFor mergeSelections (DuplicateGroup.url group) with
  | Some (keepId id) =>
      if truthyString (Some id) then Some (keepId id)
      else keepId <$> head (DuplicateGroup.ids group)
  | Some (inheritedValue key) => Some (inheritedValue key)
  | None => keepId <$> head (DuplicateGroup.ids group)
  end.

(** [bookmarksInGroup.find(b => b.id === toKeepId)] *)
Definition findKept (toKeepId : KeepId) (inGroup : list BookmarkNode.t)
    : option BookmarkNode.t :=
  match toKeepId with
  | keepId id => findById id inGroup
  | inheritedValue _ => None
  end.

(** The body of [for (const group of duplicateGroups)] up to the call of
    [onUpdate]; [None] is the [continue] of a group with fewer than two
    members found. *)
Definition mergeGroup (mergeTags mergeCategories mergeDescriptions : bool)
    (safeBookmarks : list BookmarkNode.t) (mergeSelections : gmap string string)
    (group : DuplicateGroup.t) : option Merge.t :=
  match toKeepIdOf mergeSelections group with
  | None => None (* no first id: the group is empty and is skipped below *)
  | Some toKeepId =>
      let toDelete :=
        filter (λ id, keepId id ≠ toKeepId) (DuplicateGroup.ids group) in
      let inGroup := bookmarksInGroup safeBookmarks group in
      if (length inGroup <? 2)%nat then None
      else
        let merged0 :=
          match findKept toKeepId inGroup with
          | Some kept => Partial.ofNode kept
          | None => Partial.empty
          end in
        let merged1 :=
          if mergeTags then withTags (arrayFromSet (allTags inGroup)) merged0
          else merged0 in
        let merged2 :=
          if mergeCategories then
            withCategoryId
              (orElse
                 (mjoin (snd <$> list_find (λ c, truthyString c = true)
                                   (BookmarkNode.categoryId <$> inGroup)))
                 (get (Partial.categoryId merged1)))
              merged1
          else merged1 in
        let merged3 :=
          if mergeDescriptions then
            withDescription
              (orElse
                 (head (sortByLengthDesc
                          ((λ b, default "" (orElse (BookmarkNode.description b) (Some "")))
                             <$> inGroup)))
                 (get (Partial.description merged2)))
              merged2
          else merged2 in
        Some (Merge.mk toKeepId toDelete merged3)
  end.

(** One turn of the loop with its [await onUpdate(toKeepId, merged)], which
    the popup passes on to [updateBookmarkNode]; [acc] holds the running
    list [allToDelete] and the store. *)
Definition mergeStep (mergeTags mergeCategories mergeDescriptions : bool)
    (safeBookmarks : list BookmarkNode.t) (mergeSelections : gmap string string)
    (now : ISOString) (group : DuplicateGroup.t)
    (acc : list string * Storage.t) : MergeTurn.t :=
  match mergeGroup mergeTags mergeCategories mergeDescriptions
          safeBookmarks mergeSelections group with
  | None => MergeTurn.stored acc.1 acc.2
  | Some m =>
      match Merge.toKeepId m with
      | keepId id =>
          let '(_, s') :=
            BookmarkService.updateBookmarkNode now id (Merge.merged m) acc.2 in
          MergeTurn.stored (acc.1 ++ Merge.toDelete m) s'
      | inheritedValue _ =>
          MergeTurn.strayNode (acc.1 ++ Merge.toDelete m) (Merge.merged m) acc.2
      end
  end.

(** *** Selection *)

(** [handleSelectOne]:
    [prev.includes(id) ? prev.filter(i => i !== id) : [...prev, id]] *)
Definition handleSelectOne (id : string) (prev : list string) : list string :=
  if bool_decide (id ∈ prev) then filter (λ i, i ≠ id) prev else prev ++ [id].

(** [paginated.every(bm => selectedIds.includes(bm.id))] *)
Definition allOnPageSelected (paginated : list BookmarkNode.t)
    (selectedIds : list string) : bool :=
  bool_decide (Forall (λ bm, BookmarkNode.id bm ∈ selectedIds) paginated).

(** [handleSelectAll] *)
Definition handleSelectAll (paginated : list BookmarkNode.t)
    (selectedIds : list string) : list string :=
  if allOnPageSelected paginated selectedIds then
    filter (λ id, ¬ Exists (λ bm, BookmarkNode.id bm = id) paginated) selectedIds
  else
    arrayFromSet (selectedIds ++ (BookmarkNode.id <$> paginated)).

(** *** Columns *)

Definition defaultColumnOrder : list string :=
  ["title"; "category"; "url"; "tags"; "description"; "createdAt";
   "lastAccessed"; "accessCount"; "actions"].

(** The effect that loads [columnOrder]; [stored] is [data.columnOrder]
    when it is an array. *)
Definition loadColumnOrder (stored : option (list string)) : list string :=
  match stored with
  | Some (c :: cs) =>
      let loaded := filter (λ col, col ∈ defaultColumnOrder) (c :: cs) in
      let missing := filter (λ col, col ∉ loaded) defaultColumnOrder in
      loaded ++ missing
  | _ => defaultColumnOrder
  end.

(** [columnOrder.indexOf(col)], [None] for -1. *)
Definition indexOf (col : string) (columnOrder : list string) : option nat :=
  fst <$> list_find (λ c, c = col) columnOrder.

(** [xs.splice(i, 1)] and [xs.splice(i, 0, x)], as they leave [xs]. *)
Definition spliceOut {A} (i : nat) (xs : list A) : list A :=
  take i xs ++ drop (S i) xs.

Definition spliceIn {A} (i : nat) (x : A) (xs : list A) : list A :=
  take i xs ++ x :: drop i xs.

(** [handleDrop(col)]: the order it passes to [setColumnOrder], or the
    order as it is; [dragCol] is [dragCol.current]. *)
Definition handleDrop (dragCol : option string) (col : string)
    (columnOrder : list string) : list string :=
  match dragCol with
  | Some dragged =>
      if truthyString (Some dragged) && bool_decide (dragged ≠ col) then
        match indexOf dragged columnOrder, indexOf col columnOrder with
        | Some fromIdx, Some toIdx =>
            spliceIn toIdx dragged (spliceOut fromIdx columnOrder)
        | _, _ => columnOrder
        end
      else columnOrder
  | None => columnOrder
  end.

(** [visibleColumns]; [columnVisibility[col]] of a missing key is falsy,
    [col] being one of the column names of [defaultColumnOrder], none of
    which an object has a property for unless it was set. *)
Definition visibleColumns (columnVisibility : gmap string bool)
    (columnOrder : list string) : list string :=
  filter (λ col, col ≠ "actions"
                 ∧ (col = "title" ∨ default false (columnVisibility !! col) = true))
    columnOrder.

Definition columnsToRender (columnVisibility : gmap string bool)
    (columnOrder : list string) : list string :=
  visibleColumns columnVisibility columnOrder ++ ["actions"].

(** *** Pages *)

Definition ITEMS_PER_PAGE : nat := 10.

(** [Math.ceil(sorted.length / ITEMS_PER_PAGE) || 1] *)
Definition totalPages {A} (sorted : list A) : nat :=
  let pages := (length sorted + (ITEMS_PER_PAGE - 1)) / ITEMS_PER_PAGE in
  if (pages =? 0)%nat then 1 else pages.

(** [xs.slice(start, stop)] for indices that are not negative. *)
Definition slice {A} (start stop : nat) (xs : list A) : list A :=
  take (stop - start) (drop start xs).

(** [paginated], for a [currentPage] of at least 1, which the page
    buttons keep it to. *)
Definition paginated {A} (sorted : list A) (currentPage : nat) : list A :=
  slice ((currentPage - 1) * ITEMS_PER_PAGE) (currentPage * ITEMS_PER_PAGE) sorted.

(** [p => Math.max(1, p - 1)] and [p => Math.min(totalPages, p + 1)] *)
Definition prevPage (p : nat) : nat := Nat.max 1 (p - 1).
Definition nextPage (totalPages p : nat) : nat := Nat.min totalPages (p + 1).

(** *** Bulk actions *)

Definition withParentId (parentId : option string) (p : Partial.t) : Partial.t :=
  Partial.mk (Partial.id p) (Partial.type p) (Partial.title p) (Partial.url p)
    (present parentId) (Partial.categoryId p) (Partial.tags p)
    (Partial.createdAt p) (Partial.lastAccessed p) (Partial.accessCount p)
    (Partial.description p).

(** A [for (const id of selectedIds)] loop whose turn updates the store;
    [clock i] is what [new Date()] reads in turn [i]. *)
Fixpoint forSelected (turn : ISOString → string → Storage.t → Storage.t)
    (clock : nat → ISOString) (i : nat) (selectedIds : list string)
    (s : Storage.t) : Storage.t :=
  match selectedIds with
  | [] => s
  | id :: rest => forSelected turn clock (S i) rest (turn (clock i) id s)
  end.

(** [handleBulkAssignCategory]: [await onUpdate(id, { categoryId: bulkCategoryId })] *)
Definition handleBulkAssignCategory (bulkCategoryId : string)
    (clock : nat → ISOString) (selectedIds : list string) (s : Storage.t) : Storage.t :=
  forSelected
    (λ now id s,
       (BookmarkService.updateBookmarkNode now id
          (withCategoryId (Some bulkCategoryId) Partial.empty) s).2)
    clock 0 selectedIds s.

(** [handleBulkMove]: [await onUpdate(id, { parentId: bulkMoveFolderId })] *)
Definition handleBulkMove (bulkMoveFolderId : string)
    (clock : nat → ISOString) (selectedIds : list string) (s : Storage.t) : Storage.t :=
  forSelected
    (λ now id s,
       (BookmarkService.updateBookmarkNode now id
          (withParentId (Some bulkMoveFolderId) Partial.empty) s).2)
    clock 0 selectedIds s.

(** The turn shared by [handleBulkAddTags] and [handleBulkRemoveTags]: an
    id the table does not show is passed over, the others get
    [{ tags: newTags }]. *)
Definition bulkTagsTurn (newTags : list string → list string)
    (safeBookmarks : list BookmarkNode.t)
    (now : ISOString) (id : string) (s : Storage.t) : Storage.t :=
  match findById id safeBookmarks with
  | None => s
  | Some bm =>
      (BookmarkService.updateBookmarkNode now id
         (withTags (newTags (default [] (BookmarkNode.tags bm))) Partial.empty) s).2
  end.

(** [handleBulkAddTags]; [tagsToAdd] is the list parsed from [bulkTags]:
    [Array.from(new Set([...(bm.tags || []), ...tagsToAdd]))] *)
Definition handleBulkAddTags (tagsToAdd : list string)
    (safeBookmarks : list BookmarkNode.t)
    (clock : nat → ISOString) (selectedIds : list string) (s : Storage.t) : Storage.t :=
  forSelected (bulkTagsTurn (λ tags, arrayFromSet (tags ++ tagsToAdd)) safeBookmarks)
    clock 0 selectedIds s.

(** [handleBulkRemoveTags]:
    [(bm.tags || []).filter(tag => !tagsToRemove.includes(tag))] *)
Definition handleBulkRemoveTags (tagsToRemove : list string)
    (safeBookmarks : list BookmarkNode.t)
    (clock : nat → ISOString) (selectedIds : list string) (s : Storage.t) : Storage.t :=
  forSelected (bulkTagsTurn (λ tags, filter (λ tag, tag ∉ tagsToRemove) tags) safeBookmarks)
    clock 0 selectedIds s.

End BookmarkTable.

(** ** The popup component: the single-delete undo buffer *)

Module Popup.

(** The pieces of component state the undo toast uses, with the storage
    the handlers write to. An event is taken once React has rendered the
    state the event before it left. *)
Record t : Type := mk {
  storage : Storage.t;
  lastDeleted : option BookmarkNode.t;
  undoExpire : option Z;
  undoSeconds : Z;
  undoHovered : bool;
  undoPausedAt : option Z;
}.

(** [Math.ceil(ms / 1000)] on an integer number of milliseconds. *)
Definition ceilSeconds (ms : Z) : Z := (- ((- ms) / 1000))%Z.

(** The state of a popup that has just been opened over [s]. *)
Definition initial (s : Storage.t) : t := mk s None None 5%Z false None.

(** The effect run on mount, "check for pending undo in storage";
    [now] is what [Date.now()] reads. *)
Definition rehydrate (now : Z) (st : t) : t :=
  match Storage.lastDeletedBookmark (storage st) with
  | Some bm =>
      if truthyNumber (Storage.undoExpire (storage st)) then
        let expire := default 0%Z (Storage.undoExpire (storage st)) in
        if (now <? expire)%Z then
          mk (storage st) (Some bm) (Some expire) (ceilSeconds (expire - now))
             (undoHovered st) (undoPausedAt st)
        else
          mk (Storage.removeUndo (storage st)) (lastDeleted st) (undoExpire st)
             (undoSeconds st) (undoHovered st) (undoPausedAt st)
      else st
  | None => st
  end.

(** [lastDeleted && !undoHovered && undoExpire]: whether the countdown
    effect has an interval running. *)
Definition countdownRunning (st : t) : bool :=
  bool_decide (is_Some (lastDeleted st)) && negb (undoHovered st)
  && truthyNumber (undoExpire st).

(** One firing of the 200 ms interval of the countdown effect. Nothing
    fires when the effect has set no interval. *)
Definition countdownTick (now : Z) (st : t) : t :=
  if countdownRunning st then
    let secondsLeft := ceilSeconds (default 0%Z (undoExpire st) - now) in
    if (secondsLeft <=? 0)%Z then
      mk (Storage.removeUndo (storage st)) None None secondsLeft
         (undoHovered st) (undoPausedAt st)
    else
      mk (storage st) (lastDeleted st) (undoExpire st) secondsLeft
         (undoHovered st) (undoPausedAt st)
  else st.

(** [handleUndoMouseEnter] *)
Definition handleUndoMouseEnter (now : Z) (st : t) : t :=
  mk (storage st) (lastDeleted st) (undoExpire st) (undoSeconds st) true
     (if truthyNumber (undoExpire st)
      then Some (default 0%Z (undoExpire st) - now)%Z
      else undoPausedAt st).

(** [handleUndoMouseLeave] *)
Definition handleUndoMouseLeave (now : Z) (st : t) : t :=
  if truthyNumber (undoPausedAt st) && bool_decide (is_Some (lastDeleted st)) then
    let paused := default 0%Z (undoPausedAt st) in
    let newExpire := (now + paused)%Z in
    mk (Storage.setUndoExpire newExpire (storage st)) (lastDeleted st)
       (Some newExpire) (ceilSeconds paused) false None
  else
    mk (storage st) (lastDeleted st) (undoExpire st) (undoSeconds st) false
       (undoPausedAt st).

(** [handleDeleteWithUndo(id, silent)]. [bookmarks] is the list the
    [useBookmarks] hook holds, [confirmed] the answer [window.confirm] would
    give, [now] what [Date.now()] reads; [None] when [deleteBookmarkNode]
    has not returned within [fuel] runs of its loop. The batch buffer, which
    the handler clears first, is outside the model. *)
Definition handleDeleteWithUndo (fuel : nat) (now : Z)
    (bookmarks : list BookmarkNode.t) (id : string) (silent confirmed : bool)
    (st : t) : option t :=
  match findById id bookmarks with
  | None => Some st
  | Some bm =>
      if negb silent && negb confirmed then Some st
      else
        let expire := (now + 5000)%Z in
        let s1 := Storage.setUndo bm expire (storage st) in
        match BookmarkService.deleteBookmarkNode fuel id s1 with
        | None => None
        | Some (_, s2) =>
            Some (mk s2 (Some bm) (Some expire) 5%Z (undoHovered st) (undoPausedAt st))
        end
  end.

(** [handleUndo]: the buffered node goes back through
    [updateBookmarkNode(lastDeleted.id, lastDeleted)]. *)
Definition handleUndo (now : ISOString) (st : t) : t :=
  match lastDeleted st with
  | None => st
  | Some node =>
      let '(_, s') :=
        BookmarkService.updateBookmarkNode now (BookmarkNode.id node)
          (Partial.ofNode node) (storage st) in
      mk (Storage.removeUndo s') None None (undoSeconds st)
         (undoHovered st) (undoPausedAt st)
  end.

End Popup.

(** ** The popup component: the batch undo buffer *)

Module PopupBatch.

(** The single-delete pieces with those of the batch buffer. [undoTimeout]
    is the time at which the armed [setTimeout] is due, [None] when none is
    armed. *)
Record t : Type := mk {
  popup : Popup.t;
  undoBatch : option (list BookmarkNode.t * Z);
  undoBatchSeconds : Z;
  undoTimeout : option Z;
}.

Definition UNDO_SECONDS : Z := 5.

Definition initial (s : Storage.t) : t := mk (Popup.initial s) None 5%Z None.

(** The single-delete state emptied, with its persisted record. *)
Definition clearSingle (p : Popup.t) : Popup.t :=
  Popup.mk (Storage.removeUndo (Popup.storage p)) None None (Popup.undoSeconds p)
    (Popup.undoHovered p) (Popup.undoPausedAt p).

(** [handleBatchDeleteWithUndo(bookmarks)] *)
Definition handleBatchDeleteWithUndo (now : Z) (bookmarks : list BookmarkNode.t)
    (st : t) : t :=
  let expire := (now + UNDO_SECONDS * 1000)%Z in
  mk (clearSingle (popup st)) (Some (bookmarks, expire)) UNDO_SECONDS
     (Some (now + UNDO_SECONDS * 1000)%Z).

(** The callback of the [setTimeout] armed by [handleBatchDeleteWithUndo]. *)
Definition timeoutFires (st : t) : t :=
  match undoTimeout st with
  | Some _ => mk (popup st) None (undoBatchSeconds st) None
  | None => st
  end.

(** One firing of the 200 ms interval of the batch countdown. *)
Definition batchTick (now : Z) (st : t) : t :=
  match undoBatch st with
  | Some (_, expire) =>
      let secondsLeft := Popup.ceilSeconds (expire - now) in
      if (secondsLeft <=? 0)%Z then mk (popup st) None secondsLeft None
      else mk (popup st) (undoBatch st) secondsLeft (undoTimeout st)
  | None => st
  end.

(** The [for (const bm of undoBatch.bookmarks)] loop of [handleUndoBatch]:
    [await updateBookmarkNode(bm.id, bm)], turn [i] reading [clock i]. *)
Fixpoint restoreAll (clock : nat → ISOString) (i : nat)
    (bookmarks : list BookmarkNode.t) (s : Storage.t) : Storage.t :=
  match bookmarks with
  | [] => s
  | bm :: rest =>
      restoreAll clock (S i) rest
        (BookmarkService.updateBookmarkNode (clock i) (BookmarkNode.id bm)
           (Partial.ofNode bm) s).2
  end.

(** [handleUndoBatch] *)
Definition handleUndoBatch (clock : nat → ISOString) (st : t) : t :=
  match undoBatch st with
  | Some (bookmarks, _) =>
      let p := popup st in
      mk (Popup.mk (restoreAll clock 0 bookmarks (Popup.storage p))
            (Popup.lastDeleted p) (Popup.undoExpire p) (Popup.undoSeconds p)
            (Popup.undoHovered p) (Popup.undoPausedAt p))
         None (undoBatchSeconds st) None
  | None => st
  end.

(** [handleDeleteWithUndo(id, silent)] with the batch buffer it clears
    once past its two early returns. *)
Definition handleDeleteWithUndo (fuel : nat) (now : Z)
    (bookmarks : list BookmarkNode.t) (id : string) (silent confirmed : bool)
    (st : t) : option t :=
  match findById id bookmarks with
  | None => Some st
  | Some _ =>
      if negb silent && negb confirmed then Some st
      else
        match Popup.handleDeleteWithUndo fuel now bookmarks id silent confirmed
                (popup st) with
        | None => None
        | Some p => Some (mk p None (undoBatchSeconds st) None)
        end
  end.

(** The single-delete handlers, which do not touch the batch buffer. *)
Definition onPopup (f : Popup.t → Popup.t) (st : t) : t :=
  mk (f (popup st)) (undoBatch st) (undoBatchSeconds st) (undoTimeout st).

(** The repository calls the popup hands to the table and the tree
    ([onUpdate], [onDuplicate], [onRenameFolder], [onMoveNode],
    [onDeleteFolder]): they work on the store alone. *)
Definition onStorage (s' : Storage.t) (st : t) : t :=
  onPopup (λ p, Popup.mk s' (Popup.lastDeleted p) (Popup.undoExpire p)
                  (Popup.undoSeconds p) (Popup.undoHovered p) (Popup.undoPausedAt p))
    st.

End PopupBatch.

(** ** The table's batch delete, over the popup's handlers *)

Module BookmarkTableBatch.

(** The [for (const id of ids)] loop of the table's
    [handleBatchDeleteWithUndo]: [await onDelete(id, true)], [onDelete] being
    the popup's [handleDeleteWithUndo] of the render the table got it from,
    so that every turn looks [id] up in the same [bookmarks]; turn [i] reads
    [clock i]. *)
Fixpoint deleteEach (fuel : nat) (clock : nat → Z) (i : nat)
    (bookmarks : list BookmarkNode.t) (ids : list string) (st : PopupBatch.t)
    : option PopupBatch.t :=
  match ids with
  | [] => Some st
  | id :: rest =>
      match PopupBatch.handleDeleteWithUndo fuel (clock i) bookmarks id true false st with
      | None => None
      | Some st' => deleteEach fuel clock (S i) bookmarks rest st'
      end
  end.

(** [handleBatchDeleteWithUndo(ids)] of the table: [safeBookmarks] is the
    list the table shows, [bookmarks] the list of the popup's hook, [now]
    what [Date.now()] reads in the popup's [handleBatchDeleteWithUndo]. *)
Definition handleBatchDeleteWithUndo (fuel : nat) (clock : nat → Z) (now : Z)
    (safeBookmarks bookmarks : list BookmarkNode.t) (ids : list string)
    (st : PopupBatch.t) : option PopupBatch.t :=
  let toDelete := filter (λ b, BookmarkNode.id b ∈ ids) safeBookmarks in
  match deleteEach fuel clock 0 bookmarks ids st with
  | None => None
  | Some st' => Some (PopupBatch.handleBatchDeleteWithUndo now toDelete st')
  end.

End BookmarkTableBatch.


(** ** Sample data: the examples of the specification *)

Module Sample.

Definition emptyStorage : Storage.t := Storage.mk None None None None [].

Definition storageOf (bookmarks : list BookmarkNode.t) : Storage.t :=
  Storage.mk (Some bookmarks) None None None [].

Definition folderNode (id : string) (parentId : option string) : BookmarkNode.t :=
  BookmarkNode.mk id (Some folder) (Some id) None parentId None None
    (Some 1000%Z) None None None.

Definition bookmarkNode (id url : string) (parentId : option string)
    (tags : list string) : BookmarkNode.t :=
  BookmarkNode.mk id (Some bookmark) (Some id) (Some url) parentId None (Some tags)
    (Some 1000%Z) (Some 1000%Z) (Some 0%Z) None.

(** root → FolderA → FolderB → BookmarkX, and BookmarkY under the root. *)
Definition cascadeForest : list BookmarkNode.t :=
  [ folderNode "FolderA" None;
    folderNode "FolderB" (Some "FolderA");
    bookmarkNode "BookmarkX" "https://x.example" (Some "FolderB") [];
    bookmarkNode "BookmarkY" "https://y.example" None [] ].

(** A bookmark whose folder is not in the list. *)
Definition orphanForest : list BookmarkNode.t :=
  [ bookmarkNode "BookmarkX" "https://x.example" (Some "ghost") [] ].

End Sample.

(** ** Vocabulary of the properties *)

(** A node of the list whose parent is in the set: what the condition
    [node.parentId && toDelete.has(node.parentId)] looks for. *)
Definition hasChildIn (bookmarks : list BookmarkNode.t) (toDelete : gset string) : Prop :=
  ∃ node p, node ∈ bookmarks ∧ BookmarkNode.parentId node = Some p
            ∧ p ≠ "" ∧ p ∈ toDelete.

(** [a] is a later time stamp than [b], both being set. *)
Definition laterThan (a b : option ISOString) : Prop :=
  match a, b with
  | Some x, Some y => (y < x)%Z
  | _, _ => False
  end.

(** The nodes of a list filed under a key by [findDuplicates]. *)
Definition filedUnder (key : string) (safeBookmarks : list BookmarkNode.t)
    : list BookmarkNode.t :=
  filter (λ b, BookmarkTable.urlKey b = key) safeBookmarks.

(** [b] is the first node of the list with the id, the node a [find] by
    id gives. *)
Definition firstWithId (id : string) (bookmarks : list BookmarkNode.t)
    (b : BookmarkNode.t) : Prop :=
  ∃ i, bookmarks !! i = Some b
       ∧ BookmarkNode.id b = id
       ∧ ∀ j b', bookmarks !! j = Some b' → j < i → BookmarkNode.id b' ≠ id.

(** [members] are the members found of a group with the ids [ids]: for
    each id in turn the first shown node of that id, an id that no shown
    node has being passed over. *)
Inductive resolves (safeBookmarks : list BookmarkNode.t)
    : list string → list BookmarkNode.t → Prop :=
  | resolves_nil : resolves safeBookmarks [] []
  | resolves_found id ids b members :
      firstWithId id safeBookmarks b →
      resolves safeBookmarks ids members →
      resolves safeBookmarks (id :: ids) (b :: members)
  | resolves_missing id ids members :
      (∀ b, b ∈ safeBookmarks → BookmarkNode.id b ≠ id) →
      resolves safeBookmarks ids members →
      resolves safeBookmarks (id :: ids) members.

(** A snapshot as the recovery branch of [updateBookmarkNode] puts it
    back at time [now]: [lastAccessed] is the time of the call for a
    bookmark and unset otherwise. *)
Definition restoredSnapshot (now : ISOString) (snapshot : BookmarkNode.t)
    : BookmarkNode.t :=
  BookmarkNode.mk
    (BookmarkNode.id snapshot) (BookmarkNode.type snapshot)
    (BookmarkNode.title snapshot) (BookmarkNode.url snapshot)
    (BookmarkNode.parentId snapshot) (BookmarkNode.categoryId snapshot)
    (BookmarkNode.tags snapshot) (BookmarkNode.createdAt snapshot)
    (if decide (BookmarkNode.type snapshot = Some bookmark) then Some now else None)
    (BookmarkNode.accessCount snapshot) (BookmarkNode.description snapshot).

(** The events of the two undo buffers: what a user, a timer or an
    interval can make the popup do once it is mounted. *)
Inductive undoStep : PopupBatch.t → PopupBatch.t → Prop :=
  | step_delete fuel now bookmarks id silent confirmed st st' :
      PopupBatch.handleDeleteWithUndo fuel now bookmarks id silent confirmed st = Some st' →
      undoStep st st'
  | step_batchDelete now bookmarks st :
      undoStep st (PopupBatch.handleBatchDeleteWithUndo now bookmarks st)
  | step_undo now st :
      undoStep st (PopupBatch.onPopup (Popup.handleUndo now) st)
  | step_undoBatch clock st :
      undoStep st (PopupBatch.handleUndoBatch clock st)
  | step_tick now st :
      undoStep st (PopupBatch.onPopup (Popup.countdownTick now) st)
  | step_batchTick now st :
      undoStep st (PopupBatch.batchTick now st)
  | step_timeout st :
      undoStep st (PopupBatch.timeoutFires st)
  | step_mouseEnter now st :
      undoStep st (PopupBatch.onPopup (Popup.handleUndoMouseEnter now) st)
  | step_mouseLeave now st :
      undoStep st (PopupBatch.onPopup (Popup.handleUndoMouseLeave now) st)
  | step_update now id updates st :
      undoStep st
        (PopupBatch.onStorage
           (BookmarkService.updateBookmarkNode now id updates
              (Popup.storage (PopupBatch.popup st))).2 st)
  | step_add uuid now1 now2 node st :
      undoStep st
        (PopupBatch.onStorage
           (BookmarkService.addBookmarkOrFolder uuid now1 now2 node
              (Popup.storage (PopupBatch.popup st))).2 st)
  | step_deleteFolder fuel id removed s' st :
      BookmarkService.deleteBookmarkNode fuel id (Popup.storage (PopupBatch.popup st))
      = Some (removed, s') →
      undoStep st (PopupBatch.onStorage s' st).

(** The popup as it is once mounted over [s] at time [now]. *)
Definition mounted (now : Z) (s : Storage.t) : PopupBatch.t :=
  PopupBatch.onPopup (Popup.rehydrate now) (PopupBatch.initial s).

(** At most one of the two buffers is pending; a pending single delete is
    persisted as it is; a timeout is armed exactly while a batch is
    pending. *)
Definition undoBuffersConsistent (st : PopupBatch.t) : Prop :=
  (Popup.lastDeleted (PopupBatch.popup st) = None ∨ PopupBatch.undoBatch st = None)
  ∧ (∀ node, Popup.lastDeleted (PopupBatch.popup st) = Some node →
       ∃ expire,
         Popup.undoExpire (PopupBatch.popup st) = Some expire
         ∧ Storage.lastDeletedBookmark (Popup.storage (PopupBatch.popup st)) = Some node
         ∧ Storage.undoExpire (Popup.storage (PopupBatch.popup st)) = Some expire)
  ∧ (PopupBatch.undoBatch st = None ↔ PopupBatch.undoTimeout st = None).

(** A turn of a bulk action of the table: the update [upd id] of the node
    of [id], or nothing for an id that is passed over. *)
Definition bulkTurn (upd : string → option Partial.t)
    (now : ISOString) (id : string) (s : Storage.t) : Storage.t :=
  match upd id with
  | Some updates => (BookmarkService.updateBookmarkNode now id updates s).2
  | None => s
  end.

(** What a bulk action makes of a stored node [old]: the node of a selected
    id that has an update is merged with it, at the time of some turn; any
    other node stays as it is. *)
Definition bulkUpdated (upd : string → option Partial.t) (clock : nat → ISOString)
    (selectedIds : list string) (old new : BookmarkNode.t) : Prop :=
  match upd (BookmarkNode.id old) with
  | Some updates =>
      if decide (BookmarkNode.id old ∈ selectedIds) then
        ∃ j, new = BookmarkService.updatedNode (clock j) old updates
      else new = old
  | None => new = old
  end.

(** * Properties *)

(** ** JavaScript values *)

Lemma truthyString_Some (s : string) : truthyString (Some s) = true ↔ s ≠ "".
Proof.
  unfold truthyString. rewrite negb_true_iff.
  destruct (String.eqb_spec s ""); naive_solver.
Qed.

Lemma truthyNumber_Some (n : Z) : truthyNumber (Some n) = true ↔ n ≠ 0%Z.
Proof. unfold truthyNumber. rewrite negb_true_iff, Z.eqb_neq. done. Qed.

(** ** Lists *)

Lemma filter_all {A} (P : A → Prop) `{!∀ x, Decision (P x)} (l : list A) :
  Forall P l → filter P l = l.
Proof.
  induction 1 as [|x l Hx _ IH]; [done|].
  by rewrite filter_cons_True, IH.
Qed.

(** ** The closure loop of deleteBookmarkNode *)

Section closure.
Import BookmarkService.
Implicit Types (bookmarks : list BookmarkNode.t) (toDelete : gset string).

Lemma scan_subseteq bookmarks toDelete found :
  toDelete ⊆ (scan bookmarks toDelete found).1.
Proof.
  revert toDelete found.
  induction bookmarks as [|node rest IH]; intros toDelete found; simpl; [done|].
  destruct (BookmarkNode.parentId node) as [p|]; [|apply IH].
  destruct (truthyString (Some p) && bool_decide (p ∈ toDelete)); [|apply IH].
  etrans; [|apply IH]. set_solver.
Qed.

Lemma scan_found_stays bookmarks toDelete :
  (scan bookmarks toDelete true).2 = true.
Proof.
  revert toDelete. induction bookmarks as [|node rest IH]; intros toDelete; simpl; [done|].
  destruct (BookmarkNode.parentId node) as [p|]; [|apply IH].
  destruct (truthyString (Some p) && bool_decide (p ∈ toDelete)); apply IH.
Qed.

Lemma scan_found bookmarks toDelete found :
  hasChildIn bookmarks toDelete → (scan bookmarks toDelete found).2 = true.
Proof.
  intros (node & p & Hin & Hp & Hne & Hel).
  revert toDelete found Hel.
  induction Hin as [node rest|node other rest Hin IH]; intros toDelete found Hel; simpl.
  - rewrite Hp.
    assert (truthyString (Some p) && bool_decide (p ∈ toDelete) = true) as ->.
    { apply andb_true_iff. split; [by apply truthyString_Some|by apply bool_decide_eq_true]. }
    apply scan_found_stays.
  - destruct (BookmarkNode.parentId other) as [q|]; [|by apply IH].
    destruct (truthyString (Some q) && bool_decide (q ∈ toDelete)); apply IH; set_solver.
Qed.

Lemma scan_no_child bookmarks toDelete found :
  ¬ hasChildIn bookmarks toDelete → scan bookmarks toDelete found = (toDelete, found).
Proof.
  revert toDelete found.
  induction bookmarks as [|node rest IH]; intros toDelete found Hno; simpl; [done|].
  assert (¬ hasChildIn rest toDelete) as Hrest.
  { intros (n & p & Hin & Hn). apply Hno. exists n, p.
    split; [by apply list_elem_of_further|done]. }
  destruct (BookmarkNode.parentId node) as [p|] eqn:Hp; [|by apply IH].
  destruct (truthyString (Some p) && bool_decide (p ∈ toDelete)) eqn:Hc; [|by apply IH].
  apply andb_true_iff in Hc as [Ht Hb].
  apply truthyString_Some in Ht. apply bool_decide_eq_true in Hb.
  destruct Hno. exists node, p. set_solver.
Qed.

(** Once some node has its parent in the set, every run of the body sets
    [found] again: no amount of fuel ends the loop. *)
Lemma doWhile_diverges fuel bookmarks toDelete :
  hasChildIn bookmarks toDelete → doWhile fuel bookmarks toDelete = None.
Proof.
  revert toDelete. induction fuel as [|fuel IH]; intros toDelete Hchild; simpl; [done|].
  pose proof (scan_found bookmarks toDelete false Hchild) as Hfound.
  pose proof (scan_subseteq bookmarks toDelete false) as Hsub.
  destruct (scan bookmarks toDelete false) as [toDelete' found]. simpl in *. subst found.
  apply IH. destruct Hchild as (node & p & ? & ? & ? & ?).
  exists node, p. set_solver.
Qed.

(** With no such node the first run leaves [found] unset and the loop
    ends with the set it started from. *)
Lemma doWhile_no_child fuel bookmarks toDelete :
  ¬ hasChildIn bookmarks toDelete → doWhile (S fuel) bookmarks toDelete = Some toDelete.
Proof. intros Hno. simpl. by rewrite scan_no_child. Qed.

Lemma deleteBookmarkNode_diverges fuel id s node :
  node ∈ getBookmarks s → BookmarkNode.parentId node = Some id → id ≠ "" →
  deleteBookmarkNode fuel id s = None.
Proof.
  intros Hin Hp Hne. unfold deleteBookmarkNode.
  rewrite doWhile_diverges; [done|]. exists node, id. set_solver.
Qed.

(** What [deleteBookmarkNode] does when no node names [id] as its parent. *)
Lemma deleteBookmarkNode_no_child fuel id s :
  (∀ node, node ∈ getBookmarks s → BookmarkNode.parentId node ≠ Some id) →
  deleteBookmarkNode (S fuel) id s =
    let kept := filter (λ b, BookmarkNode.id b ≠ id) (getBookmarks s) in
    if bool_decide (Exists (λ node, BookmarkNode.id node = id) (getBookmarks s))
    then Some (true, Storage.setBookmarks kept s)
    else Some (false, s).
Proof.
  intros Hno. unfold deleteBookmarkNode.
  rewrite doWhile_no_child.
  2:{ intros (node & p & Hin & Hp & _ & Hel). apply (Hno node Hin). set_solver. }
  cbv zeta.
  rewrite (list_filter_iff (λ b, BookmarkNode.id b ∉ ({[id]} : gset string))
             (λ b, BookmarkNode.id b ≠ id)) by set_solver.
  case_bool_decide as Hex.
  - apply Exists_exists in Hex as (node & Hin & Hid).
    pose proof (length_filter_lt (λ b, BookmarkNode.id b ≠ id) _ node Hin) as Hlt.
    destruct (Nat.eqb_spec (length (filter (λ b, BookmarkNode.id b ≠ id) (getBookmarks s)))
                (length (getBookmarks s))) as [Heq|]; simpl; [|done].
    exfalso. assert (¬ BookmarkNode.id node ≠ id) by naive_solver. specialize (Hlt H). lia.
  - assert (filter (λ b, BookmarkNode.id b ≠ id) (getBookmarks s) = getBookmarks s) as ->.
    { apply filter_all, Forall_forall. intros b Hb Hid.
      apply Hex, Exists_exists. by exists b. }
    by rewrite Nat.eqb_refl.
Qed.

End closure.

(** ** deleteBookmarkNode *)

(** C1 (cascade delete). On the forest of the specification's own example,
    root → FolderA → FolderB → BookmarkX with BookmarkY beside FolderA,
    [deleteBookmarkNode("FolderA")] removes nothing: FolderB names FolderA
    as its parent on every run of the loop body, so [found] is set on every
    run and the call returns for no number of runs. *)
Theorem delete_folder_with_child_never_returns :
  ∀ fuel,
    BookmarkService.deleteBookmarkNode fuel "FolderA"
      (Sample.storageOf Sample.cascadeForest) = None.
Proof.
  intros fuel.
  apply (deleteBookmarkNode_diverges fuel "FolderA" _
           (Sample.folderNode "FolderB" (Some "FolderA"))); [|done|done].
  unfold BookmarkService.getBookmarks, Sample.storageOf, Sample.cascadeForest; simpl.
  apply list_elem_of_further, list_elem_of_here.
Qed.

(** C3 (delete of an id that is not there), as the code has it. When no
    stored node names [id] as its parent the call returns after one run of
    the loop; it returns [true] exactly when the stored list got shorter,
    and then the list written is the old one without the nodes of that id;
    when moreover no stored node has that id it returns [false] and the
    store, with its log of writes, is the one it started from. *)
Theorem delete_unreferenced_id (fuel : nat) (id : string) (s : Storage.t) :
  (∀ node, node ∈ BookmarkService.getBookmarks s →
           BookmarkNode.parentId node ≠ Some id) →
  ∃ removed s',
    BookmarkService.deleteBookmarkNode (S fuel) id s = Some (removed, s')
    ∧ ((∀ node, node ∈ BookmarkService.getBookmarks s → BookmarkNode.id node ≠ id) →
       removed = false ∧ s' = s)
    ∧ (removed = true ↔
       length (BookmarkService.getBookmarks s') < length (BookmarkService.getBookmarks s))
    ∧ (removed = false → s' = s)
    ∧ (removed = true →
       Storage.bookmarks s' =
         Some (filter (λ b, BookmarkNode.id b ≠ id) (BookmarkService.getBookmarks s))
       ∧ Storage.sets s' = Storage.STORAGE_KEY :: Storage.sets s).
Proof.
  intros Hno. rewrite (deleteBookmarkNode_no_child fuel id s Hno). cbv zeta.
  case_bool_decide as Hex.
  - eexists true, _. split; [done|].
    apply Exists_exists in Hex as (node & Hin & Hid).
    split; [intros Habs; by destruct (Habs node Hin)|].
    split; [|done].
    split; [intros _|done]. unfold BookmarkService.getBookmarks at 1. simpl.
    apply (length_filter_lt _ _ node Hin). naive_solver.
  - eexists false, s. split; [done|]. split; [done|].
    split; [|done]. split; [done|lia].
Qed.

Lemma delete_unreferenced_id_witness :
  ∃ removed s',
    BookmarkService.deleteBookmarkNode 1 "BookmarkY"
      (Sample.storageOf Sample.cascadeForest) = Some (removed, s')
    ∧ removed = true
    ∧ length (BookmarkService.getBookmarks s') = 3.
Proof.
  destruct (delete_unreferenced_id 0 "BookmarkY" (Sample.storageOf Sample.cascadeForest))
    as (removed & s' & Hrun & _ & _ & _ & _).
  - intros node Hin.
    unfold BookmarkService.getBookmarks, Sample.storageOf, Sample.cascadeForest in Hin.
    simpl in Hin. rewrite !elem_of_cons, elem_of_nil in Hin.
    destruct Hin as [->|[->|[->|[->|[]]]]]; simpl; discriminate.
  - exists removed, s'. split; [exact Hrun|].
    vm_compute in Hrun. injection Hrun as <- <-. split; reflexivity.
Defined.

(** C3, as stated, fails on a list with a dangling [parentId]: "ghost" is
    the id of no stored node, yet [deleteBookmarkNode("ghost")] does not
    return [false]. *)
Lemma delete_missing_id_not_false :
  Forall (λ node, BookmarkNode.id node ≠ "ghost")
    (BookmarkService.getBookmarks (Sample.storageOf Sample.orphanForest))
  ∧ ¬ ∃ fuel,
        BookmarkService.deleteBookmarkNode fuel "ghost"
          (Sample.storageOf Sample.orphanForest)
        = Some (false, Sample.storageOf Sample.orphanForest).
Proof.
  split.
  - repeat constructor. simpl. discriminate.
  - intros [fuel Hrun].
    rewrite (deleteBookmarkNode_diverges fuel "ghost" _
               (Sample.bookmarkNode "BookmarkX" "https://x.example" (Some "ghost") []))
      in Hrun; [discriminate| |done|done].
    apply list_elem_of_here.
Qed.

(** ** updateBookmarkNode and addBookmarkOrFolder *)

Section update.
Import BookmarkService.

Lemma findIndex_None id (bookmarks : list BookmarkNode.t) :
  findIndex id bookmarks = None ↔
  ∀ node, node ∈ bookmarks → BookmarkNode.id node ≠ id.
Proof. unfold findIndex. by rewrite list_find_None, Forall_forall. Qed.

Lemma findIndex_Some id (bookmarks : list BookmarkNode.t) index old :
  findIndex id bookmarks = Some (index, old) →
  bookmarks !! index = Some old ∧ BookmarkNode.id old = id.
Proof.
  unfold findIndex. rewrite list_find_Some. intros (Hlookup & Hid & _). done.
Qed.

Lemma get_ofValue {A} (v : option A) : get (Partial.ofValue v) = v.
Proof. by destruct v. Qed.

(** The recovery branch. *)
Lemma updateBookmarkNode_not_found now id updates s :
  (∀ node, node ∈ getBookmarks s → BookmarkNode.id node ≠ id) →
  updateBookmarkNode now id updates s =
    (restoredNode now id updates,
     Storage.setBookmarks (getBookmarks s ++ [restoredNode now id updates]) s).
Proof.
  intros Hnone. unfold updateBookmarkNode.
  by rewrite (proj2 (findIndex_None id (getBookmarks s)) Hnone).
Qed.

(** The merging branch. *)
Lemma updateBookmarkNode_found now id updates s index old :
  findIndex id (getBookmarks s) = Some (index, old) →
  updateBookmarkNode now id updates s =
    (updatedNode now old updates,
     Storage.setBookmarks (<[index := updatedNode now old updates]> (getBookmarks s)) s).
Proof. intros Hfound. unfold updateBookmarkNode. by rewrite Hfound. Qed.

Lemma getBookmarks_setBookmarks value s :
  getBookmarks (Storage.setBookmarks value s) = value.
Proof. done. Qed.

(** After an update that leaves the id alone, a lookup of the id in the
    list written finds the node returned. *)
Lemma updateBookmarkNode_findIndex now id updates s :
  let result := updateBookmarkNode now id updates s in
  BookmarkNode.id result.1 = id →
  ∃ index, findIndex id (getBookmarks result.2) = Some (index, result.1).
Proof.
  intros result. unfold result.
  destruct (findIndex id (getBookmarks s)) as [[index old]|] eqn:Hfind.
  - rewrite (updateBookmarkNode_found _ _ _ _ _ _ Hfind).
    cbn [fst snd]. rewrite getBookmarks_setBookmarks. intros Hid.
    exists index. unfold findIndex in *.
    apply list_find_Some in Hfind as (Hold & _ & Hfirst).
    apply list_find_Some. split; [|split; [done|]].
    + apply list_lookup_insert_eq. by eapply lookup_lt_Some.
    + intros j y Hj Hlt. rewrite list_lookup_insert_ne in Hj by lia. by eapply Hfirst.
  - rewrite updateBookmarkNode_not_found by (by apply findIndex_None).
    cbn [fst snd]. rewrite getBookmarks_setBookmarks. intros _.
    exists (length (getBookmarks s)). unfold findIndex in *.
    apply list_find_app_Some. right. split; [lia|]. split; [done|].
    rewrite Nat.sub_diag. simpl. by rewrite decide_True.
Qed.

End update.

(** C2 (update recreates a missing node), as the code has it. For an id the
    store does not hold, [updateBookmarkNode(id, snapshot)] appends one node
    and returns it: the snapshot in every field but [lastAccessed], which is
    the time of the call for a snapshot of type bookmark and unset for any
    other. The nodes already stored stay as they were, in one write. *)
Theorem update_missing_id_restores_all_but_lastAccessed
    (now : ISOString) (snapshot : BookmarkNode.t) (s : Storage.t) :
  (∀ node, node ∈ BookmarkService.getBookmarks s →
           BookmarkNode.id node ≠ BookmarkNode.id snapshot) →
  let restored :=
    BookmarkNode.mk
      (BookmarkNode.id snapshot) (BookmarkNode.type snapshot)
      (BookmarkNode.title snapshot) (BookmarkNode.url snapshot)
      (BookmarkNode.parentId snapshot) (BookmarkNode.categoryId snapshot)
      (BookmarkNode.tags snapshot) (BookmarkNode.createdAt snapshot)
      (if decide (BookmarkNode.type snapshot = Some bookmark) then Some now else None)
      (BookmarkNode.accessCount snapshot) (BookmarkNode.description snapshot) in
  BookmarkService.updateBookmarkNode now (BookmarkNode.id snapshot)
    (Partial.ofNode snapshot) s
  = (restored,
     Storage.setBookmarks (BookmarkService.getBookmarks s ++ [restored]) s).
Proof.
  intros Hnone restored.
  rewrite updateBookmarkNode_not_found by done.
  assert (BookmarkService.restoredNode now (BookmarkNode.id snapshot)
            (Partial.ofNode snapshot) = restored) as ->; [|done].
  unfold BookmarkService.restoredNode, restored, Partial.ofNode; simpl.
  by rewrite !get_ofValue.
Qed.

Lemma update_missing_id_restores_all_but_lastAccessed_witness :
  BookmarkService.getBookmarks
    (BookmarkService.updateBookmarkNode 6000%Z
       "FolderB" (Partial.ofNode (Sample.folderNode "FolderB" (Some "FolderA")))
       (Sample.storageOf [Sample.folderNode "FolderA" None])).2
  = [Sample.folderNode "FolderA" None; Sample.folderNode "FolderB" (Some "FolderA")].
Proof.
  refine (f_equal (λ r : BookmarkNode.t * Storage.t, BookmarkService.getBookmarks r.2)
            (update_missing_id_restores_all_but_lastAccessed 6000%Z
               (Sample.folderNode "FolderB" (Some "FolderA"))
               (Sample.storageOf [Sample.folderNode "FolderA" None]) _)).
  intros node Hin. apply list_elem_of_singleton in Hin as ->. simpl. discriminate.
Defined.

(** C2, as stated, fails for a bookmark: deleted with [lastAccessed] 1000
    and restored at 6000, the node stored under its id is not the snapshot. *)
Lemma update_missing_id_not_verbatim :
  let snapshot := Sample.bookmarkNode "1" "https://ex.com" None ["x"] in
  let s := Sample.storageOf [] in
  Forall (λ node, BookmarkNode.id node ≠ "1") (BookmarkService.getBookmarks s)
  ∧ (snapshot ∉
       BookmarkService.getBookmarks
         (snd (BookmarkService.updateBookmarkNode 6000%Z "1" (Partial.ofNode snapshot) s)))
  ∧ BookmarkNode.lastAccessed
      (BookmarkService.updateBookmarkNode 6000%Z "1" (Partial.ofNode snapshot) s).1
    = Some 6000%Z.
Proof.
  split; [constructor|]. split; [|reflexivity].
  intros Hin. apply list_elem_of_singleton in Hin. discriminate.
Qed.

(** C10 (update of a folder). A call that finds a stored node of type
    folder under [id] returns, and stores in its place, a node whose
    [lastAccessed] is unset, whatever the folder carried and whatever
    [updates] holds. *)
Theorem update_folder_clears_lastAccessed
    (now : ISOString) (id : string) (updates : Partial.t) (s : Storage.t)
    (index : nat) (old : BookmarkNode.t) :
  BookmarkService.findIndex id (BookmarkService.getBookmarks s) = Some (index, old) →
  BookmarkNode.type old = Some folder →
  let result := BookmarkService.updateBookmarkNode now id updates s in
  BookmarkNode.lastAccessed result.1 = None
  ∧ BookmarkService.getBookmarks result.2 !! index = Some result.1.
Proof.
  intros Hfound Htype result. unfold result.
  rewrite (updateBookmarkNode_found _ _ _ _ _ _ Hfound). simpl.
  rewrite Htype. split; [done|].
  apply list_lookup_insert_eq.
  apply findIndex_Some in Hfound as [Hold _]. by eapply lookup_lt_Some.
Qed.

Lemma update_folder_clears_lastAccessed_witness :
  let old :=
    BookmarkNode.mk "f" (Some folder) (Some "Work") None None None None
      (Some 1000%Z) (Some 2000%Z) None None in
  let updates :=
    Partial.mk None absent (present (Some "Home")) absent absent absent absent
      absent absent absent absent in
  BookmarkNode.lastAccessed old = Some 2000%Z
  ∧ BookmarkNode.lastAccessed
      (BookmarkService.updateBookmarkNode 3000%Z "f" updates (Sample.storageOf [old])).1
    = None.
Proof.
  intros old updates. split; [reflexivity|].
  apply (update_folder_clears_lastAccessed 3000%Z "f" updates (Sample.storageOf [old]) 0 old);
    reflexivity.
Defined.

(** The node [addBookmarkOrFolder] builds. *)
Lemma addBookmarkOrFolder_eq uuid now1 now2 draft s :
  let newNode := (BookmarkService.addBookmarkOrFolder uuid now1 now2 draft s).1 in
  BookmarkService.addBookmarkOrFolder uuid now1 now2 draft s
  = (newNode,
     Storage.setBookmarks (BookmarkService.getBookmarks s ++ [newNode]) s).
Proof. done. Qed.

(** A fresh id is found where [addBookmarkOrFolder] has put it. *)
Lemma findIndex_added uuid now1 now2 draft s :
  (∀ node, node ∈ BookmarkService.getBookmarks s → BookmarkNode.id node ≠ uuid) →
  let added := BookmarkService.addBookmarkOrFolder uuid now1 now2 draft s in
  BookmarkService.findIndex uuid (BookmarkService.getBookmarks added.2)
  = Some (length (BookmarkService.getBookmarks s), added.1).
Proof.
  intros Hfresh added. unfold added. rewrite addBookmarkOrFolder_eq. cbv zeta.
  change (BookmarkService.findIndex uuid
            (BookmarkService.getBookmarks s
               ++ [(BookmarkService.addBookmarkOrFolder uuid now1 now2 draft s).1])
          = Some (length (BookmarkService.getBookmarks s),
                  (BookmarkService.addBookmarkOrFolder uuid now1 now2 draft s).1)).
  unfold BookmarkService.findIndex.
  apply list_find_app_Some. right.
  split; [lia|]. split; [by apply findIndex_None|].
  rewrite Nat.sub_diag. simpl. by rewrite decide_True.
Qed.

(** C4 (update of a bookmark), as the code has it. A call that finds a
    stored node of type bookmark under [id] returns, and stores in its place,
    a node whose [lastAccessed] is the time of the call, whatever [updates]
    holds. After an add of a bookmark under a fresh id and an update that
    leaves [createdAt] alone, the returned node has the time of the update
    for [lastAccessed] and the time of the add for [createdAt]: the first is
    later than the second exactly when the clock has moved on between the
    two calls. *)
Theorem update_bookmark_refreshes_lastAccessed :
  (∀ (now : ISOString) (id : string) (updates : Partial.t) (s : Storage.t)
     (index : nat) (old : BookmarkNode.t),
      BookmarkService.findIndex id (BookmarkService.getBookmarks s) = Some (index, old) →
      BookmarkNode.type old = Some bookmark →
      let result := BookmarkService.updateBookmarkNode now id updates s in
      BookmarkNode.lastAccessed result.1 = Some now
      ∧ BookmarkService.getBookmarks result.2 !! index = Some result.1)
  ∧ (∀ (uuid : string) (now1 now2 now3 : ISOString) (draft : NodeDraft.t)
       (updates : Partial.t) (s : Storage.t),
      (∀ node, node ∈ BookmarkService.getBookmarks s → BookmarkNode.id node ≠ uuid) →
      NodeDraft.type draft = bookmark →
      Partial.createdAt updates = absent →
      let added := BookmarkService.addBookmarkOrFolder uuid now1 now2 draft s in
      let result := BookmarkService.updateBookmarkNode now3 uuid updates added.2 in
      BookmarkNode.lastAccessed result.1 = Some now3
      ∧ BookmarkNode.createdAt result.1 = Some now1
      ∧ BookmarkNode.title result.1
        = spread (Some (NodeDraft.title draft)) (Partial.title updates)
      ∧ (laterThan (BookmarkNode.lastAccessed result.1) (BookmarkNode.createdAt result.1)
         ↔ (now1 < now3)%Z)).
Proof.
  split.
  - intros now id updates s index old Hfound Htype result. unfold result.
    rewrite (updateBookmarkNode_found _ _ _ _ _ _ Hfound). simpl.
    rewrite Htype. split; [done|].
    apply list_lookup_insert_eq.
    apply findIndex_Some in Hfound as [Hold _]. by eapply lookup_lt_Some.
  - intros uuid now1 now2 now3 draft updates s Hfresh Htype Hcreated added result.
    unfold result.
    rewrite (updateBookmarkNode_found _ _ _ _ _ _
               (findIndex_added uuid now1 now2 draft s Hfresh)).
    simpl. rewrite Hcreated, Htype. simpl. done.
Qed.

Lemma update_bookmark_refreshes_lastAccessed_witness :
  let draft :=
    NodeDraft.mk bookmark "Ex" (Some "https://ex.com") None None None None in
  let updates :=
    Partial.mk None absent (present (Some "Ex2")) absent absent absent absent
      absent absent absent absent in
  let added :=
    BookmarkService.addBookmarkOrFolder "u1" 1000%Z 1000%Z draft Sample.emptyStorage in
  let result := BookmarkService.updateBookmarkNode 1007%Z "u1" updates added.2 in
  BookmarkNode.title result.1 = Some "Ex2"
  ∧ laterThan (BookmarkNode.lastAccessed result.1) (BookmarkNode.createdAt result.1).
Proof.
  intros draft updates added result.
  destruct (proj2 update_bookmark_refreshes_lastAccessed "u1" 1000%Z 1000%Z 1007%Z
              draft updates Sample.emptyStorage)
    as (_ & _ & Htitle & Hlater).
  - intros node Hin. by apply elem_of_nil in Hin.
  - reflexivity.
  - reflexivity.
  - split; [exact Htitle|]. apply Hlater. reflexivity.
Defined.

(** C4, as stated, fails when both calls read the same millisecond: the
    node returned by the update has [title] "Ex2" and a [lastAccessed]
    that is not later than its [createdAt]. *)
Lemma update_same_instant_not_later :
  let draft :=
    NodeDraft.mk bookmark "Ex" (Some "https://ex.com") None None None None in
  let updates :=
    Partial.mk None absent (present (Some "Ex2")) absent absent absent absent
      absent absent absent absent in
  let added :=
    BookmarkService.addBookmarkOrFolder "u1" 1000%Z 1000%Z draft Sample.emptyStorage in
  let result := BookmarkService.updateBookmarkNode 1000%Z "u1" updates added.2 in
  BookmarkNode.title result.1 = Some "Ex2"
  ∧ BookmarkNode.lastAccessed result.1 = Some 1000%Z
  ∧ BookmarkNode.createdAt result.1 = Some 1000%Z
  ∧ ¬ laterThan (BookmarkNode.lastAccessed result.1) (BookmarkNode.createdAt result.1).
Proof.
  repeat (split; [reflexivity|]). vm_compute. intros H. discriminate H.
Qed.

(** C5 (add), as the code has it. [addBookmarkOrFolder] returns a node
    with the id [crypto.randomUUID()] gave, which it compares with no stored
    id; [createdAt] the time read, for a bookmark [lastAccessed] the time
    read and [accessCount] 0, for a folder neither, and the fields of the
    draft as they were. The array stored afterwards is the array that was
    stored with that node appended (the node alone when no array was
    stored), written by one [set] of the [bookmarks] key, nothing else in
    the store being touched. The ids of the new array are distinct exactly
    when those of the old one are and the generator gave an id that no
    stored node has. *)
Theorem add_appends_materialized_node
    (uuid : string) (now1 now2 : ISOString) (draft : NodeDraft.t) (s : Storage.t) :
  let result := BookmarkService.addBookmarkOrFolder uuid now1 now2 draft s in
  let node := result.1 in
  BookmarkNode.id node = uuid
  ∧ BookmarkNode.createdAt node = Some now1
  ∧ BookmarkNode.lastAccessed node
    = (if decide (NodeDraft.type draft = bookmark) then Some now2 else None)
  ∧ BookmarkNode.accessCount node
    = (if decide (NodeDraft.type draft = bookmark) then Some 0%Z else None)
  ∧ (BookmarkNode.type node = Some (NodeDraft.type draft)
     ∧ BookmarkNode.title node = Some (NodeDraft.title draft)
     ∧ BookmarkNode.url node = NodeDraft.url draft
     ∧ BookmarkNode.parentId node = NodeDraft.parentId draft
     ∧ BookmarkNode.categoryId node = NodeDraft.categoryId draft
     ∧ BookmarkNode.tags node = NodeDraft.tags draft
     ∧ BookmarkNode.description node = NodeDraft.description draft)
  ∧ (∀ bookmarks, Storage.bookmarks s = Some bookmarks →
       Storage.bookmarks result.2 = Some (bookmarks ++ [node]))
  ∧ (Storage.bookmarks s = None → Storage.bookmarks result.2 = Some [node])
  ∧ Storage.sets result.2 = Storage.STORAGE_KEY :: Storage.sets s
  ∧ (Storage.bookmark_categories result.2 = Storage.bookmark_categories s
     ∧ Storage.lastDeletedBookmark result.2 = Storage.lastDeletedBookmark s
     ∧ Storage.undoExpire result.2 = Storage.undoExpire s)
  ∧ (∀ bookmarks, Storage.bookmarks s = Some bookmarks →
       (NoDup (BookmarkNode.id <$> bookmarks ++ [node])
        ↔ NoDup (BookmarkNode.id <$> bookmarks)
          ∧ ∀ old, old ∈ bookmarks → BookmarkNode.id old ≠ uuid)).
Proof.
  intros result node. repeat (split; [done|]).
  split; [|split; [|split; [done|split; [done|]]]].
  - intros bookmarks Hstored. unfold result, BookmarkService.addBookmarkOrFolder.
    cbn [snd Storage.bookmarks Storage.setBookmarks].
    unfold BookmarkService.getBookmarks. by rewrite Hstored.
  - intros Hstored. unfold result, BookmarkService.addBookmarkOrFolder.
    cbn [snd Storage.bookmarks Storage.setBookmarks].
    unfold BookmarkService.getBookmarks. by rewrite Hstored.
  - intros bookmarks _. rewrite fmap_app, NoDup_app.
    change (BookmarkNode.id <$> [node]) with [uuid]. split.
    + intros (Hnd & Hfresh & _). split; [done|]. intros old Hold Hid.
      apply (Hfresh uuid); [|apply list_elem_of_here].
      apply list_elem_of_fmap. by exists old.
    + intros [Hnd Hfresh]. split; [done|]. split; [|apply NoDup_singleton].
      intros i Hi Hi'. apply list_elem_of_singleton in Hi' as ->.
      apply list_elem_of_fmap in Hi as (old & Hid & Hold). by apply (Hfresh old).
Qed.

Lemma add_appends_materialized_node_witness :
  let draft :=
    NodeDraft.mk bookmark "Ex" (Some "https://ex.com") None None None None in
  let s := Sample.storageOf Sample.cascadeForest in
  let result := BookmarkService.addBookmarkOrFolder "u1" 2000%Z 2001%Z draft s in
  BookmarkNode.accessCount result.1 = Some 0%Z
  ∧ Storage.bookmarks result.2 = Some (Sample.cascadeForest ++ [result.1]).
Proof.
  intros draft s result.
  destruct (add_appends_materialized_node "u1" 2000%Z 2001%Z draft s)
    as (_ & _ & _ & Hcount & _ & Hstored & _).
  split; [exact Hcount|]. by apply Hstored.
Defined.

(** C5, as stated, fails on the freshness of the id: the id is whatever
    the generator gives. With the generator of the repository's test setup,
    which always gives [mock-uuid], a second add stores a second node under
    the id of the first. *)
Lemma add_with_repeated_uuid_not_unique :
  let draft :=
    NodeDraft.mk bookmark "Ex" (Some "https://ex.com") None None None None in
  let first :=
    BookmarkService.addBookmarkOrFolder "mock-uuid" 2000%Z 2000%Z draft
      (Sample.storageOf []) in
  let second :=
    BookmarkService.addBookmarkOrFolder "mock-uuid" 3000%Z 3000%Z draft first.2 in
  BookmarkNode.id second.1 = BookmarkNode.id first.1
  ∧ Storage.bookmarks second.2 = Some [first.1; second.1]
  ∧ ¬ NoDup (BookmarkNode.id <$> [first.1; second.1]).
Proof.
  intros draft first second. split; [reflexivity|]. split; [reflexivity|].
  intros Hnd. apply NoDup_cons in Hnd as [Hfresh _].
  apply Hfresh, list_elem_of_here.
Qed.

(** ** deleteCategory *)

(** C9 (category weak reference). [deleteCategory(id)] writes the
    categories without those of that id and nothing else: the [bookmarks]
    key holds what it held, so a stored bookmark whose [categoryId] is [id]
    is still stored, the same in every field, its [categoryId] naming a
    category that is no longer listed. *)
Theorem deleteCategory_keeps_bookmarks
    (id : string) (s : Storage.t) (B : BookmarkNode.t) :
  B ∈ BookmarkService.getBookmarks s →
  BookmarkNode.categoryId B = Some id →
  let s' := BookmarkService.deleteCategory id s in
  Storage.bookmarks s' = Storage.bookmarks s
  ∧ B ∈ BookmarkService.getBookmarks s'
  ∧ BookmarkNode.categoryId B = Some id
  ∧ (∀ cat, cat ∈ BookmarkService.getCategories s' → BookmarkCategory.id cat ≠ id)
  ∧ Storage.sets s' = Storage.CATEGORY_KEY :: Storage.sets s.
Proof.
  intros Hin Hcat s'. split; [done|]. split; [done|]. split; [done|]. split; [|done].
  intros cat Hcat'. unfold s', BookmarkService.deleteCategory,
    BookmarkService.getCategories in Hcat'. simpl in Hcat'.
  by apply list_elem_of_filter in Hcat' as [? _].
Qed.

Lemma deleteCategory_keeps_bookmarks_witness :
  let B :=
    BookmarkNode.mk "b" (Some bookmark) (Some "Ex") (Some "https://ex.com") None
      (Some "work") (Some []) (Some 1000%Z) (Some 1000%Z) (Some 0%Z) None in
  let s :=
    Storage.mk (Some [B]) (Some [BookmarkCategory.mk "work" "Work" "#ff0000" "W"])
      None None [] in
  BookmarkService.getBookmarks (BookmarkService.deleteCategory "work" s) = [B]
  ∧ BookmarkService.getCategories (BookmarkService.deleteCategory "work" s) = [].
Proof.
  intros B s.
  destruct (deleteCategory_keeps_bookmarks "work" s B) as (Hsame & _).
  - apply list_elem_of_here.
  - reflexivity.
  - split; [|reflexivity].
    unfold BookmarkService.getBookmarks. rewrite Hsame. reflexivity.
Defined.

(** ** findDuplicates *)

Section duplicates.
Import BookmarkTable.
Implicit Types (urlMap : UrlMap) (safeBookmarks : list BookmarkNode.t).

(** A node that has a [url] is filed under that very string. *)
Lemma urlKey_Some (bm : BookmarkNode.t) (u : string) :
  BookmarkNode.url bm = Some u → urlKey bm = u.
Proof.
  intros Hu. unfold urlKey, orElse. rewrite Hu.
  destruct (truthyString (Some u)) eqn:Ht; [done|]. simpl.
  destruct (decide (u = "")) as [->|Hne]; [done|].
  apply truthyString_Some in Hne. congruence.
Qed.

Lemma urlKey_None (bm : BookmarkNode.t) :
  BookmarkNode.url bm = None → urlKey bm = "".
Proof. intros Hu. unfold urlKey, orElse. by rewrite Hu. Qed.

Lemma mapGet_pushId k key id urlMap :
  mapGet k (pushId key id urlMap) =
    if decide (k = key) then Some (default [] (mapGet k urlMap) ++ [id])
    else mapGet k urlMap.
Proof.
  induction urlMap as [|[k' ids] rest IH]; simpl.
  - repeat case_decide; by simplify_eq.
  - destruct (decide (k' = key)); simpl; rewrite ?IH;
      repeat case_decide; by simplify_eq.
Qed.

Lemma pushId_keys key id urlMap :
  (pushId key id urlMap).*1 =
    if decide (key ∈ urlMap.*1) then urlMap.*1 else urlMap.*1 ++ [key].
Proof.
  induction urlMap as [|[k ids] rest IH]; csimpl.
  - done.
  - destruct (decide (k = key)) as [->|Hne]; csimpl.
    + rewrite decide_True; [done|]. apply list_elem_of_here.
    + rewrite IH. destruct (decide (key ∈ rest.*1)).
      * rewrite decide_True; [done|]. by apply list_elem_of_further.
      * rewrite decide_False; [done|]. rewrite elem_of_cons.
        intros [Heq|Hin]; [by destruct Hne|done].
Qed.

Lemma pushId_NoDup key id urlMap :
  NoDup urlMap.*1 → NoDup (pushId key id urlMap).*1.
Proof.
  intros Hnd. rewrite pushId_keys. destruct (decide (key ∈ urlMap.*1)); [done|].
  apply NoDup_app. split; [done|]. split; [|apply NoDup_singleton].
  intros k Hk Hk'. apply list_elem_of_singleton in Hk'. by subst.
Qed.

Lemma buildUrlMap_snoc safeBookmarks bm :
  buildUrlMap (safeBookmarks ++ [bm]) =
    pushId (urlKey bm) (BookmarkNode.id bm) (buildUrlMap safeBookmarks).
Proof. unfold buildUrlMap. by rewrite foldl_snoc. Qed.

Lemma buildUrlMap_NoDup safeBookmarks : NoDup (buildUrlMap safeBookmarks).*1.
Proof.
  induction safeBookmarks as [|bm l IH] using rev_ind; [apply NoDup_nil_2|].
  rewrite buildUrlMap_snoc. by apply pushId_NoDup.
Qed.

(** The entry of a key: the ids of the nodes filed under it, in the order
    of the list, and no entry when there are none. *)
Lemma mapGet_buildUrlMap safeBookmarks key :
  mapGet key (buildUrlMap safeBookmarks) =
    match filedUnder key safeBookmarks with
    | [] => None
    | filed => Some (BookmarkNode.id <$> filed)
    end.
Proof.
  induction safeBookmarks as [|bm l IH] using rev_ind; [done|].
  rewrite buildUrlMap_snoc, mapGet_pushId, IH. unfold filedUnder.
  rewrite filter_app.
  destruct (decide (key = urlKey bm)) as [->|Hne].
  - rewrite (filter_cons_True _ bm []) by done. rewrite filter_nil.
    destruct (filter _ l) as [|b filed]; simpl; [done|].
    by rewrite fmap_app.
  - rewrite (filter_cons_False _ bm []) by done. by rewrite filter_nil, app_nil_r.
Qed.

Lemma mapGet_elem_of key ids urlMap :
  NoDup urlMap.*1 → (key, ids) ∈ urlMap → mapGet key urlMap = Some ids.
Proof.
  induction urlMap as [|[k v] rest IH]; intros Hnd Hin; [by apply elem_of_nil in Hin|].
  simpl in *. apply NoDup_cons in Hnd as [Hk Hnd].
  apply elem_of_cons in Hin as [[= <- <-]|Hin]; [by rewrite decide_True|].
  destruct (decide (k = key)) as [->|]; [|by apply IH].
  destruct Hk. apply list_elem_of_fmap. by exists (key, ids).
Qed.

(** A reported group lists the ids of the nodes filed under its key, and
    there are at least two of them. *)
Lemma findDuplicates_group safeBookmarks g :
  g ∈ (findDuplicates safeBookmarks).2 →
  DuplicateGroup.ids g
    = BookmarkNode.id <$> filedUnder (DuplicateGroup.url g) safeBookmarks
  ∧ 2 ≤ length (DuplicateGroup.ids g).
Proof.
  unfold findDuplicates. simpl. intros Hg.
  apply list_elem_of_fmap in Hg as ([key ids] & -> & He).
  apply list_elem_of_filter in He as [Hdup He]. simpl.
  unfold isDuplicate in Hdup. simpl in Hdup. apply Nat.ltb_lt in Hdup.
  split; [|lia].
  apply mapGet_elem_of in He; [|apply buildUrlMap_NoDup].
  rewrite mapGet_buildUrlMap in He.
  destruct (filedUnder key safeBookmarks); by simplify_eq.
Qed.

(** With ids that are distinct, a node is named by a list of ids exactly
    when it is one of the nodes the ids were taken from. *)
Lemma id_elem_of_NoDup safeBookmarks (sub : list BookmarkNode.t) n :
  NoDup (BookmarkNode.id <$> safeBookmarks) → n ∈ safeBookmarks →
  sub ⊆ safeBookmarks →
  BookmarkNode.id n ∈ BookmarkNode.id <$> sub → n ∈ sub.
Proof.
  intros Hnd Hn Hsub Hid. apply list_elem_of_fmap in Hid as (m & Hid & Hm).
  assert (m ∈ safeBookmarks) as Hm' by (by apply Hsub).
  apply list_elem_of_lookup in Hn as [i Hi]. apply list_elem_of_lookup in Hm' as [j Hj].
  assert (i = j) as <-.
  { eapply NoDup_lookup; [done| |]; rewrite list_lookup_fmap.
    - by rewrite Hi.
    - by rewrite Hj, Hid. }
  by simplify_eq.
Qed.

End duplicates.

(** C6 (duplicate grouping), as the code has it. Nodes are filed under
    [url || '']: the exact [url] string of a node that has one, the empty
    string for a node that has none. A reported group lists the ids of the
    nodes filed under its key, of which there are at least two; any two of
    these nodes are filed under one key, and have the same [url], character
    for character, when both have one; a node that is alone under its key is
    among the nodes of no group. Where ids are distinct, the ids of a group
    name the nodes filed under its key and no other node of the list. *)
Theorem findDuplicates_groups_by_url
    (safeBookmarks : list BookmarkNode.t) (g : BookmarkTable.DuplicateGroup.t) :
  g ∈ (BookmarkTable.findDuplicates safeBookmarks).2 →
  let members := filedUnder (BookmarkTable.DuplicateGroup.url g) safeBookmarks in
  BookmarkTable.DuplicateGroup.ids g = BookmarkNode.id <$> members
  ∧ 2 ≤ length members
  ∧ (∀ a b, a ∈ members → b ∈ members →
       BookmarkTable.urlKey a = BookmarkTable.urlKey b
       ∧ ∀ u v, BookmarkNode.url a = Some u → BookmarkNode.url b = Some v → u = v)
  ∧ (∀ n, n ∈ safeBookmarks →
       length (filedUnder (BookmarkTable.urlKey n) safeBookmarks) = 1 →
       n ∉ members)
  ∧ (NoDup (BookmarkNode.id <$> safeBookmarks) →
     ∀ n, n ∈ safeBookmarks →
       (BookmarkNode.id n ∈ BookmarkTable.DuplicateGroup.ids g ↔ n ∈ members)).
Proof.
  intros Hg members. destruct (findDuplicates_group _ _ Hg) as [Hids Hlen].
  fold members in Hids. rewrite Hids, length_fmap in Hlen.
  assert (∀ n, n ∈ members →
            BookmarkTable.urlKey n = BookmarkTable.DuplicateGroup.url g) as Hkey.
  { intros n Hn. by apply list_elem_of_filter in Hn as [? _]. }
  split; [done|]. split; [done|]. split; [|split].
  - intros a b Ha Hb. split.
    + by rewrite (Hkey a Ha), (Hkey b Hb).
    + intros u v Hu Hv. apply urlKey_Some in Hu. apply urlKey_Some in Hv.
      rewrite <- Hu, <- Hv. by rewrite (Hkey a Ha), (Hkey b Hb).
  - intros n Hn Hone Hmem. rewrite (Hkey n Hmem) in Hone. fold members in Hone. lia.
  - intros Hnd n Hn. rewrite Hids. split.
    + intros Hid. apply (id_elem_of_NoDup safeBookmarks); [done|done| |done].
      intros x Hx. by apply list_elem_of_filter in Hx as [_ ?].
    + apply list_elem_of_fmap_2.
Qed.

Lemma findDuplicates_groups_by_url_witness :
  let a := Sample.bookmarkNode "a" "https://ex.com" None ["x"; "y"] in
  let b := Sample.bookmarkNode "b" "https://ex.com" None ["y"; "z"] in
  let c := Sample.bookmarkNode "c" "https://EX.com" None [] in
  let g := BookmarkTable.DuplicateGroup.mk "https://ex.com" ["a"; "b"] in
  (BookmarkTable.findDuplicates [a; c; b]).2 = [g]
  ∧ (c ∉ filedUnder "https://ex.com" [a; c; b])
  ∧ BookmarkTable.DuplicateGroup.ids g
    = BookmarkNode.id <$> filedUnder "https://ex.com" [a; c; b].
Proof.
  intros a b c g. split; [reflexivity|].
  destruct (findDuplicates_groups_by_url [a; c; b] g) as (Hids & _ & _ & Hsingle & _).
  - apply list_elem_of_here.
  - split; [|exact Hids].
    apply (Hsingle c); [|reflexivity].
    apply list_elem_of_further, list_elem_of_here.
Defined.

(** C6, as stated, fails on a folder, which has no [url], next to a
    bookmark whose [url] is the empty string: they are reported as one
    group, and their urls are not the same. *)
Lemma findDuplicates_groups_missing_with_empty_url :
  let f := Sample.folderNode "f" None in
  let b := Sample.bookmarkNode "b" "" None [] in
  (BookmarkTable.findDuplicates [f; b]).2
    = [BookmarkTable.DuplicateGroup.mk "" ["f"; "b"]]
  ∧ BookmarkNode.url f ≠ BookmarkNode.url b.
Proof. split; [reflexivity|discriminate]. Qed.

(** ** handleMerge *)

Section merge.
Import BookmarkTable.

Lemma arrayFromSet_elem_of (xs : list string) (x : string) :
  x ∈ arrayFromSet xs ↔ x ∈ xs.
Proof.
  induction xs as [|y rest IH]; simpl; [done|].
  rewrite !elem_of_cons, list_elem_of_filter, IH.
  destruct (decide (x = y)) as [->|Hne]; [split; by left|].
  split; [intros [?|[_ ?]]; [done|by right]|intros [?|?]; [done|by right]].
Qed.

Lemma arrayFromSet_NoDup (xs : list string) : NoDup (arrayFromSet xs).
Proof.
  induction xs as [|y rest IH]; simpl; [apply NoDup_nil_2|].
  apply NoDup_cons. split; [|by apply NoDup_filter].
  rewrite list_elem_of_filter. by intros [? _].
Qed.

Lemma allTags_elem_of (inGroup : list BookmarkNode.t) (t : string) :
  t ∈ allTags inGroup ↔
  ∃ b, b ∈ inGroup ∧ t ∈ default [] (BookmarkNode.tags b).
Proof.
  unfold allTags. rewrite list_elem_of_bind.
  split; intros (b & H1 & H2); by exists b.
Qed.

Lemma findById_firstWithId id (l : list BookmarkNode.t) b :
  findById id l = Some b ↔ firstWithId id l b.
Proof.
  unfold findById, firstWithId. split.
  - destruct (list_find _ l) as [[i x]|] eqn:Hfind; [|done]. intros [= <-].
    apply list_find_Some in Hfind as (Hi & Hid & Hfirst).
    exists i. split; [done|]. split; [done|]. intros j b' Hj Hlt. by eapply Hfirst.
  - intros (i & Hi & Hid & Hfirst).
    assert (list_find (λ b, BookmarkNode.id b = id) l = Some (i, b)) as ->; [|done].
    apply list_find_Some. split; [done|]. split; [done|].
    intros j y Hj Hlt. by eapply Hfirst.
Qed.

Lemma findById_None id (l : list BookmarkNode.t) :
  findById id l = None ↔ ∀ b, b ∈ l → BookmarkNode.id b ≠ id.
Proof.
  unfold findById. destruct (list_find _ l) as [[i x]|] eqn:Hfind; simpl.
  - apply list_find_Some in Hfind as (Hi & Hid & _). split; [done|].
    intros Hnone. destruct (Hnone x); [by eapply list_elem_of_lookup_2|done].
  - apply list_find_None in Hfind. split; [|done]. intros _ b Hb.
    by apply (proj1 (Forall_forall _ _) Hfind).
Qed.

(** [bookmarksInGroup] gives the members found of the group, for each id
    in turn the first shown node of that id if there is one. *)
Lemma resolves_bookmarksInGroup safeBookmarks group members :
  resolves safeBookmarks (DuplicateGroup.ids group) members
  ↔ members = bookmarksInGroup safeBookmarks group.
Proof.
  unfold bookmarksInGroup. generalize (DuplicateGroup.ids group). intros ids. split.
  - induction 1 as [|id ids b members Hb _ IH|id ids members Hnone _ IH]; simpl.
    + done.
    + by rewrite (proj2 (findById_firstWithId _ _ _) Hb), IH.
    + by rewrite (proj2 (findById_None _ _) Hnone).
  - intros ->. induction ids as [|id ids IH]; simpl; [constructor|].
    destruct (findById id safeBookmarks) as [b|] eqn:Hb.
    + apply resolves_found; [by apply findById_firstWithId|done].
    + apply resolves_missing; [by apply findById_None|done].
Qed.

(** The id to keep of a group that has a first id. *)
Lemma toKeepIdOf_head (mergeSelections : gmap string string) group first :
  head (DuplicateGroup.ids group) = Some first →
  toKeepIdOf mergeSelections group =
    Some (match mergeSelections !! DuplicateGroup.url group with
          | Some id => if truthyString (Some id) then keepId id else keepId first
          | None =>
              if bool_decide (DuplicateGroup.url group ∈ objectPrototypeKeys)
              then inheritedValue (DuplicateGroup.url group)
              else keepId first
          end).
Proof.
  intros Hfirst. unfold toKeepIdOf, selectionFor. rewrite Hfirst.
  destruct (mergeSelections !! DuplicateGroup.url group) as [id|]; simpl.
  - by destruct (truthyString (Some id)).
  - by case_bool_decide.
Qed.

(** What [find] gives for the id to keep, among the members. *)
Lemma findKept_spec toKeepId (members : list BookmarkNode.t) :
  match toKeepId with
  | keepId k =>
      (∀ kept, firstWithId k members kept → findKept toKeepId members = Some kept)
      ∧ ((∀ b, b ∈ members → BookmarkNode.id b ≠ k) → findKept toKeepId members = None)
  | inheritedValue _ => findKept toKeepId members = None
  end.
Proof.
  destruct toKeepId as [k|key]; [|done]. simpl. split.
  - intros kept. apply findById_firstWithId.
  - apply findById_None.
Qed.

(** What a turn of the loop works out for a group with two members found,
    field by field. *)
Lemma mergeGroup_fields mergeTags mergeCategories mergeDescriptions safeBookmarks
    (mergeSelections : gmap string string) group members :
  resolves safeBookmarks (DuplicateGroup.ids group) members →
  2 ≤ length members →
  ∃ m first,
    mergeGroup mergeTags mergeCategories mergeDescriptions safeBookmarks
      mergeSelections group = Some m
    ∧ head (DuplicateGroup.ids group) = Some first
    ∧ toKeepIdOf mergeSelections group = Some (Merge.toKeepId m)
    ∧ Merge.toDelete m
      = filter (λ id, keepId id ≠ Merge.toKeepId m) (DuplicateGroup.ids group)
    ∧ Partial.id (Merge.merged m)
      = BookmarkNode.id <$> findKept (Merge.toKeepId m) members
    ∧ (mergeTags = true →
       Partial.tags (Merge.merged m) = present (Some (arrayFromSet (allTags members))))
    ∧ (mergeCategories = true →
       get (Partial.categoryId (Merge.merged m))
       = orElse (mjoin (snd <$> list_find (λ c, truthyString c = true)
                                  (BookmarkNode.categoryId <$> members)))
                (findKept (Merge.toKeepId m) members ≫= BookmarkNode.categoryId))
    ∧ (mergeDescriptions = true →
       get (Partial.description (Merge.merged m))
       = orElse (head (sortByLengthDesc
                         ((λ b, default "" (orElse (BookmarkNode.description b) (Some "")))
                            <$> members)))
                (findKept (Merge.toKeepId m) members ≫= BookmarkNode.description)).
Proof.
  intros Hres Hlen. apply resolves_bookmarksInGroup in Hres. subst members.
  assert (∃ first, head (DuplicateGroup.ids group) = Some first) as [first Hfirst].
  { unfold bookmarksInGroup in Hlen.
    destruct (DuplicateGroup.ids group) as [|i ids]; [simpl in Hlen; lia|by exists i]. }
  unfold mergeGroup. rewrite (toKeepIdOf_head _ _ _ Hfirst).
  set (toKeepId := match mergeSelections !! DuplicateGroup.url group with
                   | Some id => _ | None => _ end).
  destruct (Nat.ltb_spec (length (bookmarksInGroup safeBookmarks group)) 2) as [?|_]; [lia|].
  eexists _, first. split; [done|]. split; [done|]. split; [done|]. split; [done|].
  cbn [Merge.merged Merge.toKeepId].
  assert (∀ A (v : option A),
            get (match v with Some a => present (Some a) | None => absent end) = v)
    as Hget by (intros A []; done).
  split; [|split; [|split]].
  - destruct mergeDescriptions, mergeCategories, mergeTags;
      by destruct (findKept toKeepId (bookmarksInGroup safeBookmarks group)).
  - intros ->. by destruct mergeDescriptions, mergeCategories.
  - intros ->.
    destruct mergeDescriptions, mergeTags;
      destruct (findKept toKeepId (bookmarksInGroup safeBookmarks group)); simpl;
      unfold Partial.ofValue; by rewrite ?Hget.
  - intros ->.
    destruct mergeCategories, mergeTags;
      destruct (findKept toKeepId (bookmarksInGroup safeBookmarks group)); simpl;
      unfold Partial.ofValue; by rewrite ?Hget.
Qed.

End merge.

(** X30 (merge tag union, where the merge keeps a member). Take a
    duplicate group of which at least two members are found, and whose url
    has a selection made for it or is not the name of an inherited object
    property. One turn of the loop of [handleMerge] with "merge tags" on
    keeps the selected id, or the first id of the group when the selection
    is empty or missing, adds the other ids of the group to the ids to
    delete, and leaves the store with, under the id kept, a node whose
    [tags] is a list without repetition that has for elements exactly the
    tags of the members found. *)
Theorem merge_tags_is_union_of_group_tags
    (mergeCategories mergeDescriptions : bool)
    (safeBookmarks members : list BookmarkNode.t)
    (mergeSelections : gmap string string) (group : BookmarkTable.DuplicateGroup.t)
    (now : ISOString) (allToDelete : list string) (s : Storage.t) :
  resolves safeBookmarks (BookmarkTable.DuplicateGroup.ids group) members →
  2 ≤ length members →
  is_Some (mergeSelections !! BookmarkTable.DuplicateGroup.url group)
  ∨ BookmarkTable.DuplicateGroup.url group ∉ BookmarkTable.objectPrototypeKeys →
  ∃ toKeepId first s' index kept tags,
    BookmarkTable.mergeStep true mergeCategories mergeDescriptions safeBookmarks
      mergeSelections now group (allToDelete, s)
    = BookmarkTable.MergeTurn.stored
        (allToDelete
         ++ filter (λ id, id ≠ toKeepId) (BookmarkTable.DuplicateGroup.ids group))
        s'
    ∧ head (BookmarkTable.DuplicateGroup.ids group) = Some first
    ∧ (∀ selected,
         mergeSelections !! BookmarkTable.DuplicateGroup.url group = Some selected →
         selected ≠ "" → toKeepId = selected)
    ∧ (mergeSelections !! BookmarkTable.DuplicateGroup.url group = Some ""
       ∨ mergeSelections !! BookmarkTable.DuplicateGroup.url group = None →
       toKeepId = first)
    ∧ BookmarkService.findIndex toKeepId (BookmarkService.getBookmarks s')
      = Some (index, kept)
    ∧ BookmarkNode.tags kept = Some tags
    ∧ NoDup tags
    ∧ ∀ t, t ∈ tags ↔ ∃ b, b ∈ members ∧ t ∈ default [] (BookmarkNode.tags b).
Proof.
  intros Hres Hlen Hown.
  destruct (mergeGroup_fields true mergeCategories mergeDescriptions safeBookmarks
              mergeSelections group members Hres Hlen)
    as (m & first & Hm & Hfirst & Hkeep & Hdel & Hid & Htags & _).
  specialize (Htags eq_refl).
  rewrite (toKeepIdOf_head _ _ _ Hfirst) in Hkeep. injection Hkeep as Hkeep.
  assert (∃ toKeepId,
            BookmarkTable.Merge.toKeepId m = BookmarkTable.keepId toKeepId
            ∧ (∀ selected,
                 mergeSelections !! BookmarkTable.DuplicateGroup.url group = Some selected →
                 selected ≠ "" → toKeepId = selected)
            ∧ (mergeSelections !! BookmarkTable.DuplicateGroup.url group = Some ""
               ∨ mergeSelections !! BookmarkTable.DuplicateGroup.url group = None →
               toKeepId = first)) as (toKeepId & HtoKeep & Hselected & Hdefault).
  { rewrite <- Hkeep.
    destruct (mergeSelections !! BookmarkTable.DuplicateGroup.url group) as [sel|].
    - destruct (truthyString (Some sel)) eqn:Htruthy.
      + exists sel. split; [done|]. split; [by intros ? [= ->]|].
        intros [[= ->]|?]; done.
      + exists first. split; [done|]. split; [|done].
        intros ? [= <-] Hne. apply truthyString_Some in Hne. congruence.
    - destruct Hown as [[? ?]|Hout]; [done|].
      rewrite bool_decide_eq_false_2 by done.
      exists first. split; [done|]. split; done. }
  pose (result := BookmarkService.updateBookmarkNode now toKeepId
                    (BookmarkTable.Merge.merged m) s).
  assert (BookmarkNode.id result.1 = toKeepId
          ∧ BookmarkNode.tags result.1 = get (Partial.tags (BookmarkTable.Merge.merged m)))
    as [Hrid Hrtags].
  { unfold result.
    destruct (BookmarkService.findIndex toKeepId (BookmarkService.getBookmarks s))
      as [[index old]|] eqn:Hfind.
    - rewrite (updateBookmarkNode_found _ _ _ _ _ _ Hfind). simpl.
      apply findIndex_Some in Hfind as [_ Hoid].
      split; [|by rewrite Htags]. rewrite Hid, HtoKeep. simpl.
      destruct (findById toKeepId members) as [kept|] eqn:Hkept; [|done]. simpl.
      by apply findById_firstWithId in Hkept as (_ & _ & ? & _).
    - by rewrite updateBookmarkNode_not_found by (by apply findIndex_None). }
  destruct (updateBookmarkNode_findIndex now toKeepId
              (BookmarkTable.Merge.merged m) s Hrid) as [index Hindex].
  exists toKeepId, first, result.2, index, result.1,
    (BookmarkTable.arrayFromSet (BookmarkTable.allTags members)).
  split.
  { unfold BookmarkTable.mergeStep. rewrite Hm, HtoKeep. cbn [fst snd].
    fold result. destruct result as [kept s']. cbn [snd]. f_equal. f_equal.
    rewrite Hdel, HtoKeep. apply list_filter_iff. intros id.
    split; [intros Hne ->; by apply Hne|intros Hne [= ->]; by apply Hne]. }
  split; [done|]. split; [done|]. split; [done|]. split; [exact Hindex|].
  split; [by rewrite Hrtags, Htags|]. split; [apply arrayFromSet_NoDup|].
  intros t. by rewrite arrayFromSet_elem_of, allTags_elem_of.
Qed.

Lemma merge_tags_is_union_of_group_tags_witness :
  let A := Sample.bookmarkNode "A" "https://ex.com" None ["x"; "y"] in
  let B := Sample.bookmarkNode "B" "https://ex.com" None ["y"; "z"] in
  let group := BookmarkTable.DuplicateGroup.mk "https://ex.com" ["A"; "B"] in
  (BookmarkTable.findDuplicates [A; B]).2 = [group]
  ∧ ∃ s' index kept tags,
      BookmarkTable.mergeStep true true true [A; B] ∅ 2000%Z group
        ([], Sample.storageOf [A; B])
      = BookmarkTable.MergeTurn.stored ["B"] s'
      ∧ BookmarkService.findIndex "A" (BookmarkService.getBookmarks s')
        = Some (index, kept)
      ∧ BookmarkNode.tags kept = Some tags
      ∧ ("x" ∈ tags ∧ "y" ∈ tags ∧ "z" ∈ tags)
      ∧ NoDup tags.
Proof.
  intros A B group. split; [reflexivity|].
  destruct (merge_tags_is_union_of_group_tags true true [A; B] [A; B] ∅ group 2000%Z []
              (Sample.storageOf [A; B]))
    as (toKeepId & first & s' & index & kept & tags
        & Hstep & Hfirst & _ & Hdefault & Hfind & Htags & Hnodup & Hunion).
  - by apply resolves_bookmarksInGroup.
  - simpl. lia.
  - right. apply (bool_decide_unpack _). by vm_compute.
  - assert (toKeepId = "A") as ->.
    { rewrite (Hdefault (or_intror eq_refl)). by injection Hfirst. }
    exists s', index, kept, tags. split; [exact Hstep|]. split; [exact Hfind|].
    split; [exact Htags|]. split; [|exact Hnodup].
    split; [|split]; apply Hunion.
    + exists A. split; [apply list_elem_of_here|]. simpl. apply list_elem_of_here.
    + exists A. split; [apply list_elem_of_here|]. simpl.
      apply list_elem_of_further, list_elem_of_here.
    + exists B. split; [apply list_elem_of_further, list_elem_of_here|]. simpl.
      apply list_elem_of_further, list_elem_of_here.
Defined.

(** C7 (merge tag union), where the code breaks it. Take a duplicate
    group of which at least two members are found, whose url is the name of
    a property every object inherits ([constructor], [toString], ...) and
    has no selection made for it. [mergeSelections[group.url]] is then the
    inherited value, so the id to keep is no id: one turn of the loop of
    [handleMerge] with "merge tags" on puts every id of the group, those of
    all the members found with them, among the ids to delete, updates no
    stored node, and hands the union of the members' tags to a stray node
    that has no id. No member is kept, against the comment of the loop:
    "keep the selected, merge fields, delete others". *)
Theorem merge_inherited_url_keeps_no_member
    (mergeCategories mergeDescriptions : bool)
    (safeBookmarks members : list BookmarkNode.t)
    (mergeSelections : gmap string string) (group : BookmarkTable.DuplicateGroup.t)
    (now : ISOString) (allToDelete : list string) (s : Storage.t) :
  resolves safeBookmarks (BookmarkTable.DuplicateGroup.ids group) members →
  2 ≤ length members →
  mergeSelections !! BookmarkTable.DuplicateGroup.url group = None →
  BookmarkTable.DuplicateGroup.url group ∈ BookmarkTable.objectPrototypeKeys →
  ∃ merged tags,
    BookmarkTable.mergeStep true mergeCategories mergeDescriptions safeBookmarks
      mergeSelections now group (allToDelete, s)
    = BookmarkTable.MergeTurn.strayNode
        (allToDelete ++ BookmarkTable.DuplicateGroup.ids group) merged s
    ∧ (∀ b, b ∈ members →
            BookmarkNode.id b ∈ allToDelete ++ BookmarkTable.DuplicateGroup.ids group)
    ∧ Partial.id merged = None
    ∧ Partial.tags merged = present (Some tags)
    ∧ NoDup tags
    ∧ ∀ t, t ∈ tags ↔ ∃ b, b ∈ members ∧ t ∈ default [] (BookmarkNode.tags b).
Proof.
  intros Hres Hlen Hsel Hin.
  destruct (mergeGroup_fields true mergeCategories mergeDescriptions safeBookmarks
              mergeSelections group members Hres Hlen)
    as (m & first & Hm & Hfirst & Hkeep & Hdel & Hid & Htags & _).
  specialize (Htags eq_refl).
  rewrite (toKeepIdOf_head _ _ _ Hfirst), Hsel, bool_decide_eq_true_2 in Hkeep by done.
  injection Hkeep as Hkeep.
  assert (BookmarkTable.Merge.toDelete m = BookmarkTable.DuplicateGroup.ids group) as Hall.
  { rewrite Hdel, <- Hkeep. apply filter_all, Forall_forall. by intros id _. }
  exists (BookmarkTable.Merge.merged m),
    (BookmarkTable.arrayFromSet (BookmarkTable.allTags members)).
  split.
  { unfold BookmarkTable.mergeStep. by rewrite Hm, <- Hkeep, Hall. }
  split.
  { intros b Hb. apply elem_of_app. right.
    clear -Hres Hb. induction Hres as [|id ids b' members Hfound _ IH|id ids members _ _ IH].
    - by apply elem_of_nil in Hb.
    - apply elem_of_cons in Hb as [->|Hb].
      + destruct Hfound as (_ & _ & <- & _). apply list_elem_of_here.
      + by apply list_elem_of_further, IH.
    - by apply list_elem_of_further, IH. }
  split; [by rewrite Hid, <- Hkeep|]. split; [done|].
  split; [apply arrayFromSet_NoDup|].
  intros t. by rewrite arrayFromSet_elem_of, allTags_elem_of.
Qed.

Lemma merge_inherited_url_keeps_no_member_witness :
  let A := Sample.bookmarkNode "A" "constructor" None ["x"; "y"] in
  let B := Sample.bookmarkNode "B" "constructor" None ["y"; "z"] in
  let group := BookmarkTable.DuplicateGroup.mk "constructor" ["A"; "B"] in
  (BookmarkTable.findDuplicates [A; B]).2 = [group]
  ∧ ∃ merged,
      BookmarkTable.mergeStep true true true [A; B] ∅ 2000%Z group
        ([], Sample.storageOf [A; B])
      = BookmarkTable.MergeTurn.strayNode ["A"; "B"] merged (Sample.storageOf [A; B])
      ∧ Partial.id merged = None.
Proof.
  intros A B group. split; [reflexivity|].
  destruct (merge_inherited_url_keeps_no_member true true [A; B] [A; B] ∅ group 2000%Z []
              (Sample.storageOf [A; B]))
    as (merged & tags & Hstep & _ & Hid & _).
  - by apply resolves_bookmarksInGroup.
  - simpl. lia.
  - reflexivity.
  - apply list_elem_of_here.
  - exists merged. split; [exact Hstep|exact Hid].
Defined.

(** ** The undo buffer *)

Section undo.
Import Popup.
Local Open Scope Z_scope.

(** No whole second is left exactly when no millisecond is. *)
Lemma ceilSeconds_nonpos (ms : Z) : ceilSeconds ms ≤ 0 ↔ ms ≤ 0.
Proof.
  unfold ceilSeconds. split; intros H.
  - destruct (Z.le_gt_cases ms 0) as [|Hpos]; [done|].
    assert (- ms / 1000 < 0); [|lia].
    apply Z.div_lt_upper_bound; lia.
  - assert (0 ≤ - ms / 1000); [|lia].
    apply Z.div_pos; lia.
Qed.

(** A firing of the interval at or after the expiry clears the buffer
    and the persisted record. *)
Lemma countdownTick_expired now st node expire :
  lastDeleted st = Some node → undoExpire st = Some expire → expire ≠ 0 →
  undoHovered st = false → expire ≤ now →
  countdownTick now st =
    mk (Storage.removeUndo (storage st)) None None (ceilSeconds (expire - now))
       false (undoPausedAt st).
Proof.
  intros Hnode Hexp Hne Hhov Hle. unfold countdownTick, countdownRunning.
  rewrite Hnode, Hexp, Hhov. rewrite bool_decide_eq_true_2 by eauto.
  rewrite (proj2 (truthyNumber_Some expire) Hne). simpl.
  destruct (Z.leb_spec (ceilSeconds (expire - now)) 0) as [|Hgt]; [done|].
  assert (ceilSeconds (expire - now) ≤ 0) by (apply ceilSeconds_nonpos; lia). lia.
Qed.

(** A firing before the expiry only refreshes the seconds shown. *)
Lemma countdownTick_pending now st node expire :
  lastDeleted st = Some node → undoExpire st = Some expire → expire ≠ 0 →
  undoHovered st = false → now < expire →
  countdownTick now st =
    mk (storage st) (Some node) (Some expire) (ceilSeconds (expire - now))
       false (undoPausedAt st).
Proof.
  intros Hnode Hexp Hne Hhov Hlt. unfold countdownTick, countdownRunning.
  rewrite Hnode, Hexp, Hhov. rewrite bool_decide_eq_true_2 by eauto.
  rewrite (proj2 (truthyNumber_Some expire) Hne). simpl.
  destruct (Z.leb_spec (ceilSeconds (expire - now)) 0) as [Hle|]; [|done].
  apply (proj1 (ceilSeconds_nonpos _)) in Hle. lia.
Qed.

(** While the pointer is over the toast no interval is set. *)
Lemma countdownTick_hovered now st :
  undoHovered st = true → countdownTick now st = st.
Proof.
  intros Hhov. unfold countdownTick, countdownRunning.
  by rewrite Hhov, andb_false_r.
Qed.

(** Deleting a node that no stored node names as its parent opens the
    buffer: the node and an expiry five seconds ahead, in the component
    and in the store. *)
Lemma handleDeleteWithUndo_pending fuel now bookmarks id bm silent confirmed st :
  findById id bookmarks = Some bm →
  silent = true ∨ confirmed = true →
  (∀ node, node ∈ BookmarkService.getBookmarks (storage st) →
           BookmarkNode.parentId node ≠ Some id) →
  ∃ st',
    handleDeleteWithUndo (S fuel) now bookmarks id silent confirmed st = Some st'
    ∧ lastDeleted st' = Some bm
    ∧ undoExpire st' = Some (now + 5000)
    ∧ undoHovered st' = undoHovered st
    ∧ Storage.lastDeletedBookmark (storage st') = Some bm
    ∧ Storage.undoExpire (storage st') = Some (now + 5000).
Proof.
  intros Hbm Hgo Hno. unfold handleDeleteWithUndo. rewrite Hbm.
  assert (negb silent && negb confirmed = false) as ->.
  { destruct Hgo as [-> | ->]; [done|by rewrite andb_false_r]. }
  rewrite deleteBookmarkNode_no_child by done. cbv zeta.
  case_bool_decide; eexists; (split; [done|]); done.
Qed.

End undo.

(** C8 (undo expiry), as the code has it. Take a pending single-delete
    buffer, with its node and a non-zero expiry, while the hover flag
    [undoHovered] is clear. A firing of the countdown at or after the expiry
    empties the buffer and removes [lastDeletedBookmark] and [undoExpire]
    from the store, the stored bookmarks staying as they are, and an undo
    after that does nothing; a firing before the expiry leaves the buffer
    pending. On mount, a persisted record whose expiry is not in the future
    is removed from the store and no buffer is set up. The flag is set by
    the pointer entering the undo toast and cleared by its leaving, and no
    other handler, timer or effect of the buffer changes it. *)
Theorem undo_buffer_expires_unless_hovered :
  (∀ (st : Popup.t) (node : BookmarkNode.t) (expire now : Z),
      Popup.lastDeleted st = Some node →
      Popup.undoExpire st = Some expire → expire ≠ 0%Z →
      Popup.undoHovered st = false →
      ((expire ≤ now)%Z →
       let st' := Popup.countdownTick now st in
       Popup.lastDeleted st' = None
       ∧ Popup.undoExpire st' = None
       ∧ Storage.lastDeletedBookmark (Popup.storage st') = None
       ∧ Storage.undoExpire (Popup.storage st') = None
       ∧ Storage.bookmarks (Popup.storage st') = Storage.bookmarks (Popup.storage st)
       ∧ ∀ later, Popup.handleUndo later st' = st')
      ∧ ((now < expire)%Z →
         Popup.lastDeleted (Popup.countdownTick now st) = Some node
         ∧ Popup.storage (Popup.countdownTick now st) = Popup.storage st))
  ∧ (∀ (s : Storage.t) (node : BookmarkNode.t) (expire now : Z),
      Storage.lastDeletedBookmark s = Some node →
      Storage.undoExpire s = Some expire → expire ≠ 0%Z →
      (expire ≤ now)%Z →
      let st' := Popup.rehydrate now (Popup.initial s) in
      Popup.lastDeleted st' = None
      ∧ Popup.undoExpire st' = None
      ∧ Storage.lastDeletedBookmark (Popup.storage st') = None
      ∧ Storage.undoExpire (Popup.storage st') = None
      ∧ Storage.bookmarks (Popup.storage st') = Storage.bookmarks s)
  ∧ (∀ (st : Popup.t) (now : Z),
      Popup.undoHovered (Popup.handleUndoMouseEnter now st) = true
      ∧ Popup.undoHovered (Popup.handleUndoMouseLeave now st) = false
      ∧ Popup.undoHovered (Popup.handleUndo now st) = Popup.undoHovered st
      ∧ Popup.undoHovered (Popup.countdownTick now st) = Popup.undoHovered st
      ∧ Popup.undoHovered (Popup.rehydrate now st) = Popup.undoHovered st
      ∧ ∀ fuel bookmarks id silent confirmed st',
          Popup.handleDeleteWithUndo fuel now bookmarks id silent confirmed st = Some st' →
          Popup.undoHovered st' = Popup.undoHovered st).
Proof.
  split; [|split].
  - intros st node expire now Hnode Hexp Hne Hhov. split.
    + intros Hle st'. unfold st'.
      rewrite (countdownTick_expired now st node expire) by done. done.
    + intros Hlt. by rewrite (countdownTick_pending now st node expire).
  - intros s node expire now Hnode Hexp Hne Hle st'. unfold st', Popup.rehydrate.
    simpl. rewrite Hnode, Hexp, (proj2 (truthyNumber_Some expire) Hne). simpl.
    destruct (Z.ltb_spec now expire); [lia|done].
  - intros st now. split; [done|]. split.
    { unfold Popup.handleUndoMouseLeave. by destruct (_ && _). }
    split.
    { unfold Popup.handleUndo. destruct (Popup.lastDeleted st); [|done].
      by destruct (BookmarkService.updateBookmarkNode _ _ _ _). }
    split.
    { unfold Popup.countdownTick. destruct (Popup.countdownRunning st); [|done].
      by destruct (_ <=? _)%Z. }
    split.
    { unfold Popup.rehydrate.
      destruct (Storage.lastDeletedBookmark _); [|done].
      destruct (truthyNumber _); [|done]. by destruct (_ <? _)%Z. }
    intros fuel bookmarks id silent confirmed st' Hrun.
    unfold Popup.handleDeleteWithUndo in Hrun.
    destruct (findById id bookmarks); [|by injection Hrun as <-].
    destruct (negb silent && negb confirmed); [by injection Hrun as <-|].
    cbv zeta in Hrun.
    destruct (BookmarkService.deleteBookmarkNode _ _ _) as [[? ?]|]; [|done].
    by injection Hrun as <-.
Qed.

Lemma undo_buffer_expires_unless_hovered_witness :
  let node := Sample.bookmarkNode "1" "https://ex.com" None [] in
  let s := Storage.mk (Some []) None (Some node) (Some 5000%Z)
             ["bookmarks"; "undoExpire"; "lastDeletedBookmark"] in
  let st := Popup.mk s (Some node) (Some 5000%Z) 5%Z false None in
  Popup.handleDeleteWithUndo 1 0%Z [node] "1" true false
    (Popup.initial (Sample.storageOf [node])) = Some st
  ∧ Popup.lastDeleted (Popup.countdownTick 4900%Z st) = Some node
  ∧ Popup.lastDeleted (Popup.countdownTick 5100%Z st) = None
  ∧ Storage.lastDeletedBookmark (Popup.storage (Popup.countdownTick 5100%Z st)) = None
  ∧ Storage.lastDeletedBookmark (Popup.storage (Popup.rehydrate 5100%Z (Popup.initial s)))
    = None.
Proof.
  intros node s st. split; [reflexivity|].
  destruct undo_buffer_expires_unless_hovered as (Htick & Hmount & _).
  destruct (Htick st node 5000%Z 4900%Z) as [_ Hbefore]; [reflexivity..|lia|reflexivity|].
  destruct (Htick st node 5000%Z 5100%Z) as [Hafter _]; [reflexivity..|lia|reflexivity|].
  destruct (Hmount s node 5000%Z 5100%Z) as (_ & _ & Hcleared & _);
    [reflexivity..|lia|lia|].
  destruct Hbefore as [Hpending _]; [lia|].
  destruct Hafter as (Hgone & _ & Hremoved & _); [lia|].
  repeat split; assumption.
Defined.

(** C8, as stated, fails for a buffer the pointer rests on. Deleted at 0,
    so with expiry 5000, and hovered from 1000 on, the node is still
    pending at 6000, the persisted record is still there, and an undo then
    puts the node back among the stored bookmarks. *)
Lemma undo_buffer_hovered_outlives_expiry :
  let node := Sample.bookmarkNode "1" "https://ex.com" None [] in
  let s := Storage.mk (Some []) None (Some node) (Some 5000%Z)
             ["bookmarks"; "undoExpire"; "lastDeletedBookmark"] in
  let pending := Popup.mk s (Some node) (Some 5000%Z) 5%Z false None in
  let hovered := Popup.handleUndoMouseEnter 1000%Z pending in
  let late := Popup.countdownTick 6000%Z hovered in
  Popup.handleDeleteWithUndo 1 0%Z [node] "1" true false
    (Popup.initial (Sample.storageOf [node])) = Some pending
  ∧ Popup.lastDeleted late = Some node
  ∧ Popup.undoExpire late = Some 5000%Z
  ∧ Storage.lastDeletedBookmark (Popup.storage late) = Some node
  ∧ BookmarkNode.id <$>
      BookmarkService.getBookmarks (Popup.storage (Popup.handleUndo 6001%Z late))
    = ["1"].
Proof. repeat split; reflexivity. Qed.

(** * Further properties of the repository *)

Section repository.
Import BookmarkService.

Lemma deleteBookmarkNode_returns_free fuel id s result :
  deleteBookmarkNode fuel id s = Some result → id ≠ "" →
  ∀ node, node ∈ getBookmarks s → BookmarkNode.parentId node ≠ Some id.
Proof.
  intros Hrun Hne node Hin Hp.
  by rewrite (deleteBookmarkNode_diverges fuel id s node Hin Hp Hne) in Hrun.
Qed.

(** What the recovery branch builds from a whole node. *)
Lemma restoredNode_ofNode now (snapshot : BookmarkNode.t) :
  restoredNode now (BookmarkNode.id snapshot) (Partial.ofNode snapshot)
  = restoredSnapshot now snapshot.
Proof.
  unfold restoredNode, restoredSnapshot, Partial.ofNode; simpl.
  by rewrite !get_ofValue.
Qed.

(** X1. [deleteBookmarkNode(id)] returns exactly when [id] is empty or no
    stored node has it for [parentId]; otherwise its loop goes on for
    ever. *)
Theorem deleteBookmarkNode_returns_iff (id : string) (s : Storage.t) :
  (∃ fuel result, deleteBookmarkNode fuel id s = Some result)
  ↔ (id = "" ∨ ∀ node, node ∈ getBookmarks s → BookmarkNode.parentId node ≠ Some id).
Proof.
  split.
  - intros (fuel & result & Hrun).
    destruct (decide (id = "")) as [|Hne]; [by left|right].
    by eapply deleteBookmarkNode_returns_free.
  - intros Hfree. exists 1. unfold deleteBookmarkNode.
    rewrite doWhile_no_child; [|].
    + destruct (negb _); eauto.
    + intros (node & p & Hin & Hp & Hne & Hel).
      apply elem_of_singleton in Hel as ->.
      destruct Hfree as [->|Hfree]; [done|]. by apply (Hfree node Hin).
Qed.

(** X2. A node added under an id that is new to the list, and that no
    stored node nor the draft has for [parentId], is removed again by
    [deleteBookmarkNode]: the call returns [true] and the stored list is the
    one there was before the add. *)
Theorem add_then_delete_restores_list
    (fuel : nat) (uuid : string) (now1 now2 : ISOString) (draft : NodeDraft.t)
    (s : Storage.t) :
  (∀ node, node ∈ getBookmarks s → BookmarkNode.id node ≠ uuid) →
  (∀ node, node ∈ getBookmarks s → BookmarkNode.parentId node ≠ Some uuid) →
  NodeDraft.parentId draft ≠ Some uuid →
  ∃ s',
    deleteBookmarkNode (S fuel) uuid (addBookmarkOrFolder uuid now1 now2 draft s).2
    = Some (true, s')
    ∧ getBookmarks s' = getBookmarks s.
Proof.
  intros Hfresh Hparent Hdraft.
  set (added := addBookmarkOrFolder uuid now1 now2 draft s).
  assert (getBookmarks added.2 = getBookmarks s ++ [added.1]) as Hlist by done.
  rewrite deleteBookmarkNode_no_child.
  2:{ rewrite Hlist. intros node Hin. apply elem_of_app in Hin as [Hin|Hin].
      - by apply Hparent.
      - apply list_elem_of_singleton in Hin as ->. done. }
  cbv zeta. rewrite bool_decide_eq_true_2.
  2:{ apply Exists_exists. exists added.1. split; [|done].
      rewrite Hlist. apply elem_of_app. right. apply list_elem_of_here. }
  eexists. split; [done|]. rewrite getBookmarks_setBookmarks, Hlist, filter_app.
  rewrite (filter_all _ (getBookmarks s)) by (by apply Forall_forall).
  rewrite filter_cons_False, filter_nil, app_nil_r; [done|]. by intros Hne.
Qed.

Lemma add_then_delete_restores_list_witness :
  ∃ s',
    deleteBookmarkNode 1 "u1"
      (addBookmarkOrFolder "u1" 2000%Z 2000%Z
         (NodeDraft.mk bookmark "Ex" (Some "https://ex.com") (Some "FolderB") None None None)
         (Sample.storageOf Sample.cascadeForest)).2
    = Some (true, s')
    ∧ getBookmarks s' = Sample.cascadeForest.
Proof.
  apply (add_then_delete_restores_list 0 "u1" 2000%Z 2000%Z
           (NodeDraft.mk bookmark "Ex" (Some "https://ex.com") (Some "FolderB") None None None)
           (Sample.storageOf Sample.cascadeForest)).
  - intros node Hin. unfold getBookmarks, Sample.storageOf, Sample.cascadeForest in Hin.
    simpl in Hin. rewrite !elem_of_cons, elem_of_nil in Hin.
    destruct Hin as [->|[->|[->|[->|[]]]]]; simpl; discriminate.
  - intros node Hin. unfold getBookmarks, Sample.storageOf, Sample.cascadeForest in Hin.
    simpl in Hin. rewrite !elem_of_cons, elem_of_nil in Hin.
    destruct Hin as [->|[->|[->|[->|[]]]]]; simpl; discriminate.
  - simpl. discriminate.
Defined.

(** X3. [updateBookmarkNode(id, updates)] writes the [bookmarks] key once
    and nothing else; every stored node with another id stays where it is,
    as it is; the list keeps its length when [id] is found and grows by the
    one node returned when it is not. *)
Theorem update_keeps_other_nodes
    (now : ISOString) (id : string) (updates : Partial.t) (s : Storage.t) :
  let result := updateBookmarkNode now id updates s in
  (∀ i node, getBookmarks s !! i = Some node → BookmarkNode.id node ≠ id →
             getBookmarks result.2 !! i = Some node)
  ∧ (is_Some (findIndex id (getBookmarks s)) →
     length (getBookmarks result.2) = length (getBookmarks s))
  ∧ (findIndex id (getBookmarks s) = None →
     getBookmarks result.2 = getBookmarks s ++ [result.1])
  ∧ Storage.sets result.2 = Storage.STORAGE_KEY :: Storage.sets s
  ∧ Storage.bookmark_categories result.2 = Storage.bookmark_categories s
  ∧ Storage.lastDeletedBookmark result.2 = Storage.lastDeletedBookmark s
  ∧ Storage.undoExpire result.2 = Storage.undoExpire s.
Proof.
  intros result. unfold result.
  destruct (findIndex id (getBookmarks s)) as [[index old]|] eqn:Hfind.
  - rewrite (updateBookmarkNode_found _ _ _ _ _ _ Hfind). cbn [fst snd].
    rewrite getBookmarks_setBookmarks.
    apply findIndex_Some in Hfind as [Hold Hid].
    split; [|split; [by rewrite length_insert|split; [done|done]]].
    intros i node Hi Hne. rewrite list_lookup_insert_ne; [done|].
    intros ->. rewrite Hold in Hi. by simplify_eq.
  - pose proof (proj1 (findIndex_None _ _) Hfind) as Hnone.
    rewrite updateBookmarkNode_not_found by done. cbn [fst snd].
    rewrite getBookmarks_setBookmarks.
    split; [|split; [by intros [? ?]|done]].
    intros i node Hi _. by apply lookup_app_l_Some.
Qed.

(** X4. Ids that are distinct stay distinct: under [updateBookmarkNode]
    when [updates] carries no [id] or the [id] of the call, and under
    [deleteBookmarkNode] whenever it returns. *)
Theorem update_delete_keep_ids_distinct (s : Storage.t) :
  NoDup (BookmarkNode.id <$> getBookmarks s) →
  (∀ now id updates,
      Partial.id updates = None ∨ Partial.id updates = Some id →
      NoDup (BookmarkNode.id <$> getBookmarks (updateBookmarkNode now id updates s).2))
  ∧ (∀ fuel id removed s',
      deleteBookmarkNode fuel id s = Some (removed, s') →
      NoDup (BookmarkNode.id <$> getBookmarks s')).
Proof.
  intros Hnd. split.
  - intros now id updates Hid.
    destruct (findIndex id (getBookmarks s)) as [[index old]|] eqn:Hfind.
    + rewrite (updateBookmarkNode_found _ _ _ _ _ _ Hfind). cbn [fst snd].
      rewrite getBookmarks_setBookmarks, list_fmap_insert.
      apply findIndex_Some in Hfind as [Hold Hoid].
      rewrite list_insert_id; [done|].
      rewrite list_lookup_fmap, Hold. simpl.
      by destruct Hid as [-> | ->]; simpl; rewrite ?Hoid.
    + pose proof (proj1 (findIndex_None _ _) Hfind) as Hnone.
      rewrite updateBookmarkNode_not_found by done. cbn [fst snd].
      rewrite getBookmarks_setBookmarks, fmap_app. apply NoDup_app.
      split; [done|]. split; [|apply NoDup_singleton].
      intros x Hx Hx'. apply list_elem_of_singleton in Hx'. simpl in Hx'. subst x.
      apply list_elem_of_fmap in Hx as (node & Heq & Hin). by apply (Hnone node Hin).
  - intros fuel id removed s'. unfold deleteBookmarkNode.
    destruct (doWhile fuel (getBookmarks s) {[id]}) as [toDelete|]; [|done].
    cbv zeta. destruct (negb (negb _)); intros [= <- <-]; [done|].
    rewrite getBookmarks_setBookmarks.
    eapply sublist_NoDup; [exact Hnd|apply fmap_sublist, sublist_filter].
Qed.

Lemma update_delete_keep_ids_distinct_witness :
  NoDup (BookmarkNode.id <$>
           getBookmarks
             (updateBookmarkNode 2000%Z "FolderB"
                (Partial.mk None absent (present (Some "Work")) absent absent absent
                   absent absent absent absent absent)
                (Sample.storageOf Sample.cascadeForest)).2).
Proof.
  apply (proj1 (update_delete_keep_ids_distinct (Sample.storageOf Sample.cascadeForest)
                  ltac:(vm_compute; repeat constructor;
                        rewrite ?elem_of_cons, elem_of_nil;
                        intros H; repeat destruct H as [H|H]; discriminate || done))).
  by left.
Defined.

End repository.

(** ** Categories *)

Section categories.
Import BookmarkService.

(** X5. [updateBookmarkCategory(bookmarkId, categoryId)] on a stored array
    writes a list of the same length in which every node with that id has
    the new [categoryId] and is otherwise as it was, [lastAccessed]
    included, and every other node is as it was. *)
Theorem updateBookmarkCategory_sets_only_categoryId
    (bookmarkId : string) (categoryId : option string) (s : Storage.t)
    (bookmarks : list BookmarkNode.t) :
  Storage.bookmarks s = Some bookmarks →
  let updated := getBookmarks (updateBookmarkCategory bookmarkId categoryId s) in
  length updated = length bookmarks
  ∧ (∀ i node, bookmarks !! i = Some node →
       BookmarkNode.id node ≠ bookmarkId → updated !! i = Some node)
  ∧ (∀ i node, bookmarks !! i = Some node →
       BookmarkNode.id node = bookmarkId →
       ∃ node', updated !! i = Some node'
         ∧ BookmarkNode.categoryId node' = categoryId
         ∧ BookmarkNode.lastAccessed node' = BookmarkNode.lastAccessed node
         ∧ withCategory (BookmarkNode.categoryId node) node' = node).
Proof.
  intros Hstored updated. unfold updated, updateBookmarkCategory.
  rewrite getBookmarks_setBookmarks. unfold getBookmarks. rewrite Hstored. simpl.
  split; [by rewrite length_fmap|]. split.
  - intros i node Hi Hne. rewrite list_lookup_fmap, Hi. simpl. by rewrite decide_False.
  - intros i node Hi Heq. rewrite list_lookup_fmap, Hi. simpl. rewrite decide_True by done.
    eexists. split; [done|]. by destruct node.
Qed.

Lemma updateBookmarkCategory_sets_only_categoryId_witness :
  let b := Sample.bookmarkNode "b" "https://ex.com" None ["x"] in
  getBookmarks (updateBookmarkCategory "b" (Some "work") (Sample.storageOf [b]))
  = [withCategory (Some "work") b].
Proof.
  intros b.
  destruct (updateBookmarkCategory_sets_only_categoryId "b" (Some "work")
              (Sample.storageOf [b]) [b] eq_refl) as (_ & _ & Hset).
  destruct (Hset 0 b eq_refl eq_refl) as (node' & Hnode' & _). reflexivity.
Defined.

(** X6. Over a stored array of categories, [updateCategory] on an id
    that no category has returns [null] and leaves the store alone, without
    a write. On an id that the category at [index] is the first to have, it
    returns that category with every field that [updates] holds replaced by
    the value held and every other field as it was, and stores the array
    with this category at [index] and the others as they were; the
    bookmarks are not touched. *)
Theorem updateCategory_missing_or_merged
    (id : string) (updates : PartialCategory.t) (s : Storage.t)
    (categories : list BookmarkCategory.t) :
  Storage.bookmark_categories s = Some categories →
  let result := updateCategory id updates s in
  ((∀ cat, cat ∈ categories → BookmarkCategory.id cat ≠ id) →
   result = (None, s))
  ∧ (∀ index old,
       categories !! index = Some old → BookmarkCategory.id old = id →
       (∀ j cat, categories !! j = Some cat → j < index → BookmarkCategory.id cat ≠ id) →
       ∃ updated,
         result.1 = Some updated
         ∧ ((∀ v, PartialCategory.id updates = Some v → BookmarkCategory.id updated = v)
            ∧ (PartialCategory.id updates = None → BookmarkCategory.id updated = id))
         ∧ ((∀ v, PartialCategory.name updates = Some v → BookmarkCategory.name updated = v)
            ∧ (PartialCategory.name updates = None →
               BookmarkCategory.name updated = BookmarkCategory.name old))
         ∧ ((∀ v, PartialCategory.color updates = Some v → BookmarkCategory.color updated = v)
            ∧ (PartialCategory.color updates = None →
               BookmarkCategory.color updated = BookmarkCategory.color old))
         ∧ ((∀ v, PartialCategory.icon updates = Some v → BookmarkCategory.icon updated = v)
            ∧ (PartialCategory.icon updates = None →
               BookmarkCategory.icon updated = BookmarkCategory.icon old))
         ∧ Storage.bookmark_categories result.2 = Some (<[index := updated]> categories)
         ∧ Storage.sets result.2 = Storage.CATEGORY_KEY :: Storage.sets s
         ∧ Storage.bookmarks result.2 = Storage.bookmarks s).
Proof.
  intros Hstored result.
  assert (getCategories s = categories) as Hget
    by (unfold getCategories; by rewrite Hstored).
  unfold result, updateCategory. rewrite Hget. split.
  - intros Hnone.
    assert (findCategoryIndex id categories = None) as ->; [|done].
    unfold findCategoryIndex. by rewrite list_find_None, Forall_forall.
  - intros index old Hold Hid Hfirst.
    assert (findCategoryIndex id categories = Some (index, old)) as ->.
    { unfold findCategoryIndex. apply list_find_Some. split; [done|]. split; [done|].
      intros j cat Hj Hlt. by eapply Hfirst. }
    cbn [fst snd]. eexists. split; [done|].
    unfold updatedCategory. cbn [BookmarkCategory.id BookmarkCategory.name
      BookmarkCategory.color BookmarkCategory.icon].
    repeat split; try done; try (by intros v ->); by intros ->.
Qed.

Lemma updateCategory_missing_or_merged_witness :
  let work := BookmarkCategory.mk "c1" "Work" "#ff0000" "briefcase" in
  let home := BookmarkCategory.mk "c2" "Home" "#00ff00" "house" in
  let s := Storage.setCategories [work; home] Sample.emptyStorage in
  let result :=
    updateCategory "c2" (PartialCategory.mk None (Some "Family") None None) s in
  ∃ updated,
    result.1 = Some updated
    ∧ BookmarkCategory.name updated = "Family"
    ∧ BookmarkCategory.color updated = "#00ff00"
    ∧ Storage.bookmark_categories result.2 = Some [work; updated].
Proof.
  intros work home s result.
  destruct (proj2 (updateCategory_missing_or_merged "c2"
                     (PartialCategory.mk None (Some "Family") None None) s
                     [work; home] eq_refl) 1 home eq_refl eq_refl)
    as (updated & Hret & _ & [Hname _] & [_ Hcolor] & _ & Hstored & _).
  - intros j cat Hj Hlt. assert (j = 0) as -> by lia. by injection Hj as <-.
  - exists updated. split; [exact Hret|]. split; [by apply Hname|].
    split; [by apply Hcolor|]. exact Hstored.
Defined.

(** X7. A category added under an id that is new to the stored categories
    is found under the id returned, and [deleteCategory] of that id brings
    back the categories there were. *)
Theorem addCategory_then_deleteCategory
    (uuid : string) (category : CategoryDraft.t) (s : Storage.t) :
  (∀ cat, cat ∈ getCategories s → BookmarkCategory.id cat ≠ uuid) →
  let added := addCategory uuid category s in
  added.1 = uuid
  ∧ findCategoryIndex uuid (getCategories added.2)
    = Some (length (getCategories s),
            BookmarkCategory.mk uuid (CategoryDraft.name category)
              (CategoryDraft.color category) (CategoryDraft.icon category))
  ∧ getCategories (deleteCategory added.1 added.2) = getCategories s
  ∧ Storage.bookmarks (deleteCategory added.1 added.2) = Storage.bookmarks s.
Proof.
  intros Hfresh added. split; [done|]. split.
  - unfold findCategoryIndex. apply list_find_app_Some. right.
    split; [lia|]. split; [by rewrite list_find_None, Forall_forall|].
    rewrite Nat.sub_diag. simpl. by rewrite decide_True.
  - split; [|done].
    change (filter (λ cat, BookmarkCategory.id cat ≠ uuid)
              (getCategories s
                 ++ [BookmarkCategory.mk uuid (CategoryDraft.name category)
                       (CategoryDraft.color category) (CategoryDraft.icon category)])
            = getCategories s).
    rewrite filter_app, (filter_all _ (getCategories s)) by (by apply Forall_forall).
    rewrite filter_cons_False, filter_nil, app_nil_r; [done|]. by intros Hne.
Qed.

Lemma addCategory_then_deleteCategory_witness :
  let s :=
    Storage.mk None (Some [BookmarkCategory.mk "work" "Work" "#ff0000" "W"])
      None None [] in
  getCategories
    (deleteCategory "home" (addCategory "home" (CategoryDraft.mk "Home" "#00ff00" "H") s).2)
  = getCategories s.
Proof.
  intros s.
  apply (addCategory_then_deleteCategory "home" (CategoryDraft.mk "Home" "#00ff00" "H") s).
  intros cat Hin. apply list_elem_of_singleton in Hin as ->. simpl. discriminate.
Defined.

(** X8. [deleteCategory(id)] always writes, also when no category has the
    id; it keeps the other categories in their order, removes every category
    of that id, and a second call changes the categories no further. *)
Theorem deleteCategory_filters_and_is_idempotent (id : string) (s : Storage.t) :
  let once := deleteCategory id s in
  getCategories once = filter (λ cat, BookmarkCategory.id cat ≠ id) (getCategories s)
  ∧ Storage.sets once = Storage.CATEGORY_KEY :: Storage.sets s
  ∧ getCategories (deleteCategory id once) = getCategories once
  ∧ ((∀ cat, cat ∈ getCategories s → BookmarkCategory.id cat ≠ id) →
     getCategories once = getCategories s).
Proof.
  intros once. split; [done|]. split; [done|]. split.
  - change (filter (λ cat, BookmarkCategory.id cat ≠ id)
              (filter (λ cat, BookmarkCategory.id cat ≠ id) (getCategories s))
            = filter (λ cat, BookmarkCategory.id cat ≠ id) (getCategories s)).
    apply filter_all, Forall_forall. intros cat Hcat.
    by apply list_elem_of_filter in Hcat as [? _].
  - intros Hnone.
    change (filter (λ cat, BookmarkCategory.id cat ≠ id) (getCategories s)
            = getCategories s).
    by apply filter_all, Forall_forall.
Qed.

(** X28. The list the category hook holds follows the stored categories: if
    the two are equal, they are equal again after the hook's [addCategory]
    and after its [deleteCategory]. *)
Theorem category_hook_follows_store (st : UseCategories.t) :
  UseCategories.categories st = getCategories (UseCategories.storage st) →
  (∀ uuid category,
      let result := UseCategories.addCategory uuid category st in
      UseCategories.categories result.2
      = getCategories (UseCategories.storage result.2))
  ∧ (∀ id,
      let result := UseCategories.deleteCategory id st in
      UseCategories.categories result.2
      = getCategories (UseCategories.storage result.2)).
Proof.
  intros Hsync. split.
  - intros uuid category result. unfold result, UseCategories.addCategory, addCategory.
    cbn [fst snd UseCategories.categories UseCategories.storage].
    rewrite Hsync. reflexivity.
  - intros id result. unfold result, UseCategories.deleteCategory, deleteCategory.
    cbn [fst snd UseCategories.categories UseCategories.storage].
    rewrite Hsync. reflexivity.
Qed.

Lemma category_hook_follows_store_witness :
  let work := BookmarkCategory.mk "c1" "Work" "#ff0000" "briefcase" in
  let st := UseCategories.mk [work] (Storage.setCategories [work] Sample.emptyStorage) in
  UseCategories.categories (UseCategories.deleteCategory "c1" st).2
  = getCategories (UseCategories.storage (UseCategories.deleteCategory "c1" st).2).
Proof.
  intros work st.
  apply (proj2 (category_hook_follows_store st eq_refl) "c1").
Defined.

End categories.

(** ** The useBookmarks hook *)

Section hook.
Import BookmarkService.

Lemma filter_ext_in {A} (P Q : A → Prop)
    `{!∀ x, Decision (P x), !∀ x, Decision (Q x)} (l : list A) :
  (∀ x, x ∈ l → (P x ↔ Q x)) → filter P l = filter Q l.
Proof.
  induction l as [|x l IH]; intros Hext; [done|].
  rewrite !filter_cons.
  rewrite IH by (intros y Hy; apply Hext; by apply list_elem_of_further).
  pose proof (Hext x (list_elem_of_here _ _)) as Hx.
  destruct (decide (P x)), (decide (Q x)); tauto || done.
Qed.

(** With distinct ids, replacing every node of an id is replacing the
    first one. *)
Lemma map_replace_is_insert (l : list BookmarkNode.t) (id : string)
    (index : nat) (old updated : BookmarkNode.t) :
  NoDup (BookmarkNode.id <$> l) →
  l !! index = Some old → BookmarkNode.id old = id →
  (λ b, if decide (BookmarkNode.id b = id) then updated else b) <$> l
  = <[index := updated]> l.
Proof.
  intros Hnd Hold Hid. apply list_eq. intros i.
  rewrite list_lookup_fmap.
  destruct (decide (i = index)) as [->|Hne].
  - rewrite Hold, list_lookup_insert_eq by (by eapply lookup_lt_Some).
    simpl. by rewrite decide_True.
  - rewrite list_lookup_insert_ne by done.
    destruct (l !! i) as [b|] eqn:Hb; [|done]. simpl.
    rewrite decide_False; [done|]. intros Hbid. apply Hne.
    apply (NoDup_lookup _ i index (BookmarkNode.id b) Hnd);
      rewrite list_lookup_fmap.
    + by rewrite Hb.
    + rewrite Hold. simpl. congruence.
Qed.

(** X9. The list the hook holds follows the stored list. If the two are
    equal, they are equal again after [addBookmarkOrFolder]; after
    [updateBookmarkNode], provided the ids are distinct; and after
    [deleteBookmarkNode] of a non-empty id, whenever it returns. *)
Theorem hook_list_follows_store (st : UseBookmarks.t) :
  UseBookmarks.bookmarks st = getBookmarks (UseBookmarks.storage st) →
  (∀ uuid now1 now2 node,
      let result := UseBookmarks.addBookmarkOrFolder uuid now1 now2 node st in
      UseBookmarks.bookmarks result.2 = getBookmarks (UseBookmarks.storage result.2))
  ∧ (NoDup (BookmarkNode.id <$> UseBookmarks.bookmarks st) →
     ∀ now id updates,
      let result := UseBookmarks.updateBookmarkNode now id updates st in
      UseBookmarks.bookmarks result.2 = getBookmarks (UseBookmarks.storage result.2))
  ∧ (∀ fuel id success st',
      id ≠ "" →
      UseBookmarks.deleteBookmarkNode fuel id st = Some (success, st') →
      UseBookmarks.bookmarks st' = getBookmarks (UseBookmarks.storage st')).
Proof.
  intros Hsync. split; [|split].
  - intros uuid now1 now2 node result. unfold result, UseBookmarks.addBookmarkOrFolder.
    rewrite addBookmarkOrFolder_eq. cbv zeta. cbn [fst snd UseBookmarks.bookmarks
      UseBookmarks.storage]. by rewrite getBookmarks_setBookmarks, Hsync.
  - intros Hnd now id updates result. unfold result, UseBookmarks.updateBookmarkNode.
    rewrite Hsync in Hnd |- *.
    destruct (findIndex id (getBookmarks (UseBookmarks.storage st)))
      as [[index old]|] eqn:Hfind.
    + rewrite (updateBookmarkNode_found _ _ _ _ _ _ Hfind).
      cbn [fst snd UseBookmarks.bookmarks UseBookmarks.storage].
      rewrite getBookmarks_setBookmarks.
      apply findIndex_Some in Hfind as [Hold Hid].
      rewrite bool_decide_eq_true_2.
      2:{ apply Exists_exists. exists old. split; [|done]. by eapply list_elem_of_lookup_2. }
      by apply (map_replace_is_insert _ id index old).
    + pose proof (proj1 (findIndex_None _ _) Hfind) as Hnone.
      rewrite updateBookmarkNode_not_found by done.
      cbn [fst snd UseBookmarks.bookmarks UseBookmarks.storage].
      rewrite getBookmarks_setBookmarks.
      rewrite bool_decide_eq_false_2; [done|].
      intros Hex. apply Exists_exists in Hex as (b & Hb & Hbid). by apply (Hnone b Hb).
  - intros fuel id success st' Hne Hrun. unfold UseBookmarks.deleteBookmarkNode in Hrun.
    destruct (deleteBookmarkNode fuel id (UseBookmarks.storage st))
      as [[ok s']|] eqn:Hdel; [|done].
    injection Hrun as <- <-. cbn [UseBookmarks.bookmarks UseBookmarks.storage].
    assert (∀ node, node ∈ getBookmarks (UseBookmarks.storage st) →
                    BookmarkNode.parentId node ≠ Some id) as Hfree.
    { by eapply deleteBookmarkNode_returns_free. }
    destruct fuel as [|fuel]; [done|].
    rewrite (deleteBookmarkNode_no_child fuel id _ Hfree) in Hdel. cbv zeta in Hdel.
    case_bool_decide; injection Hdel as <- <-; [|done].
    rewrite getBookmarks_setBookmarks, Hsync.
    apply filter_ext_in. intros b Hin. split; [by intros [? ?]|].
    intros Hb. split; [done|]. by apply Hfree.
Qed.

Lemma hook_list_follows_store_witness :
  let f := Sample.folderNode "f" None in
  let st := UseBookmarks.mk [f] (Sample.storageOf [f]) in
  let result := UseBookmarks.updateBookmarkNode 5000%Z "f" Partial.empty st in
  UseBookmarks.bookmarks result.2 = getBookmarks (UseBookmarks.storage result.2).
Proof.
  intros f st.
  apply (proj1 (proj2 (hook_list_follows_store st eq_refl))).
  apply NoDup_singleton.
Defined.

End hook.

(** ** The undo buffers *)

Section buffers.
Import Popup.
Local Open Scope Z_scope.

(** The seconds shown are the time left, rounded up to whole seconds. *)
Lemma ceilSeconds_spec (ms : Z) :
  1000 * (ceilSeconds ms - 1) < ms ≤ 1000 * ceilSeconds ms.
Proof.
  unfold ceilSeconds.
  pose proof (Z.div_mod (- ms) 1000 ltac:(lia)) as Hdm.
  pose proof (Z.mod_pos_bound (- ms) 1000 ltac:(lia)) as Hmod.
  lia.
Qed.

(** X10. Resting the pointer on the undo toast stops the countdown, and
    taking it away moves the expiry on by the time the pointer stayed: the
    time left when it leaves is the time that was left when it came, in the
    component and in the persisted record. Only a pointer that comes at the
    very millisecond of the expiry leaves the expiry where it was. *)
Theorem hover_moves_expiry_by_its_duration
    (st : Popup.t) (node : BookmarkNode.t) (expire entered left : Z) :
  lastDeleted st = Some node →
  undoExpire st = Some expire → expire ≠ 0 →
  let hovered := handleUndoMouseEnter entered st in
  let resumed := handleUndoMouseLeave left hovered in
  (∀ now, countdownTick now hovered = hovered)
  ∧ lastDeleted resumed = Some node
  ∧ undoHovered resumed = false
  ∧ (expire ≠ entered →
     undoExpire resumed = Some (expire + (left - entered))
     ∧ Storage.undoExpire (storage resumed) = Some (expire + (left - entered))
     ∧ undoSeconds resumed = ceilSeconds (expire - entered)
     ∧ undoPausedAt resumed = None)
  ∧ (expire = entered →
     undoExpire resumed = Some expire ∧ storage resumed = storage st).
Proof.
  intros Hnode Hexp Hne hovered resumed.
  split; [intros now; by apply countdownTick_hovered|].
  unfold resumed, hovered, handleUndoMouseLeave, handleUndoMouseEnter. simpl.
  rewrite Hexp, Hnode, (proj2 (truthyNumber_Some expire) Hne). simpl.
  rewrite andb_true_r.
  destruct (truthyNumber (Some (expire - entered))) eqn:Hpaused; simpl.
  - apply truthyNumber_Some in Hpaused.
    split; [done|]. split; [done|]. split; [|intros ->; lia].
    intros _. repeat split; f_equal; lia.
  - assert (expire - entered = 0) as Hzero.
    { destruct (decide (expire - entered = 0)) as [|Hnz]; [done|].
      apply truthyNumber_Some in Hnz. congruence. }
    split; [done|]. split; [done|]. split; [intros ?; lia|done].
Qed.

Lemma hover_moves_expiry_by_its_duration_witness :
  let node := Sample.bookmarkNode "1" "https://ex.com" None [] in
  let s := Storage.mk (Some []) None (Some node) (Some 5000) [] in
  let st := Popup.mk s (Some node) (Some 5000) 5 false None in
  undoExpire (handleUndoMouseLeave 9000 (handleUndoMouseEnter 1000 st)) = Some 13000.
Proof.
  intros node s st.
  destruct (hover_moves_expiry_by_its_duration st node 5000 1000 9000)
    as (_ & _ & _ & Hmoved & _); [reflexivity|reflexivity|lia|].
  destruct Hmoved as (Hexp & _); [lia|]. exact Hexp.
Defined.

(** X11. While a single delete is pending, a firing of the countdown before
    the expiry shows the time left rounded up to a whole second, so never
    less than 1, and changes nothing else. *)
Theorem countdown_shows_seconds_left
    (st : Popup.t) (node : BookmarkNode.t) (expire now : Z) :
  lastDeleted st = Some node →
  undoExpire st = Some expire → expire ≠ 0 →
  undoHovered st = false → now < expire →
  let st' := countdownTick now st in
  1000 * (undoSeconds st' - 1) < expire - now ≤ 1000 * undoSeconds st'
  ∧ 1 ≤ undoSeconds st'
  ∧ (expire ≤ now + 5000 → undoSeconds st' ≤ 5)
  ∧ storage st' = storage st
  ∧ lastDeleted st' = Some node
  ∧ undoExpire st' = Some expire.
Proof.
  intros Hnode Hexp Hne Hhov Hlt st'. unfold st'.
  rewrite (countdownTick_pending now st node expire) by done. simpl.
  pose proof (ceilSeconds_spec (expire - now)).
  repeat split; try done; lia.
Qed.

Lemma countdown_shows_seconds_left_witness :
  let node := Sample.bookmarkNode "1" "https://ex.com" None [] in
  let s := Storage.mk (Some []) None (Some node) (Some 5000) [] in
  let st := Popup.mk s (Some node) (Some 5000) 5 false None in
  undoSeconds (countdownTick 3999 st) = 2 ∧ 1 ≤ undoSeconds (countdownTick 4999 st).
Proof.
  intros node s st. split; [reflexivity|].
  apply (countdown_shows_seconds_left st node 5000 4999); try reflexivity; lia.
Defined.

(** X12. What [handleDeleteWithUndo] leaves pending survives a reload: a
    popup mounted over the store before the expiry holds the same node and
    the same expiry, and leaves the store as it is. *)
Theorem pending_delete_survives_reload
    (fuel : nat) (deleted reloaded : Z) (bookmarks : list BookmarkNode.t)
    (id : string) (silent confirmed : bool) (bm : BookmarkNode.t)
    (st st' : Popup.t) :
  findById id bookmarks = Some bm →
  silent = true ∨ confirmed = true →
  deleted + 5000 ≠ 0 →
  handleDeleteWithUndo fuel deleted bookmarks id silent confirmed st = Some st' →
  reloaded < deleted + 5000 →
  let again := rehydrate reloaded (initial (storage st')) in
  lastDeleted again = Some bm
  ∧ undoExpire again = Some (deleted + 5000)
  ∧ undoSeconds again = ceilSeconds (deleted + 5000 - reloaded)
  ∧ storage again = storage st'.
Proof.
  intros Hbm Hgo Hne Hrun Hlt again.
  unfold handleDeleteWithUndo in Hrun. rewrite Hbm in Hrun.
  assert (negb silent && negb confirmed = false) as Hask.
  { destruct Hgo as [-> | ->]; [done|by rewrite andb_false_r]. }
  rewrite Hask in Hrun. cbv zeta in Hrun.
  destruct (BookmarkService.deleteBookmarkNode fuel id _) as [[removed s2]|] eqn:Hdel;
    [|done].
  injection Hrun as <-.
  assert (Storage.lastDeletedBookmark s2 = Some bm
          ∧ Storage.undoExpire s2 = Some (deleted + 5000)) as [Hsaved Hexpire].
  { unfold BookmarkService.deleteBookmarkNode in Hdel.
    destruct (BookmarkService.doWhile _ _ _); [|done]. cbv zeta in Hdel.
    destruct (negb (negb _)); by injection Hdel as <- <-. }
  unfold again, rehydrate. simpl.
  rewrite Hsaved, Hexpire, (proj2 (truthyNumber_Some _) Hne). simpl.
  destruct (Z.ltb_spec reloaded (deleted + 5000)); [done|lia].
Qed.

Lemma pending_delete_survives_reload_witness :
  let node := Sample.bookmarkNode "1" "https://ex.com" None [] in
  ∃ st',
    handleDeleteWithUndo 1 0 [node] "1" true false
      (initial (Sample.storageOf [node])) = Some st'
    ∧ lastDeleted (rehydrate 3000 (initial (storage st'))) = Some node.
Proof.
  intros node. eexists. split; [reflexivity|].
  refine (proj1 (pending_delete_survives_reload 1 0 3000 [node] "1" true false node
                   (initial (Sample.storageOf [node])) _
                   eq_refl (or_introl eq_refl) _ eq_refl _)); lia.
Defined.

Lemma handleUndo_Some (now : ISOString) (st : Popup.t) (node : BookmarkNode.t) :
  lastDeleted st = Some node →
  handleUndo now st =
    mk (Storage.removeUndo
          (BookmarkService.updateBookmarkNode now (BookmarkNode.id node)
             (Partial.ofNode node) (storage st)).2)
       None None (undoSeconds st) (undoHovered st) (undoPausedAt st).
Proof.
  intros Hnode. unfold handleUndo. rewrite Hnode.
  by destruct (BookmarkService.updateBookmarkNode _ _ _ _).
Qed.

(** X13. A delete followed by Undo does not put the list back as it was:
    the node comes back at the end of the stored list, after the nodes that
    stayed, with [lastAccessed] set by the restore; the buffer and its
    persisted record are empty again. *)
Theorem delete_then_undo_appends_node
    (fuel : nat) (deleted undone : Z) (bookmarks : list BookmarkNode.t)
    (id : string) (silent confirmed : bool) (bm : BookmarkNode.t) (st : Popup.t) :
  findById id bookmarks = Some bm →
  silent = true ∨ confirmed = true →
  (∀ node, node ∈ BookmarkService.getBookmarks (storage st) →
           BookmarkNode.parentId node ≠ Some id) →
  ∃ st',
    handleDeleteWithUndo (S fuel) deleted bookmarks id silent confirmed st = Some st'
    ∧ let st'' := handleUndo undone st' in
      BookmarkService.getBookmarks (storage st'')
      = filter (λ b, BookmarkNode.id b ≠ id) (BookmarkService.getBookmarks (storage st))
        ++ [restoredSnapshot undone bm]
      ∧ lastDeleted st'' = None
      ∧ undoExpire st'' = None
      ∧ Storage.lastDeletedBookmark (storage st'') = None
      ∧ Storage.undoExpire (storage st'') = None.
Proof.
  intros Hbm Hgo Hfree.
  assert (BookmarkNode.id bm = id) as Hid.
  { unfold findById in Hbm. destruct (list_find _ bookmarks) as [[i b]|] eqn:Hfind; [|done].
    injection Hbm as <-. by apply list_find_Some in Hfind as (_ & ? & _). }
  unfold handleDeleteWithUndo. rewrite Hbm.
  assert (negb silent && negb confirmed = false) as ->.
  { destruct Hgo as [-> | ->]; [done|by rewrite andb_false_r]. }
  cbv zeta. rewrite deleteBookmarkNode_no_child by done. cbv zeta.
  set (kept := filter (λ b, BookmarkNode.id b ≠ id)
                 (BookmarkService.getBookmarks (storage st))).
  assert (∀ s1, BookmarkService.getBookmarks s1 = kept →
            (BookmarkService.updateBookmarkNode undone (BookmarkNode.id bm)
               (Partial.ofNode bm) s1).2
            = Storage.setBookmarks (kept ++ [restoredSnapshot undone bm]) s1) as Hundo.
  { intros s1 Hs1.
    rewrite updateBookmarkNode_not_found.
    - by rewrite restoredNode_ofNode, Hs1.
    - rewrite Hs1, Hid. intros node Hin. by apply list_elem_of_filter in Hin as [? _]. }
  change (BookmarkService.getBookmarks
            (Storage.setUndo bm (deleted + 5000) (storage st)))
    with (BookmarkService.getBookmarks (storage st)).
  fold kept.
  case_bool_decide as Hex.
  - eexists. split; [done|]. cbv zeta.
    rewrite (handleUndo_Some undone _ bm) by done. cbn [storage].
    by rewrite Hundo.
  - eexists. split; [done|]. cbv zeta.
    rewrite (handleUndo_Some undone _ bm) by done. cbn [storage].
    rewrite Hundo; [done|].
    change (BookmarkService.getBookmarks (storage st) = kept). symmetry.
    unfold kept. apply filter_all, Forall_forall. intros b Hb Hbid.
    apply Hex, Exists_exists. by exists b.
Qed.

Lemma delete_then_undo_appends_node_witness :
  let a := Sample.bookmarkNode "a" "https://a.example" None [] in
  let f := Sample.folderNode "f" None in
  ∃ st',
    handleDeleteWithUndo 1 0%Z [a; f] "a" true false
      (initial (Sample.storageOf [a; f])) = Some st'
    ∧ BookmarkService.getBookmarks (storage (handleUndo 9000%Z st'))
      = [f; restoredSnapshot 9000%Z a].
Proof.
  intros a f.
  destruct (delete_then_undo_appends_node 0 0%Z 9000%Z [a; f] "a" true false a
              (initial (Sample.storageOf [a; f])) eq_refl (or_introl eq_refl))
    as (st' & Hrun & Hlist & _).
  - intros node Hin Hparent. simpl in Hin.
    repeat (apply elem_of_cons in Hin as [->|Hin]; [discriminate Hparent|]).
    by apply elem_of_nil in Hin.
  - exists st'. split; [exact Hrun|exact Hlist].
Defined.

(** The hover flag outlives the toast it was set on. Once the
    pointer has entered the undo toast and Undo is clicked, which takes the
    toast away with no pointer leaving it, the next delete is pending with
    the flag still set: no countdown runs, so that no firing, however late,
    expires the buffer, until the pointer has left a toast again. *)
Theorem undo_click_leaves_hover_flag_set
    (fuel : nat) (entered undone deleted : Z) (bookmarks : list BookmarkNode.t)
    (id : string) (bm : BookmarkNode.t) (st : Popup.t) :
  let clicked := handleUndo undone (handleUndoMouseEnter entered st) in
  findById id bookmarks = Some bm →
  (∀ node, node ∈ BookmarkService.getBookmarks (storage clicked) →
           BookmarkNode.parentId node ≠ Some id) →
  ∃ st',
    handleDeleteWithUndo (S fuel) deleted bookmarks id true false clicked = Some st'
    ∧ lastDeleted st' = Some bm
    ∧ undoExpire st' = Some (deleted + 5000)
    ∧ undoHovered st' = true
    ∧ (∀ now, countdownTick now st' = st')
    ∧ ∀ left, undoHovered (handleUndoMouseLeave left st') = false.
Proof.
  intros clicked Hbm Hfree.
  destruct (handleDeleteWithUndo_pending fuel deleted bookmarks id bm true false clicked
              Hbm (or_introl eq_refl) Hfree)
    as (st' & Hrun & Hnode & Hexpire & Hflag & _).
  assert (undoHovered clicked = true) as Hclicked.
  { unfold clicked, handleUndo. cbn [lastDeleted handleUndoMouseEnter].
    destruct (lastDeleted st); [|done].
    by destruct (BookmarkService.updateBookmarkNode _ _ _ _). }
  exists st'. split; [done|]. split; [done|]. split; [done|].
  rewrite Hclicked in Hflag. split; [done|]. split.
  - intros now. by apply countdownTick_hovered.
  - intros left. unfold handleUndoMouseLeave. by destruct (_ && _).
Qed.

Lemma undo_click_leaves_hover_flag_set_witness :
  let a := Sample.bookmarkNode "a" "https://a.example" None [] in
  let b := Sample.bookmarkNode "b" "https://b.example" None [] in
  let pending :=
    mk (Storage.setUndo a 5000 (Sample.storageOf [b])) (Some a) (Some 5000) 5 false None in
  let clicked := handleUndo 2000 (handleUndoMouseEnter 1000 pending) in
  ∃ st',
    handleDeleteWithUndo 1 3000 [b; a] "b" true false clicked = Some st'
    ∧ lastDeleted st' = Some b
    ∧ countdownTick 999000 st' = st'.
Proof.
  intros a b pending clicked.
  destruct (undo_click_leaves_hover_flag_set 0 1000 2000 3000 [b; a] "b" b pending eq_refl)
    as (st' & Hrun & Hnode & _ & _ & Hstuck & _).
  - intros node Hin Hparent. vm_compute in Hin.
    repeat (apply elem_of_cons in Hin as [->|Hin]; [discriminate Hparent|]).
    by apply elem_of_nil in Hin.
  - exists st'. split; [exact Hrun|]. split; [exact Hnode|apply Hstuck].
Defined.

End buffers.

(** ** The batch buffer and the two buffers together *)

Section batch.
Import PopupBatch.

(** [updateBookmarkNode] and [deleteBookmarkNode] leave the persisted undo
    record alone. *)
Lemma updateBookmarkNode_undo_keys now id updates s :
  Storage.lastDeletedBookmark (BookmarkService.updateBookmarkNode now id updates s).2
  = Storage.lastDeletedBookmark s
  ∧ Storage.undoExpire (BookmarkService.updateBookmarkNode now id updates s).2
    = Storage.undoExpire s.
Proof.
  unfold BookmarkService.updateBookmarkNode.
  by destruct (BookmarkService.findIndex _ _) as [[index old]|].
Qed.

Lemma deleteBookmarkNode_undo_keys fuel id s removed s' :
  BookmarkService.deleteBookmarkNode fuel id s = Some (removed, s') →
  Storage.lastDeletedBookmark s' = Storage.lastDeletedBookmark s
  ∧ Storage.undoExpire s' = Storage.undoExpire s.
Proof.
  unfold BookmarkService.deleteBookmarkNode.
  destruct (BookmarkService.doWhile _ _ _); [|done]. cbv zeta.
  destruct (negb (negb _)); by intros [= <- <-].
Qed.

(** The restoring loop appends the nodes one after the other. *)
Lemma restoreAll_appends clock i (nodes : list BookmarkNode.t) s :
  NoDup (BookmarkNode.id <$> nodes) →
  (∀ n m, n ∈ nodes → m ∈ BookmarkService.getBookmarks s →
          BookmarkNode.id m ≠ BookmarkNode.id n) →
  BookmarkService.getBookmarks (restoreAll clock i nodes s)
  = BookmarkService.getBookmarks s
    ++ imap (λ j n, restoredSnapshot (clock (i + j)) n) nodes.
Proof.
  revert i s. induction nodes as [|bm rest IH]; intros i s Hnd Hnew; simpl.
  - by rewrite app_nil_r.
  - rewrite fmap_cons in Hnd. apply NoDup_cons in Hnd as [Hbm Hnd].
    rewrite updateBookmarkNode_not_found.
    2:{ intros m Hm. apply (Hnew bm m); [apply list_elem_of_here|done]. }
    cbn [snd]. rewrite IH; [|done|].
    + rewrite getBookmarks_setBookmarks, restoredNode_ofNode, <- app_assoc. simpl.
      rewrite Nat.add_0_r. do 2 f_equal. apply imap_ext. intros j n _. simpl.
      by rewrite Nat.add_succ_r.
    + intros n m Hn Hm. rewrite getBookmarks_setBookmarks in Hm.
      apply elem_of_app in Hm as [Hm|Hm].
      * apply (Hnew n m); [by apply list_elem_of_further|done].
      * apply list_elem_of_singleton in Hm as ->. simpl. intros Heq.
        apply Hbm. rewrite Heq. by apply list_elem_of_fmap_2.
Qed.

(** X14. Undo of a batch whose nodes have distinct ids, none of them
    stored, appends the nodes to the stored list in the order of the batch,
    each with [lastAccessed] as the restore sets it, and empties the batch
    buffer and disarms its timeout. *)
Theorem undo_batch_appends_every_node
    (clock : nat → ISOString) (st : PopupBatch.t)
    (nodes : list BookmarkNode.t) (expire : Z) :
  undoBatch st = Some (nodes, expire) →
  NoDup (BookmarkNode.id <$> nodes) →
  (∀ n m, n ∈ nodes → m ∈ BookmarkService.getBookmarks (Popup.storage (popup st)) →
          BookmarkNode.id m ≠ BookmarkNode.id n) →
  let st' := handleUndoBatch clock st in
  BookmarkService.getBookmarks (Popup.storage (popup st'))
  = BookmarkService.getBookmarks (Popup.storage (popup st))
    ++ imap (λ j n, restoredSnapshot (clock j) n) nodes
  ∧ undoBatch st' = None
  ∧ undoTimeout st' = None.
Proof.
  intros Hbatch Hnd Hnew st'. unfold st', handleUndoBatch. rewrite Hbatch.
  cbn [popup undoBatch undoTimeout Popup.storage].
  by rewrite restoreAll_appends.
Qed.

Lemma undo_batch_appends_every_node_witness :
  let a := Sample.bookmarkNode "a" "https://a.example" None [] in
  let f := Sample.folderNode "f" None in
  let st :=
    handleBatchDeleteWithUndo 0%Z [a; f] (initial (Sample.storageOf [])) in
  BookmarkService.getBookmarks
    (Popup.storage (popup (handleUndoBatch (λ i, (1000 + Z.of_nat i)%Z) st)))
  = [restoredSnapshot 1000%Z a; f].
Proof.
  intros a f st.
  refine (proj1 (undo_batch_appends_every_node (λ i, (1000 + Z.of_nat i)%Z) st
                   [a; f] 5000%Z eq_refl _ _)).
  - simpl. repeat constructor; rewrite ?elem_of_cons, ?elem_of_nil;
      intros H; repeat destruct H as [H|H]; discriminate || done.
  - intros n m _ Hm. by apply elem_of_nil in Hm.
Defined.

Lemma mounted_consistent now s : undoBuffersConsistent (mounted now s).
Proof.
  unfold undoBuffersConsistent, mounted, onPopup, initial, Popup.rehydrate. simpl.
  split; [by right|]. split; [|done].
  destruct (Storage.lastDeletedBookmark s) as [bm|] eqn:Hbm; simpl; [|done].
  destruct (Storage.undoExpire s) as [e|] eqn:He; simpl; [|done].
  destruct (truthyNumber (Some e)); simpl; [|done].
  destruct (now <? e)%Z; simpl; [|done].
  intros node [= <-]. exists e. by rewrite Hbm, He.
Qed.

Lemma undoStep_consistent st st' :
  undoStep st st' → undoBuffersConsistent st → undoBuffersConsistent st'.
Proof.
  intros Hstep Hinv. pose proof Hinv as (Hexcl & Hsaved & Harmed).
  destruct Hstep as [fuel now bookmarks id silent confirmed st st' Hrun
                    |now bookmarks st|now st|clock st|now st|now st|st|now st|now st
                    |now id updates st|uuid now1 now2 node st
                    |fuel id removed s' st Hdel].
  - unfold handleDeleteWithUndo in Hrun.
    destruct (findById id bookmarks) as [bm|] eqn:Hbm;
      [|injection Hrun as <-; exact Hinv].
    destruct (negb silent && negb confirmed) eqn:Hask;
      [injection Hrun as <-; exact Hinv|].
    unfold Popup.handleDeleteWithUndo in Hrun. rewrite Hbm, Hask in Hrun.
    cbv zeta in Hrun.
    destruct (BookmarkService.deleteBookmarkNode fuel id _) as [[removed s2]|] eqn:Hdel;
      [|done].
    injection Hrun as <-. apply deleteBookmarkNode_undo_keys in Hdel as [Hnode Hexp].
    split; [by right|]. split; [|done]. simpl.
    intros node [= <-]. eexists. by rewrite Hnode, Hexp.
  - split; [by left|]. split; done.
  - unfold onPopup. destruct (Popup.lastDeleted (popup st)) as [node|] eqn:Hnode.
    + rewrite (handleUndo_Some now _ node) by done.
      split; [by left|]. split; done.
    + assert (Popup.handleUndo now (popup st) = popup st) as ->
        by (unfold Popup.handleUndo; by rewrite Hnode).
      by destruct st.
  - unfold handleUndoBatch.
    destruct (undoBatch st) as [[nodes expire]|] eqn:Hbatch; [|exact Hinv].
    destruct Hexcl as [Hnone|?]; [|done].
    split; [by right|]. split; [|done]. simpl. intros node Hn.
    by rewrite Hnone in Hn.
  - unfold onPopup, Popup.countdownTick.
    destruct (Popup.countdownRunning (popup st)); [|by destruct st].
    destruct (_ <=? 0)%Z; [split; [by left|]; split; done|].
    split; [done|]. split; done.
  - unfold batchTick.
    destruct (undoBatch st) as [[nodes expire]|] eqn:Hbatch; [|exact Hinv].
    destruct (_ <=? 0)%Z.
    + split; [by right|]. split; done.
    + split; [done|]. split; [done|]. simpl. by rewrite <- Harmed.
  - unfold timeoutFires.
    destruct (undoTimeout st) eqn:Htimer; [|exact Hinv].
    split; [by right|]. split; done.
  - unfold onPopup, Popup.handleUndoMouseEnter. split; [done|]. split; done.
  - unfold onPopup, Popup.handleUndoMouseLeave.
    destruct (truthyNumber (Popup.undoPausedAt (popup st))
              && bool_decide (is_Some (Popup.lastDeleted (popup st)))).
    + split; [done|]. split; [|done]. simpl. intros node Hnode.
      destruct (Hsaved node Hnode) as (e & _ & Hbm & _). eexists. by rewrite Hbm.
    + split; [done|]. split; done.
  - split; [done|]. split; [|done]. simpl. intros node Hnode.
    destruct (updateBookmarkNode_undo_keys now id updates (Popup.storage (popup st)))
      as [-> ->]. by apply Hsaved.
  - split; [done|]. split; done.
  - apply deleteBookmarkNode_undo_keys in Hdel as [Hnode Hexp].
    split; [done|]. split; [|done]. simpl. rewrite Hnode, Hexp. apply Hsaved.
Qed.

(** X15. After any sequence of the undo handlers, their timers and the
    repository calls of the popup, starting from the mounted popup, at most
    one of the two undo buffers is pending; a pending single delete is in
    the store with the node and the expiry the component holds, so that a
    reload finds it; and a batch timeout is armed exactly while a batch is
    pending. *)
Theorem undo_buffers_stay_consistent (now : Z) (s : Storage.t) (st : PopupBatch.t) :
  rtc undoStep (mounted now s) st → undoBuffersConsistent st.
Proof.
  revert st. apply rtc_ind_r; [apply mounted_consistent|].
  intros mid st' _ Hstep IH. by eapply undoStep_consistent.
Qed.

Lemma undo_buffers_stay_consistent_witness :
  let a := Sample.bookmarkNode "a" "https://a.example" None [] in
  undoBuffersConsistent
    (handleUndoBatch (λ _, 7000%Z)
       (handleBatchDeleteWithUndo 1000%Z [a] (mounted 0%Z (Sample.storageOf [])))).
Proof.
  intros a. apply (undo_buffers_stay_consistent 0%Z (Sample.storageOf [])).
  eapply rtc_l; [apply (step_batchDelete 1000%Z [a])|].
  apply rtc_once, step_undoBatch.
Defined.

End batch.

(** * Further properties of the table *)

Section duplicates_more.
Import BookmarkTable.

Lemma mapGet_Some_elem_of key ids (urlMap : UrlMap) :
  mapGet key urlMap = Some ids → (key, ids) ∈ urlMap.
Proof.
  induction urlMap as [|[k v] rest IH]; simpl; [done|].
  destruct (decide (k = key)) as [->|].
  - intros [= ->]. apply list_elem_of_here.
  - intros Hget. by apply list_elem_of_further, IH.
Qed.

(** X16. [findDuplicates] reports a group for every key that two or more
    nodes are filed under and for no other, one group per key; the ids it
    highlights are those of the groups, so that it finds no duplicates
    exactly when no two nodes share a key. *)
Theorem findDuplicates_reports_every_repeated_key
    (safeBookmarks : list BookmarkNode.t) :
  let dups := (findDuplicates safeBookmarks).1 in
  let groups := (findDuplicates safeBookmarks).2 in
  NoDup (DuplicateGroup.url <$> groups)
  ∧ (∀ key, 2 ≤ length (filedUnder key safeBookmarks)
            ↔ ∃ g, g ∈ groups ∧ DuplicateGroup.url g = key)
  ∧ dups = concat (DuplicateGroup.ids <$> groups)
  ∧ (dups = [] ↔ ∀ key, length (filedUnder key safeBookmarks) ≤ 1).
Proof.
  intros dups groups.
  assert (∀ key, 2 ≤ length (filedUnder key safeBookmarks)
                 ↔ ∃ g, g ∈ groups ∧ DuplicateGroup.url g = key) as Hgroups.
  { intros key. split.
    - intros Hlen. pose proof (mapGet_buildUrlMap safeBookmarks key) as Hget.
      destruct (filedUnder key safeBookmarks) as [|b filed] eqn:Hfiled;
        [simpl in Hlen; lia|].
      apply mapGet_Some_elem_of in Hget.
      exists (DuplicateGroup.mk key (BookmarkNode.id <$> b :: filed)). split; [|done].
      unfold groups, findDuplicates. cbn [snd].
      apply (list_elem_of_fmap_2 (λ e, DuplicateGroup.mk e.1 e.2) _ (key, _)).
      apply list_elem_of_filter. split; [|done].
      unfold isDuplicate. cbn [snd]. apply Nat.ltb_lt.
      change (1 < length (BookmarkNode.id <$> b :: filed)).
      rewrite length_fmap. lia.
    - intros (g & Hg & <-).
      destruct (findDuplicates_group _ _ Hg) as [Hids Hlen].
      by rewrite Hids, length_fmap in Hlen. }
  assert (dups = concat (DuplicateGroup.ids <$> groups)) as Hdups.
  { unfold dups, groups, findDuplicates. cbn [fst snd].
    by rewrite <- list_fmap_compose. }
  split; [|split; [done|split; [done|]]].
  - unfold groups, findDuplicates. cbn [snd]. rewrite <- list_fmap_compose.
    eapply sublist_NoDup; [apply (buildUrlMap_NoDup safeBookmarks)|].
    apply fmap_sublist, sublist_filter.
  - rewrite Hdups. split.
    + intros Hempty key.
      destruct (Nat.le_gt_cases (length (filedUnder key safeBookmarks)) 1) as [|Hlen];
        [done|].
      apply Hgroups in Hlen as (g & Hg & _).
      destruct (findDuplicates_group _ _ Hg) as [_ Hlen].
      assert (DuplicateGroup.ids g = []) as Hnil; [|rewrite Hnil in Hlen; simpl in Hlen; lia].
      apply (list_elem_of_fmap_2 DuplicateGroup.ids) in Hg.
      destruct (DuplicateGroup.ids g) as [|i ids] eqn:Hids; [done|].
      apply list_elem_of_split in Hg as (before & after & Hsplit).
      rewrite Hsplit, concat_app in Hempty. simpl in Hempty.
      by destruct (concat before).
    + intros Hsingle. destruct groups as [|g rest] eqn:Hgs; [done|].
      assert (2 ≤ length (filedUnder (DuplicateGroup.url g) safeBookmarks)) as Hlen.
      { apply Hgroups. exists g. split; [apply list_elem_of_here|done]. }
      specialize (Hsingle (DuplicateGroup.url g)). lia.
Qed.

End duplicates_more.

(** ** handleMerge: the other fields *)

Section merge_more.
Import BookmarkTable.

Lemma head_insertByLength x sorted :
  head (insertByLength x sorted) =
    match head sorted with
    | Some y => if (jsLength x <? jsLength y)%nat then Some y else Some x
    | None => Some x
    end.
Proof. destruct sorted as [|y rest]; simpl; [done|]. by destruct (_ <? _)%nat. Qed.

(** The head of the sorted array is the first of the longest strings. *)
Lemma head_sortByLengthDesc xs :
  match head (sortByLengthDesc xs) with
  | None => xs = []
  | Some d =>
      ∃ before after,
        xs = before ++ d :: after
        ∧ (∀ x, x ∈ before → jsLength x < jsLength d)
        ∧ (∀ x, x ∈ after → jsLength x ≤ jsLength d)
  end.
Proof.
  induction xs as [|x rest IH]; [done|].
  unfold sortByLengthDesc in *. simpl. rewrite head_insertByLength.
  destruct (head (foldr insertByLength [] rest)) as [y|].
  - destruct IH as (before & after & -> & Hbefore & Hafter).
    destruct (Nat.ltb_spec (jsLength x) (jsLength y)) as [Hlt|Hge].
    + exists (x :: before), after. split; [done|]. split; [|done].
      intros z Hz. apply elem_of_cons in Hz as [->|Hz]; [done|by apply Hbefore].
    + exists [], (before ++ y :: after). split; [done|].
      split; [intros z Hz; by apply elem_of_nil in Hz|].
      intros z Hz. apply elem_of_app in Hz as [Hz|Hz].
      * specialize (Hbefore z Hz). lia.
      * apply elem_of_cons in Hz as [->|Hz]; [done|]. specialize (Hafter z Hz). lia.
  - subst rest. exists [], []. split; [done|].
    split; intros z Hz; by apply elem_of_nil in Hz.
Qed.

Lemma findById_Some id (l : list BookmarkNode.t) b :
  findById id l = Some b → b ∈ l ∧ BookmarkNode.id b = id.
Proof.
  unfold findById. destruct (list_find _ l) as [[i x]|] eqn:Hfind; [|done].
  intros [= <-]. apply list_find_Some in Hfind as (Hi & Hid & _).
  split; [by eapply list_elem_of_lookup_2|done].
Qed.

(** The field a merge falls back on: that of the member kept, when the id
    to keep is an id and a member has it. *)
Lemma findKept_field {A} (field : BookmarkNode.t → option A) toKeepId
    (members : list BookmarkNode.t) :
  match toKeepId with
  | keepId k =>
      (∀ kept, firstWithId k members kept →
               findKept toKeepId members ≫= field = field kept)
      ∧ ((∀ b, b ∈ members → BookmarkNode.id b ≠ k) →
         findKept toKeepId members ≫= field = None)
  | inheritedValue _ => findKept toKeepId members ≫= field = None
  end.
Proof.
  pose proof (findKept_spec toKeepId members) as Hspec.
  destruct toKeepId as [k|key].
  - destruct Hspec as [Hfound Hnone]. split.
    + intros kept Hkept. by rewrite (Hfound kept Hkept).
    + intros Hno. by rewrite (Hnone Hno).
  - by rewrite Hspec.
Qed.

(** X17. With "merge descriptions" on, the update a turn of [handleMerge]
    makes for the id to keep carries the first of the longest descriptions
    of the members found, lengths counted in UTF-16 code units and a
    missing description counting as the empty one; when the longest is
    empty, it carries the description of the member kept, as it is, and
    none when no member is kept. *)
Theorem merge_description_is_first_longest
    (mergeTags mergeCategories : bool) (safeBookmarks members : list BookmarkNode.t)
    (mergeSelections : gmap string string) (group : DuplicateGroup.t) :
  resolves safeBookmarks (DuplicateGroup.ids group) members →
  2 ≤ length members →
  ∃ m before d after,
    mergeGroup mergeTags mergeCategories true safeBookmarks mergeSelections group = Some m
    ∧ (λ b, default "" (BookmarkNode.description b)) <$> members = before ++ d :: after
    ∧ (∀ x, x ∈ before → jsLength x < jsLength d)
    ∧ (∀ x, x ∈ after → jsLength x ≤ jsLength d)
    ∧ (d ≠ "" → get (Partial.description (Merge.merged m)) = Some d)
    ∧ (d = "" →
       match Merge.toKeepId m with
       | keepId k =>
           (∀ kept, firstWithId k members kept →
                    get (Partial.description (Merge.merged m))
                    = BookmarkNode.description kept)
           ∧ ((∀ b, b ∈ members → BookmarkNode.id b ≠ k) →
              get (Partial.description (Merge.merged m)) = None)
       | inheritedValue _ => get (Partial.description (Merge.merged m)) = None
       end).
Proof.
  intros Hres Hlen.
  destruct (mergeGroup_fields mergeTags mergeCategories true safeBookmarks
              mergeSelections group members Hres Hlen)
    as (m & first & Hm & _ & _ & _ & _ & _ & _ & Hdesc).
  specialize (Hdesc eq_refl).
  assert (((λ b, default "" (orElse (BookmarkNode.description b) (Some ""))) <$> members)
          = (λ b, default "" (BookmarkNode.description b)) <$> members) as Heq.
  { apply list_fmap_ext. intros _ b _. unfold orElse.
    destruct (BookmarkNode.description b) as [s|]; [|done].
    destruct (truthyString (Some s)) eqn:Ht; [done|]. simpl.
    destruct (decide (s = "")) as [->|Hne]; [done|].
    apply truthyString_Some in Hne. congruence. }
  rewrite Heq in Hdesc.
  pose proof (head_sortByLengthDesc
                ((λ b, default "" (BookmarkNode.description b)) <$> members)) as Hhead.
  destruct (head (sortByLengthDesc _)) as [d|].
  2:{ apply fmap_nil_inv in Hhead. rewrite Hhead in Hlen. simpl in Hlen. lia. }
  destruct Hhead as (before & after & Hsplit & Hbefore & Hafter).
  exists m, before, d, after. split; [done|]. split; [done|].
  split; [done|]. split; [done|]. split.
  - intros Hne. rewrite Hdesc. unfold orElse.
    by rewrite (proj2 (truthyString_Some d) Hne).
  - intros ->. rewrite Hdesc.
    change (orElse (Some "") ?x) with x.
    apply (findKept_field BookmarkNode.description).
Qed.

Lemma merge_description_is_first_longest_witness :
  let a := BookmarkNode.mk "a" (Some bookmark) (Some "A") (Some "u") None None None
             (Some 1%Z) None None (Some "éé") in
  let b := BookmarkNode.mk "b" (Some bookmark) (Some "B") (Some "u") None None None
             (Some 1%Z) None None (Some "") in
  let c := BookmarkNode.mk "c" (Some bookmark) (Some "C") (Some "u") None None None
             (Some 1%Z) None None (Some "abc") in
  jsLength "éé" = 2
  ∧ ∃ m,
      mergeGroup true true true [a; b; c] ∅ (DuplicateGroup.mk "u" ["a"; "b"; "c"]) = Some m
      ∧ get (Partial.description (Merge.merged m)) = Some "abc".
Proof.
  intros a b c. split; [reflexivity|].
  destruct (merge_description_is_first_longest true true [a; b; c] [a; b; c] ∅
              (DuplicateGroup.mk "u" ["a"; "b"; "c"]))
    as (m & before & d & after & Hm & _).
  - by apply resolves_bookmarksInGroup.
  - simpl. lia.
  - exists m. split; [exact Hm|].
    vm_compute in Hm. injection Hm as <-. reflexivity.
Defined.

(** X18. With "merge categories" on, the update a turn of [handleMerge]
    makes for the id to keep carries the first non-empty [categoryId] met
    among the members found, in the order of the ids of the group; when no
    member has one, it carries the [categoryId] of the member kept, as it
    is, and none when no member is kept. *)
Theorem merge_category_is_first_nonempty
    (mergeTags mergeDescriptions : bool) (safeBookmarks members : list BookmarkNode.t)
    (mergeSelections : gmap string string) (group : DuplicateGroup.t) :
  resolves safeBookmarks (DuplicateGroup.ids group) members →
  2 ≤ length members →
  ∃ m,
    mergeGroup mergeTags true mergeDescriptions safeBookmarks mergeSelections group = Some m
    ∧ ((∃ before b after,
          members = before ++ b :: after
          ∧ (∀ x, x ∈ before → truthyString (BookmarkNode.categoryId x) = false)
          ∧ truthyString (BookmarkNode.categoryId b) = true
          ∧ get (Partial.categoryId (Merge.merged m)) = BookmarkNode.categoryId b)
       ∨ ((∀ x, x ∈ members → truthyString (BookmarkNode.categoryId x) = false)
          ∧ match Merge.toKeepId m with
            | keepId k =>
                (∀ kept, firstWithId k members kept →
                         get (Partial.categoryId (Merge.merged m))
                         = BookmarkNode.categoryId kept)
                ∧ ((∀ b, b ∈ members → BookmarkNode.id b ≠ k) →
                   get (Partial.categoryId (Merge.merged m)) = None)
            | inheritedValue _ => get (Partial.categoryId (Merge.merged m)) = None
            end)).
Proof.
  intros Hres Hlen.
  destruct (mergeGroup_fields mergeTags true mergeDescriptions safeBookmarks
              mergeSelections group members Hres Hlen)
    as (m & first & Hm & _ & _ & _ & _ & _ & Hcat & _).
  specialize (Hcat eq_refl).
  exists m. split; [done|].
  destruct (list_find (λ c, truthyString c = true) (BookmarkNode.categoryId <$> members))
    as [[i c]|] eqn:Hfind.
  - left. apply list_find_Some in Hfind as (Hi & Hc & Hfirst).
    rewrite list_lookup_fmap in Hi.
    destruct (members !! i) as [b|] eqn:Hb; [|done].
    injection Hi as <-.
    exists (take i members), b, (drop (S i) members).
    split; [by rewrite take_drop_middle|]. split; [|split; [done|]].
    + intros x Hx. apply list_elem_of_lookup in Hx as [j Hj].
      assert (j < i) as Hlt.
      { apply lookup_lt_Some in Hj. rewrite length_take in Hj. lia. }
      rewrite lookup_take_lt in Hj by done.
      specialize (Hfirst j (BookmarkNode.categoryId x)).
      rewrite list_lookup_fmap, Hj in Hfirst. specialize (Hfirst eq_refl Hlt).
      by destruct (truthyString (BookmarkNode.categoryId x)).
    + rewrite Hcat. simpl. unfold orElse. by rewrite Hc.
  - right. apply list_find_None in Hfind.
    split.
    { intros x Hx. rewrite Forall_forall in Hfind.
      specialize (Hfind (BookmarkNode.categoryId x) (list_elem_of_fmap_2 _ _ _ Hx)).
      by destruct (truthyString (BookmarkNode.categoryId x)). }
    rewrite Hcat. simpl. change (orElse None ?x) with x.
    apply (findKept_field BookmarkNode.categoryId).
Qed.

Lemma merge_category_is_first_nonempty_witness :
  let a := Sample.bookmarkNode "a" "u" None [] in
  let b := BookmarkService.withCategory (Some "work") (Sample.bookmarkNode "b" "u" None []) in
  ∃ m,
    mergeGroup true true true [a; b] ∅ (DuplicateGroup.mk "u" ["a"; "b"]) = Some m
    ∧ get (Partial.categoryId (Merge.merged m)) = Some "work".
Proof.
  intros a b.
  destruct (merge_category_is_first_nonempty true true [a; b] [a; b] ∅
              (DuplicateGroup.mk "u" ["a"; "b"]))
    as (m & Hm & _).
  - by apply resolves_bookmarksInGroup.
  - simpl. lia.
  - exists m. split; [exact Hm|].
    vm_compute in Hm. injection Hm as <-. reflexivity.
Defined.

(** X19. A group of which fewer than two members are found is passed
    over: no update, no id to delete. Otherwise the id to keep is the
    selection made for the url of the group when it is not empty, and the
    first id of the group when the selection is empty or when there is none
    and the url is not the name of an inherited object property: the ids to
    delete are then the other ids of the group, the id kept is never among
    them, and the turn updates the store. With no selection and a url that
    an object inherits a property for ([constructor], [toString], ...), the
    id to keep is that property and no id: every id of the group goes to the
    ids to delete, the update carries no id, and the turn appends a stray
    node. *)
Theorem merge_keeps_selected_or_first_id_unless_inherited
    (mergeTags mergeCategories mergeDescriptions : bool)
    (safeBookmarks members : list BookmarkNode.t)
    (mergeSelections : gmap string string)
    (now : ISOString) (group : DuplicateGroup.t)
    (allToDelete : list string) (s : Storage.t) :
  resolves safeBookmarks (DuplicateGroup.ids group) members →
  let turn :=
    mergeStep mergeTags mergeCategories mergeDescriptions safeBookmarks
      mergeSelections now group (allToDelete, s) in
  (length members < 2 → turn = MergeTurn.stored allToDelete s)
  ∧ (2 ≤ length members →
     ∃ m first,
       mergeGroup mergeTags mergeCategories mergeDescriptions safeBookmarks
         mergeSelections group = Some m
       ∧ head (DuplicateGroup.ids group) = Some first
       ∧ (∀ selected,
            mergeSelections !! DuplicateGroup.url group = Some selected →
            selected ≠ "" → Merge.toKeepId m = keepId selected)
       ∧ (mergeSelections !! DuplicateGroup.url group = Some ""
          ∨ (mergeSelections !! DuplicateGroup.url group = None
             ∧ DuplicateGroup.url group ∉ objectPrototypeKeys) →
          Merge.toKeepId m = keepId first)
       ∧ (∀ k, Merge.toKeepId m = keepId k →
            (k ∉ Merge.toDelete m)
            ∧ (∀ id, id ∈ Merge.toDelete m ↔ id ∈ DuplicateGroup.ids group ∧ id ≠ k)
            ∧ ∃ s', turn = MergeTurn.stored (allToDelete ++ Merge.toDelete m) s')
       ∧ (mergeSelections !! DuplicateGroup.url group = None →
          DuplicateGroup.url group ∈ objectPrototypeKeys →
          Merge.toKeepId m = inheritedValue (DuplicateGroup.url group)
          ∧ Merge.toDelete m = DuplicateGroup.ids group
          ∧ Partial.id (Merge.merged m) = None
          ∧ turn = MergeTurn.strayNode (allToDelete ++ DuplicateGroup.ids group)
                     (Merge.merged m) s)).
Proof.
  intros Hres turn. split.
  - intros Hlen. unfold turn, mergeStep, mergeGroup.
    apply resolves_bookmarksInGroup in Hres. subst members.
    destruct (toKeepIdOf mergeSelections group); [|done].
    by destruct (Nat.ltb_spec (length (bookmarksInGroup safeBookmarks group)) 2); [|lia].
  - intros Hlen.
    destruct (mergeGroup_fields mergeTags mergeCategories mergeDescriptions safeBookmarks
                mergeSelections group members Hres Hlen)
      as (m & first & Hm & Hfirst & Hkeep & Hdel & Hid & _).
    rewrite (toKeepIdOf_head _ _ _ Hfirst) in Hkeep. injection Hkeep as Hkeep.
    exists m, first. split; [done|]. split; [done|].
    split; [|split; [|split]].
    + intros selected Hsel Hne. rewrite <- Hkeep, Hsel.
      by rewrite (proj2 (truthyString_Some selected) Hne).
    + intros [Hsel|[Hsel Hout]]; rewrite <- Hkeep, Hsel; [done|].
      by rewrite bool_decide_eq_false_2.
    + intros k Hk. rewrite Hdel, Hk. split; [|split].
      * rewrite list_elem_of_filter. by intros [? _].
      * intros id. rewrite list_elem_of_filter.
        split.
        -- intros [Hne ?]. split; [done|]. intros ->. by apply Hne.
        -- intros [? Hne]. split; [|done]. intros [= ->]. by apply Hne.
      * unfold turn, mergeStep. rewrite Hm, Hk. cbn [fst snd].
        destruct (BookmarkService.updateBookmarkNode now k (Merge.merged m) s) as [? s'].
        exists s'. by rewrite Hdel, Hk.
    + intros Hsel Hin. rewrite Hsel, bool_decide_eq_true_2 in Hkeep by done.
      assert (Merge.toDelete m = DuplicateGroup.ids group) as Hall.
      { rewrite Hdel, <- Hkeep. apply filter_all, Forall_forall. by intros id _. }
      split; [done|]. split; [done|]. split.
      * by rewrite Hid, <- Hkeep.
      * unfold turn, mergeStep. by rewrite Hm, <- Hkeep, Hall.
Qed.

Lemma merge_keeps_selected_or_first_id_unless_inherited_witness :
  let a := Sample.bookmarkNode "a" "u" None [] in
  let b := Sample.bookmarkNode "b" "u" None [] in
  ∃ m,
    mergeGroup true true true [a; b] {["u" := "b"]} (DuplicateGroup.mk "u" ["a"; "b"])
    = Some m
    ∧ Merge.toKeepId m = keepId "b".
Proof.
  intros a b.
  destruct (proj2 (merge_keeps_selected_or_first_id_unless_inherited true true true
                     [a; b] [a; b] {["u" := "b"]} 2000%Z
                     (DuplicateGroup.mk "u" ["a"; "b"]) [] (Sample.storageOf [a; b])
                     (proj2 (resolves_bookmarksInGroup _ _ _) eq_refl)))
    as (m & first & Hm & _ & Hselected & _); [simpl; lia|].
  exists m. split; [exact Hm|]. by apply Hselected.
Defined.

End merge_more.

(** ** Selection *)

Section selection.
Import BookmarkTable.

(** X20. [handleSelectOne] toggles one id and no other: the id is selected
    afterwards exactly when it was not before, every other id keeps its
    state, a selection without repetition stays so, and toggling twice gives
    back the ids that were selected. *)
Theorem handleSelectOne_toggles (id : string) (prev : list string) :
  NoDup prev →
  let next := handleSelectOne id prev in
  NoDup next
  ∧ (id ∈ next ↔ id ∉ prev)
  ∧ (∀ other, other ≠ id → (other ∈ next ↔ other ∈ prev))
  ∧ (∀ x, x ∈ handleSelectOne id next ↔ x ∈ prev).
Proof.
  intros Hnd next.
  assert (∀ l, (id ∈ handleSelectOne id l ↔ id ∉ l)
               ∧ ∀ other, other ≠ id → (other ∈ handleSelectOne id l ↔ other ∈ l))
    as Htoggle.
  { intros l. unfold handleSelectOne. case_bool_decide as Hin.
    - split.
      + rewrite list_elem_of_filter. split; [by intros [? _]|done].
      + intros other Hne. rewrite list_elem_of_filter. tauto.
    - split.
      + split; [done|]. intros _. apply elem_of_app. right. apply list_elem_of_here.
      + intros other Hne. rewrite elem_of_app, list_elem_of_singleton. tauto. }
  split; [|split; [apply Htoggle|split; [apply Htoggle|]]].
  - unfold next, handleSelectOne. case_bool_decide as Hin; [by apply NoDup_filter|].
    apply NoDup_app. split; [done|]. split; [|apply NoDup_singleton].
    intros x Hx Hx'. apply list_elem_of_singleton in Hx' as ->. done.
  - intros x. destruct (decide (x = id)) as [->|Hne].
    + rewrite (proj1 (Htoggle next)). unfold next. rewrite (proj1 (Htoggle prev)).
      destruct (decide (id ∈ prev)); tauto.
    + rewrite (proj2 (Htoggle next) x Hne). unfold next.
      by rewrite (proj2 (Htoggle prev) x Hne).
Qed.

Lemma handleSelectOne_toggles_witness :
  handleSelectOne "b" (handleSelectOne "b" ["a"; "b"; "c"]) = ["a"; "c"; "b"]
  ∧ NoDup (handleSelectOne "b" ["a"; "b"; "c"]).
Proof.
  split; [reflexivity|].
  apply (handleSelectOne_toggles "b" ["a"; "b"; "c"]).
  repeat constructor; rewrite ?elem_of_cons, ?elem_of_nil;
    intros H; repeat destruct H as [H|H]; discriminate || done.
Defined.

(** X21. [handleSelectAll] selects the whole page unless the whole page is
    selected already, in which case it clears the page: in the first case
    every id selected before stays selected, every id of the page is
    selected, nothing else is, without repetition, and a second click clears
    the page; in the second case exactly the ids off the page stay. An empty
    page counts as selected. *)
Theorem handleSelectAll_selects_or_clears_page
    (paginated : list BookmarkNode.t) (selectedIds : list string) :
  let onPage := λ id, id ∈ BookmarkNode.id <$> paginated in
  let next := handleSelectAll paginated selectedIds in
  (allOnPageSelected paginated selectedIds = false →
   NoDup next
   ∧ (∀ id, id ∈ next ↔ id ∈ selectedIds ∨ onPage id)
   ∧ (∀ id, id ∈ handleSelectAll paginated next ↔ id ∈ selectedIds ∧ ¬ onPage id))
  ∧ (allOnPageSelected paginated selectedIds = true →
     ∀ id, id ∈ next ↔ id ∈ selectedIds ∧ ¬ onPage id)
  ∧ allOnPageSelected [] selectedIds = true.
Proof.
  intros onPage next.
  assert (∀ (sel : list string) (id : string),
            id ∈ filter (λ id, ¬ Exists (λ bm, BookmarkNode.id bm = id) paginated) sel
            ↔ id ∈ sel ∧ ¬ onPage id) as Hclear.
  { intros sel id. unfold onPage. rewrite list_elem_of_filter, Exists_exists, list_elem_of_fmap.
    split.
    - intros [H1 H2]. split; [done|]. intros (bm & ? & ?). apply H1. by exists bm.
    - intros [H1 H2]. split; [|done]. intros (bm & ? & ?). apply H2. by exists bm. }
  assert (∀ id, id ∈ arrayFromSet (selectedIds ++ (BookmarkNode.id <$> paginated))
                ↔ id ∈ selectedIds ∨ onPage id) as Hall.
  { intros id. by rewrite arrayFromSet_elem_of, elem_of_app. }
  split; [|split; [|done]].
  - intros Hnot. unfold next, handleSelectAll. rewrite Hnot.
    split; [apply arrayFromSet_NoDup|]. split; [done|].
    intros id.
    assert (allOnPageSelected paginated
              (arrayFromSet (selectedIds ++ (BookmarkNode.id <$> paginated))) = true) as ->.
    { unfold allOnPageSelected. apply bool_decide_eq_true, Forall_forall.
      intros bm Hbm. apply Hall. right. by apply list_elem_of_fmap_2. }
    rewrite Hclear, Hall. tauto.
  - intros Hyes. unfold next, handleSelectAll. rewrite Hyes. intros id. apply Hclear.
Qed.

End selection.

(** ** Columns *)

Section columns.
Import BookmarkTable.

Lemma indexOf_Some col (columnOrder : list string) i :
  indexOf col columnOrder = Some i → columnOrder !! i = Some col.
Proof.
  unfold indexOf. destruct (list_find _ columnOrder) as [[j c]|] eqn:Hfind; [|done].
  intros [= <-]. by apply list_find_Some in Hfind as (? & -> & _).
Qed.

(** X22. Dropping a dragged column on another column of the order moves
    it to the place that column had: the new order holds the same columns,
    as many, with the dragged one at the index where the target was. A drop
    with nothing dragged, on the dragged column itself, or with a column
    that is not in the order changes nothing. *)
Theorem handleDrop_moves_column_to_target
    (dragCol : option string) (col : string) (columnOrder : list string) :
  let newOrder := handleDrop dragCol col columnOrder in
  (∀ dragged fromIdx toIdx,
      dragCol = Some dragged → dragged ≠ "" → dragged ≠ col →
      indexOf dragged columnOrder = Some fromIdx →
      indexOf col columnOrder = Some toIdx →
      newOrder ≡ₚ columnOrder
      ∧ length newOrder = length columnOrder
      ∧ newOrder !! toIdx = Some dragged)
  ∧ (dragCol = None ∨ dragCol = Some col
     ∨ (∃ dragged, dragCol = Some dragged ∧ indexOf dragged columnOrder = None)
     ∨ indexOf col columnOrder = None →
     newOrder = columnOrder).
Proof.
  intros newOrder. split.
  - intros dragged fromIdx toIdx -> Hne Hdiff Hfrom Hto.
    unfold newOrder, handleDrop.
    rewrite (proj2 (truthyString_Some dragged) Hne), bool_decide_eq_true_2 by done.
    simpl. rewrite Hfrom, Hto.
    apply indexOf_Some in Hfrom. apply indexOf_Some in Hto.
    assert (toIdx ≠ fromIdx) as Hidx by (intros ->; congruence).
    pose proof (lookup_lt_Some _ _ _ Hfrom) as Hflt.
    pose proof (lookup_lt_Some _ _ _ Hto) as Htlt.
    assert (length (spliceOut fromIdx columnOrder) = length columnOrder - 1) as Hlen.
    { unfold spliceOut. rewrite length_app, length_take, length_drop. lia. }
    assert (spliceIn toIdx dragged (spliceOut fromIdx columnOrder)
            ≡ₚ dragged :: spliceOut fromIdx columnOrder) as Hperm.
    { unfold spliceIn. rewrite <- Permutation_middle. by rewrite take_drop. }
    split; [|split].
    + rewrite Hperm. unfold spliceOut.
      rewrite Permutation_middle. by rewrite take_drop_middle.
    + unfold spliceIn. rewrite length_app, length_take. simpl. rewrite length_drop. lia.
    + unfold spliceIn. rewrite lookup_app_r; rewrite length_take; [|lia].
      replace (toIdx - toIdx `min` length (spliceOut fromIdx columnOrder)) with 0 by lia.
      done.
  - unfold newOrder, handleDrop. intros [->|[->|[(dragged & -> & Hnone)|Hnone]]].
    + done.
    + destruct (truthyString (Some col)); simpl; [|done].
      by rewrite bool_decide_eq_false_2 by (by intros ?).
    + destruct (_ && _); [|done]. by rewrite Hnone.
    + destruct dragCol as [dragged|]; [|done]. destruct (_ && _); [|done].
      rewrite Hnone. by destruct (indexOf dragged columnOrder).
Qed.

Lemma handleDrop_moves_column_to_target_witness :
  handleDrop (Some "tags") "category" defaultColumnOrder !! 1 = Some "tags"
  ∧ handleDrop (Some "tags") "category" defaultColumnOrder ≡ₚ defaultColumnOrder.
Proof.
  destruct (proj1 (handleDrop_moves_column_to_target (Some "tags") "category"
                     defaultColumnOrder) "tags" 3 1 eq_refl)
    as (Hperm & _ & Hat); [done|done|reflexivity|reflexivity|].
  split; [exact Hat|exact Hperm].
Defined.

(** X23. Whatever is stored under [columnOrder], the order loaded has the
    columns of the default order and no other; when the stored array has no
    repetition it is a rearrangement of the default order, the stored
    columns first; with nothing or an empty array stored it is the default
    order itself. *)
Theorem loadColumnOrder_has_default_columns (stored : option (list string)) :
  let order := loadColumnOrder stored in
  (∀ col, col ∈ order ↔ col ∈ defaultColumnOrder)
  ∧ (∀ cols, stored = Some cols → NoDup cols → order ≡ₚ defaultColumnOrder)
  ∧ (∀ cols, stored = Some cols →
       ∃ missing, order = filter (λ col, col ∈ defaultColumnOrder) cols ++ missing)
  ∧ (stored = None ∨ stored = Some [] → order = defaultColumnOrder).
Proof.
  intros order.
  assert (NoDup defaultColumnOrder) as Hdefault.
  { unfold defaultColumnOrder.
    repeat (apply NoDup_cons; split;
      [rewrite ?elem_of_cons, ?elem_of_nil;
       intros H; repeat destruct H as [H|H]; discriminate || done|]).
    apply NoDup_nil_2. }
  assert (∀ cols col,
            col ∈ filter (λ c, c ∈ defaultColumnOrder) cols
                  ++ filter (λ c, c ∉ filter (λ c, c ∈ defaultColumnOrder) cols)
                       defaultColumnOrder
            ↔ col ∈ defaultColumnOrder) as Hmem.
  { intros cols col. rewrite elem_of_app.
    destruct (decide (col ∈ filter (λ c, c ∈ defaultColumnOrder) cols)) as [Hin|Hout].
    - split; [intros _|by left]. by apply list_elem_of_filter in Hin as [? _].
    - split.
      + intros [?|Hcol]; [done|]. by apply list_elem_of_filter in Hcol as [_ ?].
      + intros Hcol. right. by apply list_elem_of_filter. }
  split; [|split; [|split]].
  - intros col. unfold order, loadColumnOrder.
    destruct stored as [[|c cs]|]; [done| |done]. apply Hmem.
  - intros cols -> Hnd. unfold order, loadColumnOrder.
    destruct cols as [|c cs]; [done|].
    apply NoDup_Permutation; [|done|apply Hmem].
    apply NoDup_app. split; [by apply NoDup_filter|].
    split; [|by apply NoDup_filter].
    intros col Hcol Hcol'. by apply list_elem_of_filter in Hcol' as [? _].
  - intros cols ->. unfold order, loadColumnOrder.
    destruct cols as [|c cs]; [by exists defaultColumnOrder|]. by eexists.
  - by intros [-> | ->].
Qed.

(** X24. For an order made of columns of the default order, the columns
    rendered end with [actions], which is there once and only there;
    [title] is rendered whenever the order has it, whatever the visibility
    settings; every other column rendered is in the order and switched
    on. *)
Theorem columnsToRender_title_and_actions
    (columnVisibility : gmap string bool) (columnOrder : list string) :
  (∀ col, col ∈ columnOrder → col ∈ defaultColumnOrder) →
  let visible := visibleColumns columnVisibility columnOrder in
  let rendered := columnsToRender columnVisibility columnOrder in
  last rendered = Some "actions"
  ∧ ("actions" ∉ visible)
  ∧ ("title" ∈ columnOrder → "title" ∈ rendered)
  ∧ (∀ col, col ∈ visible →
       col ∈ columnOrder ∧ (col = "title" ∨ columnVisibility !! col = Some true))
  ∧ (∀ col, col ∈ columnOrder → col ≠ "actions" →
       columnVisibility !! col = Some true → col ∈ rendered).
Proof.
  intros _ visible rendered. unfold rendered, columnsToRender. fold visible.
  split; [apply last_snoc|]. unfold visible, visibleColumns.
  split; [rewrite list_elem_of_filter; by intros [[? _] _]|]. split; [|split].
  - intros Hin. apply elem_of_app. left. apply list_elem_of_filter.
    split; [|done]. split; [done|by left].
  - intros col Hcol. apply list_elem_of_filter in Hcol as [[_ Hvis] Hin].
    split; [done|]. destruct Hvis as [?|Hvis]; [by left|right].
    by destruct (columnVisibility !! col) as [[]|].
  - intros col Hin Hne Hvis. apply elem_of_app. left. apply list_elem_of_filter.
    split; [|done]. split; [done|]. right. by rewrite Hvis.
Qed.

Lemma columnsToRender_title_and_actions_witness :
  columnsToRender {["url" := true; "tags" := false]} defaultColumnOrder
  = ["title"; "url"; "actions"]
  ∧ last (columnsToRender {["url" := true; "tags" := false]} defaultColumnOrder)
    = Some "actions".
Proof.
  split; [by vm_compute|].
  apply (columnsToRender_title_and_actions {["url" := true; "tags" := false]}
           defaultColumnOrder).
  by intros col Hcol.
Defined.

End columns.

(** ** Pages *)

Section pages.
Import BookmarkTable.

(** Consecutive slices of [k] elements, enough of them, make up the list. *)
Lemma chunks_concat {A} (k n : nat) (l : list A) :
  length l ≤ n * k →
  concat ((λ p, take k (drop (p * k) l)) <$> seq 0 n) = l.
Proof.
  revert l. induction n as [|n IH]; intros l Hlen; simpl in Hlen |- *.
  - destruct l; simpl in *; [done|lia].
  - rewrite <- fmap_S_seq, <- list_fmap_compose.
    transitivity (take k l ++ drop k l); [|apply take_drop]. f_equal.
    rewrite <- (IH (drop k l)) by (rewrite length_drop; lia). f_equal.
    apply list_fmap_ext. intros _ p _. simpl.
    rewrite drop_drop. f_equal; f_equal; lia.
Qed.

Lemma totalPages_spec {A} (sorted : list A) :
  1 ≤ totalPages sorted
  ∧ length sorted ≤ totalPages sorted * ITEMS_PER_PAGE
  ∧ (totalPages sorted - 1) * ITEMS_PER_PAGE ≤ length sorted
  ∧ (sorted ≠ [] → (totalPages sorted - 1) * ITEMS_PER_PAGE < length sorted).
Proof.
  unfold totalPages, ITEMS_PER_PAGE. cbv zeta.
  assert (sorted ≠ [] → 0 < length sorted) as Hlen
    by (destruct sorted; simpl; [done|lia]).
  pose proof (Nat.div_mod_eq (length sorted + (10 - 1)) 10) as Hdiv.
  pose proof (Nat.mod_upper_bound (length sorted + (10 - 1)) 10) as Hmod.
  destruct (Nat.eqb_spec ((length sorted + (10 - 1)) / 10) 0) as [Hz|Hnz].
  - split; [lia|]. split; [lia|]. split; [lia|].
    intros Hne. specialize (Hlen Hne). lia.
  - split; [lia|]. split; [lia|]. split; [lia|]. intros Hne. lia.
Qed.

Lemma length_paginated {A} (sorted : list A) (p : nat) :
  1 ≤ p →
  length (paginated sorted p)
  = ITEMS_PER_PAGE `min` (length sorted - (p - 1) * ITEMS_PER_PAGE).
Proof.
  intros Hp. unfold paginated, slice, ITEMS_PER_PAGE.
  rewrite length_take, length_drop. lia.
Qed.

(** X25. The pages cover the sorted list: there is at least one page, the
    pages from 1 to [totalPages] in a row make up the list, every page
    before the last is full, no page holds more than ten, the last page of
    a list that is not empty is not empty, pages after the last are empty,
    and the two page buttons never leave the range from 1 to
    [totalPages]. *)
Theorem pages_partition_the_list {A} (sorted : list A) :
  let total := totalPages sorted in
  1 ≤ total
  ∧ concat (paginated sorted <$> seq 1 total) = sorted
  ∧ (∀ p, length (paginated sorted p) ≤ ITEMS_PER_PAGE)
  ∧ (∀ p, 1 ≤ p < total → length (paginated sorted p) = ITEMS_PER_PAGE)
  ∧ (sorted ≠ [] → paginated sorted total ≠ [])
  ∧ (∀ p, total < p → paginated sorted p = [])
  ∧ (∀ p, 1 ≤ p ≤ total →
       1 ≤ prevPage p ≤ total ∧ 1 ≤ nextPage total p ≤ total).
Proof.
  intros total. destruct (totalPages_spec sorted) as (Hone & Hcover & Hfull & Hlast).
  fold total in Hone, Hcover, Hfull, Hlast. clearbody total. unfold ITEMS_PER_PAGE in *.
  split; [done|]. split; [|split; [|split; [|split; [|split]]]].
  - rewrite <- (chunks_concat 10 total sorted) at 2 by done.
    rewrite <- fmap_S_seq, <- list_fmap_compose. f_equal.
    apply list_fmap_ext. intros _ p _. simpl.
    unfold paginated, slice, ITEMS_PER_PAGE.
    replace (S p - 1) with p by lia. f_equal. lia.
  - intros p. clear Hlast. unfold paginated, slice, ITEMS_PER_PAGE.
    rewrite length_take. lia.
  - intros p Hp. clear Hlast. rewrite length_paginated by lia.
    unfold ITEMS_PER_PAGE. lia.
  - intros Hne Hnil. apply (f_equal length) in Hnil.
    rewrite length_paginated in Hnil by done. unfold ITEMS_PER_PAGE in Hnil.
    specialize (Hlast Hne). clear Hne. change (length []) with 0 in Hnil. lia.
  - intros p Hp. clear Hlast. apply length_zero_iff_nil.
    rewrite length_paginated by lia. unfold ITEMS_PER_PAGE. lia.
  - intros p Hp. clear Hlast. unfold prevPage, nextPage. lia.
Qed.

End pages.

(** ** Bulk actions *)

Section bulk.
Import BookmarkService BookmarkTable.

Lemma forSelected_ext turn1 turn2 clock i selectedIds s :
  (∀ now id s, turn1 now id s = turn2 now id s) →
  forSelected turn1 clock i selectedIds s = forSelected turn2 clock i selectedIds s.
Proof.
  intros Hext. revert i s.
  induction selectedIds as [|id rest IH]; intros i s; simpl; [done|].
  by rewrite Hext, IH.
Qed.

(** Merging the same updates twice is merging them once, when they leave
    [id] and [type] alone. *)
Lemma updatedNode_twice now1 now2 old updates :
  Partial.id updates = None → Partial.type updates = absent →
  updatedNode now2 (updatedNode now1 old updates) updates
  = updatedNode now2 old updates.
Proof.
  intros Hid Htype. unfold updatedNode. simpl. rewrite Hid, Htype. simpl.
  f_equal; by match goal with |- context [spread _ ?f] => destruct f end.
Qed.

(** With distinct ids, the first node of an id is the node of that id. *)
Lemma findById_NoDup (l : list BookmarkNode.t) index old :
  NoDup (BookmarkNode.id <$> l) → l !! index = Some old →
  findIndex (BookmarkNode.id old) l = Some (index, old)
  ∧ findById (BookmarkNode.id old) l = Some old.
Proof.
  intros Hnd Hold.
  assert (findIndex (BookmarkNode.id old) l = Some (index, old)) as Hfind.
  { unfold findIndex. apply list_find_Some. split; [done|]. split; [done|].
    intros j y Hy Hlt Hid.
    assert (j = index); [|lia].
    apply (NoDup_lookup _ j index (BookmarkNode.id old) Hnd);
      rewrite list_lookup_fmap.
    - by rewrite Hy; simpl; rewrite Hid.
    - by rewrite Hold. }
  split; [done|]. unfold findById. unfold findIndex in Hfind. by rewrite Hfind.
Qed.

(** One turn on a stored id. *)
Lemma bulkTurn_step upd now id s :
  (∀ updates, upd id = Some updates → Partial.id updates = None) →
  NoDup (BookmarkNode.id <$> getBookmarks s) →
  (is_Some (upd id) → id ∈ BookmarkNode.id <$> getBookmarks s) →
  BookmarkNode.id <$> getBookmarks (bulkTurn upd now id s)
  = BookmarkNode.id <$> getBookmarks s
  ∧ Forall2 (λ old mid,
       if decide (BookmarkNode.id old = id) then
         match upd id with
         | Some updates => mid = updatedNode now old updates
         | None => mid = old
         end
       else mid = old)
      (getBookmarks s) (getBookmarks (bulkTurn upd now id s)).
Proof.
  intros Hkeep Hnd Hstored. unfold bulkTurn.
  destruct (upd id) as [updates|] eqn:Hupd.
  - specialize (Hkeep updates eq_refl).
    apply list_elem_of_fmap in Hstored as (b & Hbid & Hb); [|done].
    apply list_elem_of_lookup in Hb as [index Hb].
    destruct (findById_NoDup _ _ _ Hnd Hb) as [Hfind _]. rewrite <- Hbid in Hfind.
    rewrite (updateBookmarkNode_found _ _ _ _ _ _ Hfind). cbn [snd].
    rewrite getBookmarks_setBookmarks. split.
    + rewrite list_fmap_insert. apply list_insert_id.
      rewrite list_lookup_fmap, Hb. unfold updatedNode. simpl. by rewrite Hkeep.
    + apply Forall2_same_length_lookup. split; [by rewrite length_insert|].
      intros k x y Hx Hy. destruct (decide (k = index)) as [->|Hne].
      * rewrite list_lookup_insert_eq in Hy by (by eapply lookup_lt_Some).
        rewrite Hb in Hx. injection Hx as <-. injection Hy as <-.
        by rewrite decide_True.
      * rewrite list_lookup_insert_ne in Hy by done.
        rewrite Hx in Hy. injection Hy as <-.
        rewrite decide_False; [done|]. intros Hxid. apply Hne.
        apply (NoDup_lookup _ k index id Hnd); rewrite list_lookup_fmap.
        -- by rewrite Hx; simpl; rewrite Hxid.
        -- by rewrite Hb; simpl; rewrite Hbid.
  - split; [done|]. apply Forall2_same_length_lookup. split; [done|].
    intros k x y Hx Hy. rewrite Hx in Hy. injection Hy as <-.
    by destruct (decide _).
Qed.

(** The loop of a bulk action over stored nodes with distinct ids. *)
Lemma forSelected_bulkTurn upd clock selectedIds :
  (∀ id updates, upd id = Some updates →
     Partial.id updates = None ∧ Partial.type updates = absent) →
  ∀ i s,
    NoDup (BookmarkNode.id <$> getBookmarks s) →
    (∀ id, id ∈ selectedIds → is_Some (upd id) →
           id ∈ BookmarkNode.id <$> getBookmarks s) →
    Forall2 (bulkUpdated upd clock selectedIds) (getBookmarks s)
      (getBookmarks (forSelected (bulkTurn upd) clock i selectedIds s)).
Proof.
  intros Hupd. induction selectedIds as [|id rest IH]; intros i s Hnd Hstored; simpl.
  - apply Forall2_same_length_lookup. split; [done|].
    intros k x y Hx Hy. rewrite Hx in Hy. injection Hy as <-.
    unfold bulkUpdated. destruct (upd _); [|done].
    rewrite decide_False; [done|]. apply not_elem_of_nil.
  - destruct (bulkTurn_step upd (clock i) id s) as [Hids Hstep]; [|done| |].
    { intros updates Hu. by apply Hupd in Hu as [? _]. }
    { apply Hstored. apply list_elem_of_here. }
    specialize (IH (S i) (bulkTurn upd (clock i) id s)).
    rewrite Hids in IH. specialize (IH Hnd).
    assert (∀ id', id' ∈ rest → is_Some (upd id') →
                   id' ∈ BookmarkNode.id <$> getBookmarks s) as Hrest.
    { intros id' Hin. apply Hstored. by apply list_elem_of_further. }
    specialize (IH Hrest).
    apply Forall2_same_length_lookup. split.
    { etrans; [eapply Forall2_length, Hstep|eapply Forall2_length, IH]. }
    intros k old new Hold Hnew.
    destruct (Forall2_lookup_l _ _ _ _ _ Hstep Hold) as (mid & Hmid & Hturn).
    pose proof (Forall2_lookup_lr _ _ _ _ _ _ IH Hmid Hnew) as Hlater.
    assert (BookmarkNode.id mid = BookmarkNode.id old) as Hmidid.
    { apply (f_equal (λ l, l !! k)) in Hids.
      rewrite !list_lookup_fmap, Hmid, Hold in Hids. by injection Hids. }
    unfold bulkUpdated in Hlater |- *. rewrite Hmidid in Hlater.
    destruct (decide (BookmarkNode.id old = id)) as [Heq|Hne].
    + rewrite Heq in Hlater |- *. destruct (upd id) as [updates|] eqn:Hu.
      * rewrite decide_True by apply list_elem_of_here. subst mid.
        destruct (decide (id ∈ rest)).
        -- destruct Hlater as [j ->]. exists j.
           apply Hupd in Hu as [? ?]. by apply updatedNode_twice.
        -- subst new. by exists i.
      * congruence.
    + subst mid. destruct (upd (BookmarkNode.id old)); [|done].
      destruct (decide (BookmarkNode.id old ∈ rest)) as [Hin|Hout].
      * by rewrite decide_True by (by apply list_elem_of_further).
      * rewrite decide_False; [done|].
        intros Hin. by apply elem_of_cons in Hin as [?|?].
Qed.

(** X26. Over stored nodes with distinct ids, and a selection of stored
    ids, [handleBulkAssignCategory] and [handleBulkMove] leave the list as
    long as it was and in its order; the node of a selected id gets the
    category, or the parent, and the [lastAccessed] of an update (the time
    of a turn for a bookmark, unset for a folder), and keeps its other
    fields; the nodes that are not selected stay as they are. *)
Theorem bulk_assign_and_move_update_selected
    (bulkCategoryId bulkMoveFolderId : string) (clock : nat → ISOString)
    (selectedIds : list string) (s : Storage.t) :
  NoDup (BookmarkNode.id <$> getBookmarks s) →
  (∀ id, id ∈ selectedIds → id ∈ BookmarkNode.id <$> getBookmarks s) →
  Forall2 (λ old new,
      if decide (BookmarkNode.id old ∈ selectedIds) then
        ∃ j, new =
          BookmarkNode.mk (BookmarkNode.id old) (BookmarkNode.type old)
            (BookmarkNode.title old) (BookmarkNode.url old)
            (BookmarkNode.parentId old) (Some bulkCategoryId)
            (BookmarkNode.tags old) (BookmarkNode.createdAt old)
            (if decide (BookmarkNode.type old = Some bookmark)
             then Some (clock j) else None)
            (BookmarkNode.accessCount old) (BookmarkNode.description old)
      else new = old)
    (getBookmarks s)
    (getBookmarks (handleBulkAssignCategory bulkCategoryId clock selectedIds s))
  ∧ Forall2 (λ old new,
      if decide (BookmarkNode.id old ∈ selectedIds) then
        ∃ j, new =
          BookmarkNode.mk (BookmarkNode.id old) (BookmarkNode.type old)
            (BookmarkNode.title old) (BookmarkNode.url old)
            (Some bulkMoveFolderId) (BookmarkNode.categoryId old)
            (BookmarkNode.tags old) (BookmarkNode.createdAt old)
            (if decide (BookmarkNode.type old = Some bookmark)
             then Some (clock j) else None)
            (BookmarkNode.accessCount old) (BookmarkNode.description old)
      else new = old)
    (getBookmarks s)
    (getBookmarks (handleBulkMove bulkMoveFolderId clock selectedIds s)).
Proof.
  intros Hnd Hstored. split.
  - pose proof (forSelected_bulkTurn
                  (λ _, Some (withCategoryId (Some bulkCategoryId) Partial.empty))
                  clock selectedIds) as Hloop.
    eapply Forall2_impl; [apply (Hloop ltac:(by intros ? ? [= <-]) 0 s Hnd)|].
    + intros id Hin _. by apply Hstored.
    + intros old new Hnew. unfold bulkUpdated in Hnew.
      destruct (decide _); [|done]. destruct Hnew as [j ->]. by exists j.
  - pose proof (forSelected_bulkTurn
                  (λ _, Some (withParentId (Some bulkMoveFolderId) Partial.empty))
                  clock selectedIds) as Hloop.
    eapply Forall2_impl; [apply (Hloop ltac:(by intros ? ? [= <-]) 0 s Hnd)|].
    + intros id Hin _. by apply Hstored.
    + intros old new Hnew. unfold bulkUpdated in Hnew.
      destruct (decide _); [|done]. destruct Hnew as [j ->]. by exists j.
Qed.

Lemma bulk_assign_and_move_update_selected_witness :
  let a := Sample.bookmarkNode "a" "https://a.example" None [] in
  let f := Sample.folderNode "f" None in
  length (getBookmarks
            (handleBulkMove "f" (λ i, (2000 + Z.of_nat i)%Z) ["a"]
               (Sample.storageOf [a; f]))) = 2.
Proof.
  intros a f.
  refine (eq_sym (Forall2_length _ _ _
    (proj2 (bulk_assign_and_move_update_selected "work" "f"
              (λ i, (2000 + Z.of_nat i)%Z) ["a"] (Sample.storageOf [a; f]) _ _)))).
  - simpl. repeat constructor; rewrite ?elem_of_cons, ?elem_of_nil;
      intros H; repeat destruct H as [H|H]; discriminate || done.
  - intros id Hin. apply list_elem_of_singleton in Hin as ->. apply list_elem_of_here.
Defined.

(** With distinct ids, two stored nodes of one id are one node. *)
Lemma same_id_NoDup (l : list BookmarkNode.t) a b :
  NoDup (BookmarkNode.id <$> l) → a ∈ l → b ∈ l →
  BookmarkNode.id a = BookmarkNode.id b → a = b.
Proof.
  intros Hnd Ha Hb Hid.
  apply list_elem_of_lookup in Ha as [i Hi]. apply list_elem_of_lookup in Hb as [j Hj].
  assert (i = j) as <-; [|congruence].
  apply (NoDup_lookup _ i j (BookmarkNode.id a) Hnd); rewrite list_lookup_fmap.
  - by rewrite Hi.
  - by rewrite Hj; simpl; rewrite Hid.
Qed.

(** X27. Over stored nodes of distinct ids, of which the table shows
    some, [handleBulkAddTags] gives every selected node the table shows its
    tags and the tags to add, each once, and [handleBulkRemoveTags] its tags
    without the tags to remove, in their order; a node without tags gets a
    list; the other fields stay but [lastAccessed], which is set as by an
    update. A selected id the table does not show is passed over, and the
    other nodes stay as they are, in their places. *)
Theorem bulk_tags_update_selected
    (tagsToAdd tagsToRemove : list string) (clock : nat → ISOString)
    (selectedIds : list string) (safeBookmarks : list BookmarkNode.t)
    (s : Storage.t) :
  NoDup (BookmarkNode.id <$> getBookmarks s) →
  sublist safeBookmarks (getBookmarks s) →
  let retagged := λ (tags : list string) (now : ISOString) (old : BookmarkNode.t),
    BookmarkNode.mk (BookmarkNode.id old) (BookmarkNode.type old)
      (BookmarkNode.title old) (BookmarkNode.url old)
      (BookmarkNode.parentId old) (BookmarkNode.categoryId old)
      (Some tags) (BookmarkNode.createdAt old)
      (if decide (BookmarkNode.type old = Some bookmark) then Some now else None)
      (BookmarkNode.accessCount old) (BookmarkNode.description old) in
  Forall2 (λ old new,
      (BookmarkNode.id old ∈ selectedIds → old ∈ safeBookmarks →
       ∃ j tags, new = retagged tags (clock j) old
         ∧ NoDup tags
         ∧ ∀ tag, tag ∈ tags ↔
             tag ∈ default [] (BookmarkNode.tags old) ∨ tag ∈ tagsToAdd)
      ∧ ((BookmarkNode.id old ∉ selectedIds) ∨ (old ∉ safeBookmarks) → new = old))
    (getBookmarks s)
    (getBookmarks (handleBulkAddTags tagsToAdd safeBookmarks clock selectedIds s))
  ∧ Forall2 (λ old new,
      (BookmarkNode.id old ∈ selectedIds → old ∈ safeBookmarks →
       ∃ j, new =
         retagged (filter (λ tag, tag ∉ tagsToRemove)
                     (default [] (BookmarkNode.tags old))) (clock j) old)
      ∧ ((BookmarkNode.id old ∉ selectedIds) ∨ (old ∉ safeBookmarks) → new = old))
    (getBookmarks s)
    (getBookmarks (handleBulkRemoveTags tagsToRemove safeBookmarks clock selectedIds s)).
Proof.
  intros Hnd Hshown retagged.
  assert (∀ newTags : list string → list string,
    Forall2 (λ old new,
        (BookmarkNode.id old ∈ selectedIds → old ∈ safeBookmarks →
         ∃ j, new = retagged (newTags (default [] (BookmarkNode.tags old)))
                      (clock j) old)
        ∧ ((BookmarkNode.id old ∉ selectedIds) ∨ (old ∉ safeBookmarks) → new = old))
      (getBookmarks s)
      (getBookmarks
         (forSelected (bulkTagsTurn newTags safeBookmarks) clock 0 selectedIds s)))
    as Hloop.
  { intros newTags.
    set (upd := λ id,
      (λ bm, withTags (newTags (default [] (BookmarkNode.tags bm))) Partial.empty)
        <$> findById id safeBookmarks).
    rewrite (forSelected_ext _ (bulkTurn upd)).
    2:{ intros now id s'. unfold bulkTagsTurn, bulkTurn, upd.
        by destruct (findById id safeBookmarks). }
    apply Forall2_same_length_lookup.
    pose proof (forSelected_bulkTurn upd clock selectedIds) as Hbulk.
    assert (Forall2 (bulkUpdated upd clock selectedIds) (getBookmarks s)
              (getBookmarks (forSelected (bulkTurn upd) clock 0 selectedIds s)))
      as Hall.
    { apply Hbulk; [|done|].
      - intros id updates. unfold upd.
        destruct (findById id safeBookmarks); [|done]. by intros [= <-].
      - intros id _ [updates Hsome]. unfold upd in Hsome.
        destruct (findById id safeBookmarks) as [bm|] eqn:Hbm; [|done].
        apply findById_Some in Hbm as [Hin <-]. apply list_elem_of_fmap_2.
        by eapply elem_of_sublist. }
    split; [by eapply Forall2_length|].
    intros k old new Hold Hnew.
    pose proof (Forall2_lookup_lr _ _ _ _ _ _ Hall Hold Hnew) as Hk.
    unfold bulkUpdated, upd in Hk.
    apply list_elem_of_lookup_2 in Hold as Hstored.
    destruct (findById (BookmarkNode.id old) safeBookmarks) as [bm|] eqn:Hbm.
    - apply findById_Some in Hbm as [Hin Hid].
      assert (bm = old) as ->.
      { apply (same_id_NoDup (getBookmarks s)); [done| |done|done].
        by eapply elem_of_sublist. }
      simpl in Hk. destruct (decide (BookmarkNode.id old ∈ selectedIds)).
      + split; [|by intros [?|?]]. intros _ _. destruct Hk as [j ->].
        exists j. reflexivity.
      + split; [done|]. by intros _.
    - simpl in Hk. split; [|by intros _]. intros _ Hin. exfalso.
      unfold findById in Hbm.
      destruct (list_find _ safeBookmarks) as [[? ?]|] eqn:Hfind; [done|].
      apply list_find_None in Hfind.
      by apply (proj1 (Forall_forall _ _) Hfind old Hin). }
  split.
  - eapply Forall2_impl; [apply (Hloop (λ tags, arrayFromSet (tags ++ tagsToAdd)))|].
    intros old new [Hsel Hother]. split; [|exact Hother].
    intros Hin Hshow. destruct (Hsel Hin Hshow) as [j ->].
    eexists j, _. split; [reflexivity|].
    split; [apply arrayFromSet_NoDup|]. intros tag.
    by rewrite arrayFromSet_elem_of, elem_of_app.
  - apply (Hloop (λ tags, filter (λ tag, tag ∉ tagsToRemove) tags)).
Qed.

Lemma bulk_tags_update_selected_witness :
  let a := Sample.bookmarkNode "a" "https://a.example" None ["x"] in
  let f := Sample.folderNode "f" None in
  length (getBookmarks
            (handleBulkRemoveTags ["x"] [a] (λ i, (2000 + Z.of_nat i)%Z)
               ["a"; "f"] (Sample.storageOf [a; f]))) = 2.
Proof.
  intros a f.
  refine (eq_sym (Forall2_length _ _ _
    (proj2 (bulk_tags_update_selected ["y"] ["x"]
              (λ i, (2000 + Z.of_nat i)%Z) ["a"; "f"] [a]
              (Sample.storageOf [a; f]) _ _)))).
  - simpl. repeat constructor; rewrite ?elem_of_cons, ?elem_of_nil;
      intros H; repeat destruct H as [H|H]; discriminate || done.
  - simpl. repeat constructor.
Defined.

(** One silent [onDelete] of the batch loop, on an id with no child: the
    stored nodes of the id go, if the hook's list has the id. *)
Lemma handleDeleteWithUndo_store fuel now bookmarks id (st : PopupBatch.t) :
  (∀ node, node ∈ getBookmarks (Popup.storage (PopupBatch.popup st)) →
           BookmarkNode.parentId node ≠ Some id) →
  ∃ st',
    PopupBatch.handleDeleteWithUndo (S fuel) now bookmarks id true false st = Some st'
    ∧ getBookmarks (Popup.storage (PopupBatch.popup st'))
      = filter (λ b, BookmarkNode.id b ≠ id
                     ∨ BookmarkNode.id b ∉ BookmarkNode.id <$> bookmarks)
          (getBookmarks (Popup.storage (PopupBatch.popup st))).
Proof.
  intros Hfree. unfold PopupBatch.handleDeleteWithUndo.
  destruct (findById id bookmarks) as [bm|] eqn:Hbm.
  - assert (id ∈ BookmarkNode.id <$> bookmarks) as Hknown.
    { apply findById_Some in Hbm as [Hin <-]. by apply list_elem_of_fmap_2. }
    assert (filter (λ b, BookmarkNode.id b ≠ id
                         ∨ BookmarkNode.id b ∉ BookmarkNode.id <$> bookmarks)
              (getBookmarks (Popup.storage (PopupBatch.popup st)))
            = filter (λ b, BookmarkNode.id b ≠ id)
                (getBookmarks (Popup.storage (PopupBatch.popup st)))) as ->.
    { apply list_filter_iff. intros b. split; [|by left].
      intros [?|Hout]; [done|]. intros Hid. apply Hout. by rewrite Hid. }
    cbn [negb andb]. unfold Popup.handleDeleteWithUndo. rewrite Hbm. cbn [negb andb].
    cbv zeta. rewrite deleteBookmarkNode_no_child by exact Hfree. cbv zeta.
    change (getBookmarks (Storage.setUndo bm (now + 5000)
              (Popup.storage (PopupBatch.popup st))))
      with (getBookmarks (Popup.storage (PopupBatch.popup st))).
    case_bool_decide as Hex; (eexists; split; [done|]).
    + done.
    + cbn [PopupBatch.popup Popup.storage].
      change (getBookmarks (Storage.setUndo bm (now + 5000)
                (Popup.storage (PopupBatch.popup st))))
        with (getBookmarks (Popup.storage (PopupBatch.popup st))).
      symmetry. apply filter_all, Forall_forall. intros b Hb Hid.
      apply Hex, Exists_exists. by exists b.
  - eexists. split; [done|]. symmetry. apply filter_all, Forall_forall.
    intros b Hb. destruct (decide (BookmarkNode.id b = id)) as [Hid|?]; [|by left].
    right. rewrite Hid. intros Hin.
    apply list_elem_of_fmap in Hin as (known & Hkid & Hknown).
    unfold findById in Hbm.
    destruct (list_find _ bookmarks) as [[? ?]|] eqn:Hfind; [done|].
    apply list_find_None in Hfind.
    by apply (proj1 (Forall_forall _ _) Hfind known Hknown).
Qed.

(** The batch loop removes the stored nodes whose id is in the batch and
    in the hook's list, and no other. *)
Lemma deleteEach_store fuel clock bookmarks ids :
  ∀ i (st : PopupBatch.t),
    (∀ node id, node ∈ getBookmarks (Popup.storage (PopupBatch.popup st)) →
                id ∈ ids → BookmarkNode.parentId node ≠ Some id) →
    ∃ st',
      BookmarkTableBatch.deleteEach (S fuel) clock i bookmarks ids st = Some st'
      ∧ getBookmarks (Popup.storage (PopupBatch.popup st'))
        = filter (λ b, (BookmarkNode.id b ∉ ids)
                       ∨ BookmarkNode.id b ∉ BookmarkNode.id <$> bookmarks)
            (getBookmarks (Popup.storage (PopupBatch.popup st))).
Proof.
  induction ids as [|id rest IH]; intros i st Hfree.
  - exists st. split; [done|]. symmetry. apply filter_all, Forall_forall.
    intros b _. left. apply not_elem_of_nil.
  - destruct (handleDeleteWithUndo_store fuel (clock i) bookmarks id st)
      as (st1 & Hrun & Hstore).
    { intros node Hnode. apply Hfree; [done|apply list_elem_of_here]. }
    destruct (IH (S i) st1) as (st' & Hrest & Hstore').
    { intros node id' Hnode Hid'. rewrite Hstore in Hnode.
      apply list_elem_of_filter in Hnode as [_ Hnode].
      apply Hfree; [done|by apply list_elem_of_further]. }
    exists st'. split.
    + change (BookmarkTableBatch.deleteEach (S fuel) clock i bookmarks (id :: rest) st)
        with (match PopupBatch.handleDeleteWithUndo (S fuel) (clock i) bookmarks id
                      true false st with
              | None => None
              | Some st1 =>
                  BookmarkTableBatch.deleteEach (S fuel) clock (S i) bookmarks rest st1
              end).
      by rewrite Hrun.
    + rewrite Hstore', Hstore, list_filter_filter. apply list_filter_iff.
      intros b. rewrite not_elem_of_cons. tauto.
Qed.

(** X29. A batch delete from the table followed by Undo moves the nodes to
    the end of the list, whatever the store holds by then (the table calls
    it at the end of a merge, when the store already has the merged nodes
    and the popup's handlers still have the list of the render before).
    With distinct ids in the hook's list, the table showing some of its
    nodes, and no stored node a child of an id of the batch: the batch
    delete returns, with the stored nodes gone whose id is in the batch and
    in the hook's list, the shown nodes of the batch in the batch buffer as
    the table had them, the single-delete buffer and its record empty; Undo
    then puts the buffered nodes after the stored ones, in the order of the
    table, each with [lastAccessed] as a restore sets it. *)
Theorem batch_delete_then_undo_moves_nodes_to_end
    (fuel : nat) (deleting restoring : nat → Z) (now : Z)
    (safeBookmarks bookmarks : list BookmarkNode.t) (ids : list string)
    (st : PopupBatch.t) :
  NoDup (BookmarkNode.id <$> bookmarks) →
  sublist safeBookmarks bookmarks →
  (∀ node id, node ∈ getBookmarks (Popup.storage (PopupBatch.popup st)) →
              id ∈ ids → BookmarkNode.parentId node ≠ Some id) →
  let toDelete := filter (λ b, BookmarkNode.id b ∈ ids) safeBookmarks in
  let kept :=
    filter (λ b, (BookmarkNode.id b ∉ ids)
                 ∨ BookmarkNode.id b ∉ BookmarkNode.id <$> bookmarks)
      (getBookmarks (Popup.storage (PopupBatch.popup st))) in
  ∃ st',
    BookmarkTableBatch.handleBatchDeleteWithUndo (S fuel) deleting now
      safeBookmarks bookmarks ids st = Some st'
    ∧ getBookmarks (Popup.storage (PopupBatch.popup st')) = kept
    ∧ PopupBatch.undoBatch st' = Some (toDelete, (now + 5000)%Z)
    ∧ Popup.lastDeleted (PopupBatch.popup st') = None
    ∧ Storage.lastDeletedBookmark (Popup.storage (PopupBatch.popup st')) = None
    ∧ getBookmarks
        (Popup.storage (PopupBatch.popup (PopupBatch.handleUndoBatch restoring st')))
      = kept ++ imap (λ j n, restoredSnapshot (restoring j) n) toDelete.
Proof.
  intros Hnd Hshown Hfree toDelete kept.
  destruct (deleteEach_store fuel deleting bookmarks ids 0 st Hfree)
    as (st1 & Hloop & Hstore).
  fold kept in Hstore.
  unfold BookmarkTableBatch.handleBatchDeleteWithUndo. cbv zeta. rewrite Hloop.
  eexists. split; [done|].
  assert (getBookmarks
            (Popup.storage
               (PopupBatch.popup (PopupBatch.handleBatchDeleteWithUndo now toDelete st1)))
          = kept) as Hkept by exact Hstore.
  split; [exact Hkept|]. split; [done|]. split; [done|]. split; [done|].
  unfold PopupBatch.handleUndoBatch.
  cbn [PopupBatch.undoBatch PopupBatch.handleBatchDeleteWithUndo].
  cbv zeta. cbn [PopupBatch.popup Popup.storage].
  rewrite restoreAll_appends.
  - f_equal. exact Hkept.
  - eapply sublist_NoDup; [exact Hnd|].
    apply fmap_sublist. etrans; [apply sublist_filter|done].
  - intros n m Hn Hm.
    assert (m ∈ kept) as Hm' by (rewrite <- Hkept; exact Hm).
    apply list_elem_of_filter in Hn as [Hn Hshow].
    apply list_elem_of_filter in Hm' as [Hm' _]. intros Hid.
    rewrite Hid in Hm'. destruct Hm' as [Hout|Hout]; [done|].
    apply Hout, list_elem_of_fmap_2. by eapply elem_of_sublist.
Qed.

Lemma batch_delete_then_undo_moves_nodes_to_end_witness :
  let a := Sample.bookmarkNode "a" "https://ex.com" None ["x"] in
  let b := Sample.bookmarkNode "b" "https://ex.com" None ["y"] in
  let merged :=
    (BookmarkService.updateBookmarkNode 50%Z "a"
       (withTags ["x"; "y"] (Partial.ofNode a)) (Sample.storageOf [a; b])).1 in
  ∃ st',
    BookmarkTableBatch.handleBatchDeleteWithUndo 1 (λ _, 60%Z) 100%Z [a; b] [a; b] ["b"]
      (PopupBatch.initial (Sample.storageOf [merged; b])) = Some st'
    ∧ getBookmarks
        (Popup.storage (PopupBatch.popup (PopupBatch.handleUndoBatch (λ _, 900%Z) st')))
      = [merged; restoredSnapshot 900%Z b].
Proof.
  intros a b merged.
  destruct (batch_delete_then_undo_moves_nodes_to_end 0 (λ _, 60%Z) (λ _, 900%Z) 100%Z
              [a; b] [a; b] ["b"] (PopupBatch.initial (Sample.storageOf [merged; b])))
    as (st' & Hrun & _ & _ & _ & _ & Hundo).
  - simpl. repeat constructor; rewrite ?elem_of_cons, ?elem_of_nil;
      intros H; repeat destruct H as [H|H]; discriminate || done.
  - done.
  - intros node id Hnode Hid Hparent. simpl in Hnode.
    repeat (apply elem_of_cons in Hnode as [->|Hnode]; [discriminate Hparent|]).
    by apply elem_of_nil in Hnode.
  - exists st'. split; [exact Hrun|exact Hundo].
Defined.

End bulk.
